(** * SOD spread model: the driver program [main.cpp]

    A shallow embedding of the driver of the Sudden Oak Death spread model:
    raster initialisation, option validation, the weekly loop with its
    pending-week queue, the replica batch and the mean / standard-deviation
    aggregation, together with the properties the specification states
    about them. *)

From Stdlib Require Import ZArith Lia Ascii String DecimalString List Reals Lra.
From stdpp Require Import base tactics option list strings gmap.

Local Open Scope Z_scope.

(** ** Outcomes of fallible code *)

(** The ways the program stops before [return 0]. *)
Inductive Abort : Type :=
| GFatalError (key for_key for_value : string)
    (* G_fatal_error("The option %s is required for %s=%s") *)
| ExitFailure (cerr_msg : string)
    (* a message on cerr followed by exit(EXIT_FAILURE) *)
| InvalidArgument (what : string)
    (* an uncaught std::invalid_argument *)
| ShapeMismatch.
    (* two grids of differing shape combined *)

(** [Undefined] marks an execution that reached an unchecked out-of-range
    read: C++ gives it no meaning and, in particular, no diagnostic. *)
Inductive Outcome (A : Type) : Type :=
| Ok (a : A)
| Aborted (e : Abort)
| Undefined (index size : nat).

Arguments Ok {A} a.
Arguments Aborted {A} e.
Arguments Undefined {A} index size.

Definition bind {A B : Type} (m : Outcome A) (k : A -> Outcome B) : Outcome B :=
  match m with
  | Ok a => k a
  | Aborted e => Aborted e
  | Undefined i n => Undefined i n
  end.

Notation "'let*' x ':=' m 'in' k" := (bind m (fun x => k))
  (at level 10, x pattern, m at level 100, k at level 200).

Definition is_abort {A : Type} (m : Outcome A) : bool :=
  match m with Aborted _ => true | _ => false end.

(** ** Rasters *)

(** Cells are C++ [int]s, of 32 bits.  C++ gives a signed overflow no
    meaning; the machines the program runs on keep the low 32 bits of the
    result, which is what [wrap_int] writes out.  The properties below
    that speak of values carry the bounds under which no overflow
    occurs. *)
Definition int_min : Z := - 2 ^ 31.
Definition int_max : Z := 2 ^ 31 - 1.

Definition wrap_int (z : Z) : Z := (z + 2 ^ 31) mod 2 ^ 32 - 2 ^ 31.

(** Modelled from the spec: [Img.h] is not part of the sources.  A grid has
    a width, a height, two resolutions and a dense row-major mapping from
    (row, column) to an integer count; its operations, from [Img_default]
    to [Img_div_assign] below, are elementwise, fail on grids of differing
    shape and write nothing but their receiver.  Cells are C++ [int]s:
    the result of an elementwise addition, subtraction or multiplication
    is an [int] again, [wrap_int] of the exact result. *)
Record Img : Type := mkImg {
  getWidth : nat;
  getHeight : nat;
  getWEResolution : Z;
  getNSResolution : Z;
  data : list Z
}.

(** The class invariant: the cell array has [width * height] entries. *)
Definition Img_wf (img : Img) : Prop :=
  length (data img) = (getHeight img * getWidth img)%nat.

(** [Img()] *)
Definition Img_default : Img := mkImg 0 0 0 0 [].

(** [Img(width, height, w_e_res, n_s_res, value)] *)
Definition Img_fill (w h : nat) (we ns : Z) (value : Z) : Img :=
  mkImg w h we ns (replicate (h * w) value).

(** [Img(width, height, w_e_res, n_s_res)]: the cells are not initialised
    by the constructor; every use in the program assigns all of them before
    reading, so they are given the value 0 here. *)
Definition Img_new (w h : nat) (we ns : Z) : Img := Img_fill w h we ns 0.

(** [img(i, j)] as an rvalue: row [i], column [j].  The program does not
    check the access; inside the grid it reads the cell, and that is what
    the properties below rely on: they are stated for rows below the
    height and columns below the width of a well-formed grid.  Outside the
    cell array the model reads 0. *)
Definition Img_at (img : Img) (i j : nat) : Z :=
  default 0 (data img !! (i * getWidth img + j)%nat).

(** [img(i, j) = v] *)
Definition Img_set (img : Img) (i j : nat) (v : Z) : Img :=
  mkImg (getWidth img) (getHeight img) (getWEResolution img)
        (getNSResolution img) (<[(i * getWidth img + j)%nat := v]> (data img)).

Definition same_shape (a b : Img) : bool :=
  (getWidth a =? getWidth b)%nat && (getHeight a =? getHeight b)%nat
  && (getWEResolution a =? getWEResolution b)
  && (getNSResolution a =? getNSResolution b).

(** Elementwise combination of two grids of one shape; any other pair is a
    [ShapeMismatch]. *)
Definition Img_zip (f : Z -> Z -> Z) (a b : Img) : Outcome Img :=
  if same_shape a b then
    Ok (mkImg (getWidth a) (getHeight a) (getWEResolution a)
              (getNSResolution a)
              (zip_with (fun x y => wrap_int (f x y)) (data a) (data b)))
  else Aborted ShapeMismatch.

(** [a - b], [a * b], [a += b] *)
Definition Img_minus : Img -> Img -> Outcome Img := Img_zip Z.sub.
Definition Img_times : Img -> Img -> Outcome Img := Img_zip Z.mul.
Definition Img_plus_assign : Img -> Img -> Outcome Img := Img_zip Z.add.

(** [img.for_each(op)] *)
Definition for_each (op : Z -> Z) (img : Img) : Img :=
  mkImg (getWidth img) (getHeight img) (getWEResolution img)
        (getNSResolution img) (op <$> data img).

(** [img.zero()] *)
Definition zero (img : Img) : Img := for_each (fun _ => 0) img.

(** [img /= value], with C++ integer division (truncation towards zero). *)
Definition Img_div_assign (img : Img) (value : Z) : Img :=
  for_each (fun a => Z.quot a value) img.

(** ** Initial infection of the canopy host *)

Definition shape_msg : string :=
  "The height or width of one image do not match with that of the other one!".

(** [initialize(img1, img2)]: the pair of what is written to [cerr] and
    the returned grid.  The second test of the guard compares the height
    of [img2] with itself, as the source does.  The product
    [img2(i, j) * 2] is computed on [int]. *)
Definition initialize (img1 img2 : Img) : list string * Img :=
  if negb (getWidth img1 =? getWidth img2)%nat
     || negb (getHeight img2 =? getHeight img2)%nat
  then ([shape_msg], Img_default)
  else
    let re_width := getWidth img1 in
    let re_height := getHeight img1 in
    let out := Img_new re_width re_height
                       (getWEResolution img1) (getNSResolution img1) in
    ([], foldl (fun out i =>
           foldl (fun out j =>
             if Img_at img2 i j >? 0 then
               if Img_at img1 i j >? Img_at img2 i j then
                 Img_set out i j
                   (if Img_at img1 i j <? wrap_int (Img_at img2 i j * 2)
                    then Img_at img1 i j
                    else wrap_int (Img_at img2 i j * 2))
               else Img_set out i j (Img_at img1 i j)
             else Img_set out i j 0)
           out (seq 0 re_width))
         out (seq 0 re_height)).

(** [all_infected(S_oaks_rast)] *)
Definition all_infected (S_oaks_rast : Img) : bool :=
  foldl (fun allInfected j =>
    foldl (fun allInfected k =>
      if Img_at S_oaks_rast j k >? 0 then false else allInfected)
    allInfected (seq 0 (getWidth S_oaks_rast)))
  true (seq 0 (getHeight S_oaks_rast)).

(** ** The calendar *)

(** Modelled from the spec: [date.h] is not part of the sources.  A date is
    a year, a month and a day; the order is the lexicographic one; a week
    advance adds 7 days with month and year rollover, leap years included;
    the year boundary is the last weekly step of a year, the one whose
    advance leaves December. *)
Record Date : Type := mkDate { getYear : Z; getMonth : Z; getDay : Z }.

Definition isLeapYear (d : Date) : bool :=
  (getYear d mod 4 =? 0)
  && (negb (getYear d mod 100 =? 0) || (getYear d mod 400 =? 0)).

Definition day_in_month (leap : bool) (month : Z) : Z :=
  if month =? 2 then (if leap then 29 else 28)
  else if (month =? 4) || (month =? 6) || (month =? 9) || (month =? 11)
       then 30 else 31.

Definition increasedByWeek (d : Date) : Date :=
  let day := getDay d + 7 in
  let len := day_in_month (isLeapYear d) (getMonth d) in
  if day >? len then
    if getMonth d + 1 >? 12
    then mkDate (getYear d + 1) 1 (day - len)
    else mkDate (getYear d) (getMonth d + 1) (day - len)
  else mkDate (getYear d) (getMonth d) day.

Definition isYearEnd (d : Date) : bool :=
  (getMonth d =? 12) && (getDay d + 7 >? 31).

(** [a < b] and [a >= b] *)
Definition Date_lt (a b : Date) : bool :=
  (getYear a <? getYear b)
  || ((getYear a =? getYear b)
      && ((getMonth a <? getMonth b)
          || ((getMonth a =? getMonth b) && (getDay a <? getDay b)))).

Definition Date_ge (a b : Date) : bool := negb (Date_lt a b).

(** ** Option values *)

(** The enumerations [Direction] and [Rtype], with the enumerators the
    driver names. *)
Module Dir.
Inductive Direction : Type := N | NE | E | SE | S | SW | W | NW | NONE.
End Dir.
Abbreviation Direction := Dir.Direction.

Inductive Rtype : Type := CAUCHY | CAUCHY_MIX.

Definition invalid_value (fn text : string) : Abort :=
  InvalidArgument (fn +:+ ": Invalid value '" +:+ text +:+ "' provided").

Definition direction_mapping : gmap string Direction :=
  list_to_map
    [("N", Dir.N); ("NE", Dir.NE); ("E", Dir.E); ("SE", Dir.SE);
     ("S", Dir.S); ("SW", Dir.SW); ("W", Dir.W); ("NW", Dir.NW);
     ("NONE", Dir.NONE)].

Definition direction_enum_from_string (text : string) : Outcome Direction :=
  match direction_mapping !! text with
  | Some d => Ok d
  | None => Aborted (invalid_value "direction_enum_from_string" text)
  end.

Definition radial_type_from_string (text : string) : Outcome Rtype :=
  if String.eqb text "cauchy" then Ok CAUCHY
  else if String.eqb text "cauchy_mix" then Ok CAUCHY_MIX
  else Aborted (invalid_value "radial_type_from_string" text).

Definition seasonality_from_string (text : string) : Outcome bool :=
  if String.eqb text "yes" then Ok true
  else if String.eqb text "no" then Ok false
  else Aborted (invalid_value "seasonality_from_string" text).

(** ** What the driver takes from outside *)

(** Modelled from the spec: [Spore.h] is not part of the sources.  A
    [Sporulation] owns the random stream of one replica, seeded at
    construction; [SporeGen] draws the spore counts of the week from the
    infected canopy-host grid and keeps them in the engine; [SporeSpreadDisp]
    disperses them and updates the four host grids of the replica in place,
    reading the living-tree grid.  The class also holds what the driver
    takes from its libraries: the C++ type [double] with its conversions,
    the GRASS name formatting and the printing of a date. *)
Class World : Type := {
  double : Type;
  d_of_int : Z -> double;
  d_mul : double -> double -> double;
  stod : string -> option double;
  stoul : string -> option Z;
  stoi : string -> option Z;
  G_double_to_basename_format : Z -> Z -> Z -> string;
  G_get_basename_separator : string;
  Date_to_string : Date -> string;
  Sporulation : Type;
  Sporulation_new : Z -> Img -> Sporulation;
  SporeGen :
    Sporulation -> Img -> list double -> double -> double -> Sporulation;
  SporeSpreadDisp :
    Sporulation -> Img -> Img -> Img -> Img -> Img -> Rtype -> list double ->
    double -> double -> double -> Direction -> double -> double ->
    Sporulation * (Img * Img * Img * Img)
}.

Section Driver.
Context {W : World}.

(** A NetCDF variable: [set_cur step] positions it on a record and tells
    whether that worked; [get step n height width] reads [n] records of
    [height * width] values from record [step] on, if it can. *)
Record NcVar : Type := mkNcVar {
  set_cur : nat -> bool;
  get : nat -> nat -> nat -> nat -> option (list double)
}.

Record NcFile : Type := mkNcFile {
  is_valid : bool;
  get_var : string -> option NcVar
}.

(** The files and maps the options name, and the system random device. *)
Record Env : Type := mkEnv {
  fromGrassRaster : string -> Img;
  weather_file_lines : string -> list (double * double);
  NcFile_open : string -> NcFile;
  random_device : Z
}.

(** The answers of the options once [G_parser] has accepted the command
    line; an option without an answer is [None]. *)
Record SodOptions : Type := mkOptions {
  opt_umca : string;
  opt_oaks : string;
  opt_lvtree : string;
  opt_ioaks : string;
  opt_nc_weather : option string;
  opt_weather_value : option string;
  opt_weather_file : option string;
  opt_start_time : string;
  opt_end_time : string;
  opt_seasonality : string;
  opt_spore_rate : string;
  opt_wind : string;
  opt_radial_type : string;
  opt_scale_1 : string;
  opt_scale_2 : option string;
  opt_kappa : string;
  opt_gamma : option string;
  opt_seed : option string;
  opt_runs : option string;
  opt_threads : option string;
  opt_output : string;
  opt_output_series : option string;
  opt_stddev : option string;
  opt_stddev_series : option string
}.

Definition unsigned_max : Z := 2 ^ 32.

(** Conversion of a value to [unsigned]. *)
Definition to_unsigned (z : Z) : Z := z mod unsigned_max.

Definition parse {A : Type} (f : string -> option A) (fn text : string)
  : Outcome A :=
  match f text with
  | Some a => Ok a
  | None => Aborted (InvalidArgument fn)
  end.

(** The values [main] computes from the options before it reads any map. *)
Record Params : Type := mkParams {
  num_runs : nat;
  threads : nat;
  ss : bool;
  pwdir : Direction;
  spore_rate : double;
  rtype : Rtype;
  scale1 : double;
  scale2 : double;
  kappa : double;
  gamma : double;
  dd_begin : Date;
  dd_end : Date;
  seed_value : Z
}.

Definition required_for (key : string) (opt : SodOptions) : Abort :=
  GFatalError key "radial_type" (opt_radial_type opt).

(** [main], from the declaration of [num_runs] to the choice of the
    seed. *)
Definition read_options (env : Env) (opt : SodOptions)
  : Outcome Params :=
  let* num_runs :=
    match opt_runs opt with
    | Some a => parse stoul "stoul" a
    | None => Ok 1
    end in
  let* threads :=
    match opt_threads opt with
    | Some a => parse stoul "stoul" a
    | None => Ok 1
    end in
  let* ss := seasonality_from_string (opt_seasonality opt) in
  let* pwdir := direction_enum_from_string (opt_wind opt) in
  let* spore_rate := parse stod "stod" (opt_spore_rate opt) in
  let* rtype := radial_type_from_string (opt_radial_type opt) in
  let* scale1 := parse stod "stod" (opt_scale_1 opt) in
  let* scale2 :=
    match rtype, opt_scale_2 opt with
    | CAUCHY_MIX, None => Aborted (required_for "scale_2" opt)
    | _, Some a => parse stod "stod" a
    | _, None => Ok (d_of_int 0)
    end in
  let* kappa := parse stod "stod" (opt_kappa opt) in
  let* gamma :=
    match rtype, opt_gamma opt with
    | CAUCHY_MIX, None => Aborted (required_for "gamma" opt)
    | _, Some a => parse stod "stod" a
    | _, None => Ok (d_of_int 0)
    end in
  let* start_time := parse stoi "stoi" (opt_start_time opt) in
  let* end_time := parse stoi "stoi" (opt_end_time opt) in
  if start_time >? end_time
  then Aborted (ExitFailure "Start date must precede the end date!!!")
  else
    let* seed_value :=
      match opt_seed opt with
      | Some a => parse stoul "stoul" a
      | None => Ok (random_device env)
      end in
    Ok (mkParams (Z.to_nat (to_unsigned num_runs))
                 (Z.to_nat (to_unsigned threads))
                 ss pwdir spore_rate rtype scale1 scale2 kappa gamma
                 (mkDate start_time 1 1) (mkDate end_time 12 31)
                 (to_unsigned seed_value)).

(** [weather_file_to_list(filename)]: one product per line of the file.
    The file is taken to hold two numbers in every line, which
    [weather_file_lines] hands over; what the program computes for a line
    that does not hold two numbers is not modelled. *)
Definition weather_file_to_list (env : Env) (filename : string) : list double :=
  foldl (fun output line => output ++ [d_mul line.1 line.2])
        [] (weather_file_lines env filename).

(** [v[i]] on a [std::vector]: no bounds check. *)
Definition vector_at {A : Type} (v : list A) (i : nat) : Outcome A :=
  match v !! i with
  | Some a => Ok a
  | None => Undefined i (length v)
  end.

(** A loop whose body may stop the program. *)
Fixpoint for_loop {A B : Type} (body : A -> B -> Outcome A) (a : A)
  (l : list B) : Outcome A :=
  match l with
  | [] => Ok a
  | b :: l => let* a' := body a b in for_loop body a' l
  end.

(** [cerr << step]: the number in decimal digits. *)
Definition show_int (n : nat) : string :=
  NilZero.string_of_uint (Nat.to_uint n).

(** [get_spatial_weather(mcf_nc, ccf_nc, mcf, ccf, weather, width, height,
    step)], where [weather] points [offset] cells into the buffer [buf].
    Each of the four messages ends with the number of the step. *)
Definition get_spatial_weather (mcf_nc ccf_nc : NcVar) (buf : list double)
  (offset width height step : nat) : Outcome (list double) :=
  if negb (set_cur mcf_nc step) then
    Aborted (ExitFailure
      ("Can not read the coefficients from the mcf_nc pointer to mcf array "
       +:+ show_int step))
  else if negb (set_cur ccf_nc step) then
    Aborted (ExitFailure
      ("Can not read the coefficients from the ccf_nc pointer to ccf array "
       +:+ show_int step))
  else
    match get mcf_nc step 1%nat height width with
    | None =>
      Aborted (ExitFailure
        ("Can not get the record from mcf_nc " +:+ show_int step))
    | Some mcf =>
      match get ccf_nc step 1%nat height width with
      | None =>
        Aborted (ExitFailure
          ("Can not get the record from ccf_nc " +:+ show_int step))
      | Some ccf =>
        Ok (foldl (fun buf j =>
              foldl (fun buf k =>
                match mcf !! (j * width + k)%nat, ccf !! (j * width + k)%nat with
                | Some m, Some c =>
                  <[(offset + (j * width + k))%nat := d_mul m c]> buf
                | _, _ => buf
                end)
              buf (seq 0 width))
            buf (seq 0 height))
      end
    end.

(** What is fixed when the weekly loop starts. *)
Record Setup : Type := mkSetup {
  params : Params;
  lvtree_rast : Img;
  width : nat;
  height : nat;
  weather_coeff : option (NcVar * NcVar);
  weather_values : list double;
  output_series : option string;
  stddev_series : option string
}.

(** The variables the weekly loop reads and writes.  The five vectors hold
    one entry per replica. *)
Record SimState : Type := mkSimState {
  dd_start : Date;
  current_week : nat;
  unresolved_weeks : list nat;
  S_oaks_rast : Img;
  I_oaks_rast : Img;
  weather_value : double;
  weather : list double;
  sporulations : list Sporulation;
  sus_umca_rasts : list Img;
  sus_oaks_rasts : list Img;
  inf_umca_rasts : list Img;
  inf_oaks_rasts : list Img;
  cerr : list string;
  grass_rasters : list (string * Img)
}.

Definition with_unresolved_weeks (q : list nat) (st : SimState) : SimState :=
  mkSimState (dd_start st) (current_week st) q (S_oaks_rast st)
    (I_oaks_rast st) (weather_value st) (weather st) (sporulations st)
    (sus_umca_rasts st) (sus_oaks_rasts st) (inf_umca_rasts st)
    (inf_oaks_rasts st) (cerr st) (grass_rasters st).

Definition with_I_oaks_rast (img : Img) (st : SimState) : SimState :=
  mkSimState (dd_start st) (current_week st) (unresolved_weeks st)
    (S_oaks_rast st) img (weather_value st) (weather st) (sporulations st)
    (sus_umca_rasts st) (sus_oaks_rasts st) (inf_umca_rasts st)
    (inf_oaks_rasts st) (cerr st) (grass_rasters st).

Definition with_weather_value (v : double) (st : SimState) : SimState :=
  mkSimState (dd_start st) (current_week st) (unresolved_weeks st)
    (S_oaks_rast st) (I_oaks_rast st) v (weather st) (sporulations st)
    (sus_umca_rasts st) (sus_oaks_rasts st) (inf_umca_rasts st)
    (inf_oaks_rasts st) (cerr st) (grass_rasters st).

Definition with_weather (buf : list double) (st : SimState) : SimState :=
  mkSimState (dd_start st) (current_week st) (unresolved_weeks st)
    (S_oaks_rast st) (I_oaks_rast st) (weather_value st) buf (sporulations st)
    (sus_umca_rasts st) (sus_oaks_rasts st) (inf_umca_rasts st)
    (inf_oaks_rasts st) (cerr st) (grass_rasters st).

(** The engine and the four grids of replica [run] after a call. *)
Definition with_replica (run : nat) (sp : Sporulation)
  (g : Img * Img * Img * Img) (st : SimState) : SimState :=
  let '(su, so, iu, io) := g in
  mkSimState (dd_start st) (current_week st) (unresolved_weeks st)
    (S_oaks_rast st) (I_oaks_rast st) (weather_value st) (weather st)
    (<[run := sp]> (sporulations st))
    (<[run := su]> (sus_umca_rasts st)) (<[run := so]> (sus_oaks_rasts st))
    (<[run := iu]> (inf_umca_rasts st)) (<[run := io]> (inf_oaks_rasts st))
    (cerr st) (grass_rasters st).

Definition with_cerr (msg : string) (st : SimState) : SimState :=
  mkSimState (dd_start st) (current_week st) (unresolved_weeks st)
    (S_oaks_rast st) (I_oaks_rast st) (weather_value st) (weather st)
    (sporulations st) (sus_umca_rasts st) (sus_oaks_rasts st)
    (inf_umca_rasts st) (inf_oaks_rasts st) (cerr st ++ [msg])
    (grass_rasters st).

(** [img.toGrassRaster(name)] *)
Definition toGrassRaster (img : Img) (name : string) (st : SimState)
  : SimState :=
  mkSimState (dd_start st) (current_week st) (unresolved_weeks st)
    (S_oaks_rast st) (I_oaks_rast st) (weather_value st) (weather st)
    (sporulations st) (sus_umca_rasts st) (sus_oaks_rasts st)
    (inf_umca_rasts st) (inf_oaks_rasts st) (cerr st)
    (grass_rasters st ++ [(name, img)]).

(** The loop increment: [current_week++, dd_start.increasedByWeek()]. *)
Definition next_week (st : SimState) : SimState :=
  mkSimState (increasedByWeek (dd_start st)) (Datatypes.S (current_week st))
    (unresolved_weeks st) (S_oaks_rast st) (I_oaks_rast st)
    (weather_value st) (weather st) (sporulations st) (sus_umca_rasts st)
    (sus_oaks_rasts st) (inf_umca_rasts st) (inf_oaks_rasts st) (cerr st)
    (grass_rasters st).

(** [generate_name(basename, date)] *)
Definition generate_name (basename : string) (date : Date) : string :=
  let year := G_double_to_basename_format (getYear date) 4 0 in
  let month := G_double_to_basename_format (getMonth date) 2 0 in
  let day := G_double_to_basename_format (getDay date) 2 0 in
  let sep := G_get_basename_separator in
  basename +:+ sep +:+ year +:+ "_" +:+ month +:+ "_" +:+ day.

(** *** The weekly loop, piece by piece *)

(** The queueing of the current week at the top of the loop body. *)
Definition accumulate (c : Setup) (st : SimState) : SimState :=
  if Date_lt (dd_start st) (dd_end (params c)) then
    if negb (ss (params c)) || negb (getMonth (dd_start st) >? 9) then
      with_unresolved_weeks (unresolved_weeks st ++ [current_week st]) st
    else st
  else st.

(** The first loop over the pending weeks: the weather of every week is
    read into its slot of the buffer. *)
Definition fetch_weather (c : Setup) (st : SimState) : Outcome SimState :=
  match weather_coeff c with
  | Some (mcf_nc, ccf_nc) =>
    let* r :=
      for_loop (fun (acc : list double * nat) week =>
        let* buf :=
          get_spatial_weather mcf_nc ccf_nc acc.1
            (acc.2 * width c * height c) (width c) (height c) week in
        Ok (buf, Datatypes.S acc.2))
      (weather st, 0%nat) (unresolved_weeks st) in
    Ok (with_weather r.1 st)
  | None => Ok st
  end.

(** One pending week of replica [run]: the body of the inner loop of the
    batch.  The weather scalar is read from the per-week list without a
    bounds check and stored in the variable [weather_value] of [main].
    [week_weather] is the slice of the weather buffer for the week; without
    a spatial source the buffer, and with it the slice, is empty. *)
Definition replica_week (c : Setup) (run : nat) (acc : SimState * nat)
  (week : nat) : Outcome (SimState * nat) :=
  let st := acc.1 in
  let week_in_chunk := acc.2 in
  let week_weather :=
    take (width c * height c)
         (drop (week_in_chunk * width c * height c) (weather st)) in
  let* st :=
    match weather_coeff c, weather_values c with
    | None, _ :: _ =>
      let* v := vector_at (weather_values c) week in
      Ok (with_weather_value v st)
    | _, _ => Ok st
    end in
  let* sp := vector_at (sporulations st) run in
  let* iu := vector_at (inf_umca_rasts st) run in
  let sp := SporeGen sp iu week_weather (weather_value st)
                     (spore_rate (params c)) in
  let* su := vector_at (sus_umca_rasts st) run in
  let* so := vector_at (sus_oaks_rasts st) run in
  let* io := vector_at (inf_oaks_rasts st) run in
  let r := SporeSpreadDisp sp su so iu io (lvtree_rast c) (rtype (params c))
             week_weather (weather_value st) (scale1 (params c))
             (kappa (params c)) (pwdir (params c)) (scale2 (params c))
             (gamma (params c)) in
  Ok (with_replica run r.1 r.2 st, Datatypes.S week_in_chunk).

(** The batch as a single thread runs it (the default, [nprocs=1]):
    replica after replica.  Its execution by several threads is
    [run_replicas_omp] below. *)
Definition run_replicas (c : Setup) (st : SimState) : Outcome SimState :=
  for_loop (fun st run =>
    let* r := for_loop (replica_week c run) (st, 0%nat) (unresolved_weeks st) in
    Ok r.1)
  st (seq 0 (num_runs (params c))).

(** The mean of the infected-oak grids of the replicas, computed in
    [I_oaks_rast]. *)
Definition aggregate (inf_oaks_rasts : list Img) (num_runs : nat)
  (I_oaks_rast : Img) : Outcome Img :=
  let* sum :=
    for_loop (fun acc i =>
      let* r := vector_at inf_oaks_rasts i in Img_plus_assign acc r)
    (zero I_oaks_rast) (seq 0 num_runs) in
  Ok (Img_div_assign sum (Z.of_nat num_runs)).

(** The grid [stddev] computed from the replicas and the mean
    [I_oaks_rast].  The cells are [int]s: the division and the assignment
    of the square root both drop the fraction. *)
Definition stddev (inf_oaks_rasts : list Img) (num_runs : nat)
  (I_oaks_rast : Img) : Outcome Img :=
  let* sum :=
    for_loop (fun acc i =>
      let* r := vector_at inf_oaks_rasts i in
      let* tmp := Img_minus r I_oaks_rast in
      let* sq := Img_times tmp tmp in
      Img_plus_assign acc sq)
    (Img_fill (getWidth I_oaks_rast) (getHeight I_oaks_rast)
              (getWEResolution I_oaks_rast) (getNSResolution I_oaks_rast) 0)
    (seq 0 num_runs) in
  Ok (for_each Z.sqrt (Img_div_assign sum (Z.of_nat num_runs))).

(** The two output blocks that follow a batch. *)
Definition periodic_output (c : Setup) (st : SimState) : Outcome SimState :=
  let* st :=
    match output_series c, stddev_series c with
    | None, None => Ok st
    | series, _ =>
      let* m := aggregate (inf_oaks_rasts st) (num_runs (params c))
                          (I_oaks_rast st) in
      let st := with_I_oaks_rast m st in
      match series with
      | Some basename =>
        Ok (toGrassRaster m (generate_name basename (dd_start st)) st)
      | None => Ok st
      end
    end in
  match stddev_series c with
  | Some basename =>
    let* sd := stddev (inf_oaks_rasts st) (num_runs (params c))
                      (I_oaks_rast st) in
    Ok (toGrassRaster sd (generate_name basename (dd_start st)) st)
  | None => Ok st
  end.

Inductive Exit : Type := AllInfected | EndReached.

(** One pass through the body of the weekly loop; [Some e] when the pass
    ends in a [break]. *)
Definition week_body (c : Setup) (st : SimState)
  : Outcome (SimState * option Exit) :=
  let st := accumulate c st in
  if all_infected (S_oaks_rast st) then
    Ok (with_cerr ("In the " +:+ Date_to_string (dd_start st)
                   +:+ " all suspectible oaks are infected!") st,
        Some AllInfected)
  else
    let* st :=
      if isYearEnd (dd_start st)
         || Date_ge (dd_start st) (dd_end (params c)) then
        let* st :=
          match unresolved_weeks st with
          | [] => Ok st
          | _ :: _ =>
            let* st := fetch_weather c st in
            let* st := run_replicas c st in
            Ok (with_unresolved_weeks [] st)
          end in
        periodic_output c st
      else Ok st in
    if Date_ge (dd_start st) (dd_end (params c))
    then Ok (st, Some EndReached)
    else Ok (st, None).

(** The loop, for at most [fuel] weeks; [None] when it has not left the
    loop by then. *)
Fixpoint weekly_loop (fuel : nat) (c : Setup) (st : SimState)
  : Outcome (option (SimState * Exit)) :=
  match fuel with
  | O => Ok None
  | Datatypes.S fuel =>
    let* r := week_body c st in
    match r.2 with
    | Some e => Ok (Some (r.1, e))
    | None => weekly_loop fuel c (next_week r.1)
    end
  end.

(** *** Before and after the loop *)

Definition max_weeks_in_year : nat := 53.

(** The loop that builds [sporulations]: replica [i] is constructed with
    [seed_value++], an [unsigned]. *)
Definition seed_replicas (seed_value : Z) (num_runs : nat) (I_umca_rast : Img)
  : Z * list Sporulation :=
  foldl (fun (acc : Z * list Sporulation) (_ : nat) =>
           (to_unsigned (acc.1 + 1),
            acc.2 ++ [Sporulation_new acc.1 I_umca_rast]))
        (seed_value, []) (seq 0 num_runs).

(** [main], from the reading of the maps to the start of the loop. *)
Definition setup (env : Env) (opt : SodOptions) (p : Params)
  : Outcome (Setup * SimState) :=
  let umca_rast := fromGrassRaster env (opt_umca opt) in
  let oaks_rast := fromGrassRaster env (opt_oaks opt) in
  let lvtree_rast := fromGrassRaster env (opt_lvtree opt) in
  let I_oaks_rast := fromGrassRaster env (opt_ioaks opt) in
  let* S_oaks_rast := Img_minus oaks_rast I_oaks_rast in
  let init := initialize umca_rast I_oaks_rast in
  let I_umca_rast := init.2 in
  let* S_umca_rast := Img_minus umca_rast I_umca_rast in
  let width := getWidth umca_rast in
  let height := getHeight umca_rast in
  let weather_coeff :=
    match opt_nc_weather opt with
    | Some a => Some (NcFile_open env a)
    | None => None
    end in
  let weather_values :=
    match opt_nc_weather opt, opt_weather_file opt with
    | None, Some a => weather_file_to_list env a
    | _, _ => []
    end in
  let* weather_value :=
    match opt_nc_weather opt, opt_weather_file opt, opt_weather_value opt with
    | None, None, Some a =>
      let* v := parse stoi "stoi" a in Ok (d_of_int v)
    | None, None, None => Ok (d_of_int 1)
    | _, _, _ => Ok (d_of_int 0)
    end in
  let* vars :=
    match weather_coeff with
    | None => Ok None
    | Some file =>
      if negb (is_valid file) then
        Aborted (ExitFailure
          "Can not open the weather coefficients file(.cn)!")
      else
        match get_var file "Mcoef" with
        | None =>
          Aborted (ExitFailure
            "Can not read the moisture coefficients from the file!")
        | Some mcf_nc =>
          match get_var file "Ccoef" with
          | None =>
            Aborted (ExitFailure
              "Can not read the temperature coefficients from the file!")
          | Some ccf_nc => Ok (Some (mcf_nc, ccf_nc))
          end
        end
    end in
  let weather :=
    match weather_coeff with
    | Some _ => replicate (max_weeks_in_year * height * width) (d_of_int 0)
    | None => []
    end in
  let n := num_runs p in
  Ok (mkSetup p lvtree_rast width height vars weather_values
              (opt_output_series opt) (opt_stddev_series opt),
      mkSimState (dd_begin p) 0%nat [] S_oaks_rast I_oaks_rast weather_value
                 weather (seed_replicas (seed_value p) n I_umca_rast).2
                 (replicate n S_umca_rast) (replicate n S_oaks_rast)
                 (replicate n I_umca_rast) (replicate n I_oaks_rast)
                 init.1 []).

(** [main], after the loop: the final mean and standard deviation. *)
Definition final_output (c : Setup) (opt : SodOptions) (st : SimState)
  : Outcome SimState :=
  let* m := aggregate (inf_oaks_rasts st) (num_runs (params c))
                      (I_oaks_rast st) in
  let st := toGrassRaster m (opt_output opt) (with_I_oaks_rast m st) in
  match opt_stddev opt with
  | Some name =>
    let* sd := stddev (inf_oaks_rasts st) (num_runs (params c))
                      (I_oaks_rast st) in
    Ok (toGrassRaster sd name st)
  | None => Ok st
  end.

(** A number of weeks that covers the years from the start to the end. *)
Definition loop_bound (p : Params) : nat :=
  (54 * (Z.to_nat (getYear (dd_end p) - getYear (dd_begin p)) + 1))%nat.

(** The whole program once the command line is parsed: the abort, or the
    last state, whose [grass_rasters] are the maps written and whose
    [cerr] is the text written to the error stream. *)
Definition main (env : Env) (opt : SodOptions) : Outcome (option SimState) :=
  let* p := read_options env opt in
  let* s := setup env opt p in
  let* r := weekly_loop (loop_bound p) s.1 s.2 in
  match r with
  | Some (st, _) => let* st := final_output s.1 opt st in Ok (Some st)
  | None => Ok None
  end.

(** The states in which the loop body is entered, starting from [st0]. *)
Inductive reaches (c : Setup) (st0 : SimState) : SimState -> Prop :=
| reaches_start : reaches c st0 st0
| reaches_next st st' :
    reaches c st0 st ->
    week_body c st = Ok (st', None) ->
    reaches c st0 (next_week st').

(** What [G_parser] has checked when it accepts the command line: the
    answers of the numeric options read as numbers, and the answers of the
    options with a list of values are in the list. *)
Definition accepted_by_parser (opt : SodOptions) : Prop :=
  (forall a, opt_runs opt = Some a -> is_Some (stoul a)) /\
  (forall a, opt_threads opt = Some a -> is_Some (stoul a)) /\
  opt_seasonality opt ∈ ["yes"; "no"] /\
  opt_wind opt ∈ ["N"; "NE"; "E"; "SE"; "S"; "SW"; "W"; "NW"; "NONE"] /\
  is_Some (stod (opt_spore_rate opt)) /\
  opt_radial_type opt ∈ ["cauchy"; "cauchy_mix"] /\
  is_Some (stod (opt_scale_1 opt)) /\
  (forall a, opt_scale_2 opt = Some a -> is_Some (stod a)) /\
  is_Some (stod (opt_kappa opt)) /\
  (forall a, opt_gamma opt = Some a -> is_Some (stod a)) /\
  is_Some (stoi (opt_start_time opt)) /\
  is_Some (stoi (opt_end_time opt)) /\
  (forall a, opt_seed opt = Some a -> is_Some (stoul a)) /\
  (forall a, opt_weather_value opt = Some a -> is_Some (stoi a)).

(** The four host grids of every replica. *)
Definition replica_grids (st : SimState)
  : list Img * list Img * list Img * list Img :=
  (sus_umca_rasts st, sus_oaks_rasts st, inf_umca_rasts st, inf_oaks_rasts st).

(** *** The batch under [#pragma omp parallel for]

    [run_replicas] is the batch as one thread runs it.  With one thread
    per replica the iterations of the [run] loop interleave: each replica
    goes through its own pending weeks in order, in three steps per week
    (the store to [weather_value], the call of [SporeGen], the call of
    [SporeSpreadDisp], each of the calls reading [weather_value] for its
    argument), and a schedule says which replica moves next.  The
    variable [weather_value] is declared in [main] outside the parallel
    loop: all replicas store to and read from the one variable. *)

Inductive Phase : Type := AtWeather | AtSporeGen | AtSpread.

(** Where a replica is in its iteration of the [run] loop. *)
Record Progress : Type := mkProgress {
  weeks_left : list nat;
  week_in_chunk : nat;
  phase : Phase
}.

(** A call of the engine as seen from outside: replica, week and the
    weather scalar passed. *)
Inductive Call : Type :=
| SporeGen_call (run week : nat) (weather_value : double)
| SporeSpreadDisp_call (run week : nat) (weather_value : double).

Definition with_sporulation (run : nat) (sp : Sporulation) (st : SimState)
  : SimState :=
  mkSimState (dd_start st) (current_week st) (unresolved_weeks st)
    (S_oaks_rast st) (I_oaks_rast st) (weather_value st) (weather st)
    (<[run := sp]> (sporulations st))
    (sus_umca_rasts st) (sus_oaks_rasts st) (inf_umca_rasts st)
    (inf_oaks_rasts st) (cerr st) (grass_rasters st).

(** The next step of replica [run]. *)
Definition thread_step (c : Setup) (run : nat) (pr : Progress) (st : SimState)
  : Outcome (Progress * SimState * list Call) :=
  match weeks_left pr with
  | [] => Ok (pr, st, [])
  | week :: rest =>
    let week_weather :=
      take (width c * height c)
           (drop (week_in_chunk pr * width c * height c) (weather st)) in
    match phase pr with
    | AtWeather =>
      let* st :=
        match weather_coeff c, weather_values c with
        | None, _ :: _ =>
          let* v := vector_at (weather_values c) week in
          Ok (with_weather_value v st)
        | _, _ => Ok st
        end in
      Ok (mkProgress (week :: rest) (week_in_chunk pr) AtSporeGen, st, [])
    | AtSporeGen =>
      let* sp := vector_at (sporulations st) run in
      let* iu := vector_at (inf_umca_rasts st) run in
      let sp := SporeGen sp iu week_weather (weather_value st)
                         (spore_rate (params c)) in
      Ok (mkProgress (week :: rest) (week_in_chunk pr) AtSpread,
          with_sporulation run sp st,
          [SporeGen_call run week (weather_value st)])
    | AtSpread =>
      let* sp := vector_at (sporulations st) run in
      let* su := vector_at (sus_umca_rasts st) run in
      let* so := vector_at (sus_oaks_rasts st) run in
      let* iu := vector_at (inf_umca_rasts st) run in
      let* io := vector_at (inf_oaks_rasts st) run in
      let r := SporeSpreadDisp sp su so iu io (lvtree_rast c)
                 (rtype (params c)) week_weather (weather_value st)
                 (scale1 (params c)) (kappa (params c)) (pwdir (params c))
                 (scale2 (params c)) (gamma (params c)) in
      Ok (mkProgress rest (Datatypes.S (week_in_chunk pr)) AtWeather,
          with_replica run r.1 r.2 st,
          [SporeSpreadDisp_call run week (weather_value st)])
    end
  end.

(** The replicas move as the schedule says; an entry that names no replica
    is skipped. *)
Fixpoint interleave (c : Setup) (schedule : list nat)
  (acc : list Progress * SimState * list Call)
  : Outcome (list Progress * SimState * list Call) :=
  match schedule with
  | [] => Ok acc
  | run :: schedule =>
    match acc.1.1 !! run with
    | None => interleave c schedule acc
    | Some pr =>
      let* r := thread_step c run pr acc.1.2 in
      interleave c schedule
        (<[run := r.1.1]> acc.1.1, r.1.2, acc.2 ++ r.2)
    end
  end.

Definition finished (pr : Progress) : bool :=
  match weeks_left pr with [] => true | _ :: _ => false end.

(** The batch under a schedule: the state after it and the calls made, or
    [None] if the schedule stops before every replica is through. *)
Definition run_replicas_omp (c : Setup) (schedule : list nat) (st : SimState)
  : Outcome (option (SimState * list Call)) :=
  let* r :=
    interleave c schedule
      (replicate (num_runs (params c))
                 (mkProgress (unresolved_weeks st) 0 AtWeather), st, []) in
  if forallb finished r.1.1 then Ok (Some (r.1.2, r.2)) else Ok None.

(** The schedule of a single thread: replica after replica, three steps
    for every pending week. *)
Definition one_thread_schedule (num_runs weeks : nat) : list nat :=
  flat_map (fun run => replicate (3 * weeks) run) (seq 0 num_runs).

End Driver.

(** ** The specification's words, for comparison with the code *)

(** The initial infected count of a cell that holds [canopy] canopy hosts
    and [infected] infected oaks. *)
Definition initial_infected_spec (canopy infected : Z) : Z :=
  if infected =? 0 then 0
  else if canopy >? infected then Z.min canopy (2 * infected)
  else canopy.

(** The values the replicas hold in cell [(i, j)]. *)
Definition cell_values (grids : list Img) (i j : nat) : list Z :=
  (fun g => Img_at g i j) <$> grids.

(** The sum over the replicas of the squared deviation from [m]. *)
Definition sum_sq_dev (xs : list Z) (m : Z) : Z :=
  foldr (fun x acc => (x - m) * (x - m) + acc) 0 xs.

(** The population standard deviation of [xs] about the mean value [m]:
    the square root of the mean of the squared deviations, a real
    number. *)
Definition population_stddev (xs : list Z) (m : Z) : R :=
  sqrt (IZR (sum_sq_dev xs m) / IZR (Z.of_nat (length xs))).

(** A sum of [int]s as the program accumulates it, from [a]: after every
    addition the result is an [int] again. *)
Definition wrapped_sum (a : Z) (xs : list Z) : Z :=
  foldl (fun t x => wrap_int (t + x)) a xs.

(** The squared deviation of [x] from [m] as the program computes it: the
    difference and the product are [int]s. *)
Definition wrapped_sq_dev (m x : Z) : Z :=
  wrap_int (wrap_int (x - m) * wrap_int (x - m)).

(** Two grids of one shape whose cell arrays have one length. *)
Definition like (a b : Img) : Prop :=
  same_shape a b = true /\ length (data b) = length (data a).

(** ** Sample data *)

(** One-cell maps of 2000000000 canopy hosts and 1500000000 infected oaks:
    twice the infected oaks is more than an [int] holds. *)
Definition canopy_2e9 : Img := mkImg 1 1 30 30 [2000000000].
Definition infected_15e8 : Img := mkImg 1 1 30 30 [1500000000].

(** A one-cell map of 1000000000 infected oaks: three times that is more
    than an [int] holds. *)
Definition oaks_1e9 : Img := mkImg 1 1 30 30 [1000000000].

(** Two replicas of a one-cell map holding 0 and 3, and a one-cell map
    holding their integer mean. *)
Definition replicas_0_3 : list Img :=
  [mkImg 1 1 30 30 [0]; mkImg 1 1 30 30 [3]].

Definition mean_0_3 : Img := mkImg 1 1 30 30 [1].

(** A date whose month and day exist. *)
Definition Date_valid (d : Date) : Prop :=
  1 <= getMonth d <= 12 /\
  1 <= getDay d <= day_in_month (isLeapYear d) (getMonth d).

(** A count that grows with the date: months of 31 days. *)
Definition Date_rank (d : Date) : Z :=
  (getYear d * 12 + getMonth d) * 31 + getDay d.

(** ** A small world to run the driver in *)

(** Decimal numerals, for the conversions of option answers. *)
Definition digit (ch : Ascii.ascii) : option Z :=
  if Ascii.eqb ch "0"%char then Some 0 else if Ascii.eqb ch "1"%char then Some 1
  else if Ascii.eqb ch "2"%char then Some 2 else if Ascii.eqb ch "3"%char then Some 3
  else if Ascii.eqb ch "4"%char then Some 4 else if Ascii.eqb ch "5"%char then Some 5
  else if Ascii.eqb ch "6"%char then Some 6 else if Ascii.eqb ch "7"%char then Some 7
  else if Ascii.eqb ch "8"%char then Some 8 else if Ascii.eqb ch "9"%char then Some 9
  else None.

Fixpoint digits (s : string) (acc : Z) : option Z :=
  match s with
  | EmptyString => Some acc
  | String ch s =>
    match digit ch with
    | Some d => digits s (10 * acc + d)
    | None => None
    end
  end.

Definition decimal (s : string) : option Z :=
  match s with
  | EmptyString => None
  | _ => digits s 0
  end.

(** Numbers are integers and every formatted number or date reads the
    same.  The engine of a replica is its seed and the
    list of the weather scalars its [SporeGen] calls were given; its
    [SporeSpreadDisp] turns, in every cell, as many susceptible oaks into
    infected oaks as the weather scalar says, as far as there are any. *)
Definition sample_world : World := {|
  double := Z;
  d_of_int := fun z => z;
  d_mul := Z.mul;
  stod := decimal;
  stoul := decimal;
  stoi := decimal;
  G_double_to_basename_format := fun _ _ _ => "0";
  G_get_basename_separator := "_";
  Date_to_string := fun _ => "date";
  Sporulation := Z * list Z;
  Sporulation_new := fun seed _ => (seed, []);
  SporeGen := fun sp _ _ weather_value _ => (sp.1, sp.2 ++ [weather_value]);
  SporeSpreadDisp :=
    fun sp su so iu io _ _ _ weather_value _ _ _ _ _ =>
      (sp,
       (su,
        for_each (fun s => s - Z.min s weather_value) so,
        iu,
        mkImg (getWidth io) (getHeight io) (getWEResolution io)
              (getNSResolution io)
              (zip_with (fun s i => i + Z.min s weather_value)
                        (data so) (data io))))
|}.

(** One-cell maps: 10 canopy hosts, 10 oaks of which 1 is infected, 30
    living trees; a weather file of a single line; no NetCDF file. *)
Definition sample_env : @Env sample_world :=
  @mkEnv sample_world
    (fun name =>
       if String.eqb name "ioaks" then mkImg 1 1 30 30 [1]
       else if String.eqb name "lvtree" then mkImg 1 1 30 30 [30]
       else mkImg 1 1 30 30 [10])
    (fun _ => [(1, 1) : Z * Z])
    (fun _ => @mkNcFile sample_world false (fun _ => None))
    42.

(** The command line [umca=umca oaks=oaks lvtree=lvtree ioaks=ioaks
    output=out wind=NONE start_time=2000 end_time=2000 random_seed=7], with
    the default answers of the other options. *)
Definition sample_options : SodOptions := {|
  opt_umca := "umca"; opt_oaks := "oaks"; opt_lvtree := "lvtree";
  opt_ioaks := "ioaks";
  opt_nc_weather := None; opt_weather_value := None;
  opt_weather_file := None;
  opt_start_time := "2000"; opt_end_time := "2000";
  opt_seasonality := "yes"; opt_spore_rate := "4"; opt_wind := "NONE";
  opt_radial_type := "cauchy"; opt_scale_1 := "20"; opt_scale_2 := None;
  opt_kappa := "2"; opt_gamma := None;
  opt_seed := Some "7"; opt_runs := None; opt_threads := None;
  opt_output := "out"; opt_output_series := None;
  opt_stddev := None; opt_stddev_series := None
|}.

(** What [main] has computed from [sample_options] in [sample_env] when it
    enters the loop. *)
Definition sample_params : @Params sample_world :=
  @mkParams sample_world 1 1 true Dir.NONE 4 CAUCHY 20 0 2 0
            (mkDate 2000 1 1) (mkDate 2000 12 31) 7.

Definition sample_setup : @Setup sample_world :=
  @mkSetup sample_world sample_params (mkImg 1 1 30 30 [30]) 1 1 None []
           None None.

Definition sample_state : @SimState sample_world :=
  @mkSimState sample_world (mkDate 2000 1 1) 0 []
    (mkImg 1 1 30 30 [9]) (mkImg 1 1 30 30 [1]) 1 [] [(7, [])]
    [mkImg 1 1 30 30 [8]] [mkImg 1 1 30 30 [9]]
    [mkImg 1 1 30 30 [2]] [mkImg 1 1 30 30 [1]] [] [].

(** [sample_options] with [weather_file=weather.txt seasonality=no]; the
    file has one line and the year 53 weekly steps. *)
Definition weather_file_options : SodOptions := {|
  opt_umca := "umca"; opt_oaks := "oaks"; opt_lvtree := "lvtree";
  opt_ioaks := "ioaks";
  opt_nc_weather := None; opt_weather_value := None;
  opt_weather_file := Some "weather.txt";
  opt_start_time := "2000"; opt_end_time := "2000";
  opt_seasonality := "no"; opt_spore_rate := "4"; opt_wind := "NONE";
  opt_radial_type := "cauchy"; opt_scale_1 := "20"; opt_scale_2 := None;
  opt_kappa := "2"; opt_gamma := None;
  opt_seed := Some "7"; opt_runs := None; opt_threads := None;
  opt_output := "out"; opt_output_series := None;
  opt_stddev := None; opt_stddev_series := None
|}.

(** [sample_options] with [radial_type=cauchy_mix scale_2=30] and no
    [gamma]. *)
Definition mixture_options : SodOptions := {|
  opt_umca := "umca"; opt_oaks := "oaks"; opt_lvtree := "lvtree";
  opt_ioaks := "ioaks";
  opt_nc_weather := None; opt_weather_value := None;
  opt_weather_file := None;
  opt_start_time := "2000"; opt_end_time := "2000";
  opt_seasonality := "yes"; opt_spore_rate := "4"; opt_wind := "NONE";
  opt_radial_type := "cauchy_mix"; opt_scale_1 := "20";
  opt_scale_2 := Some "30";
  opt_kappa := "2"; opt_gamma := None;
  opt_seed := Some "7"; opt_runs := None; opt_threads := None;
  opt_output := "out"; opt_output_series := None;
  opt_stddev := None; opt_stddev_series := None
|}.

(** Two replicas on four threads, a weather list of the scalars 1 and 3,
    and two pending weeks: the state of a batch. *)
Definition race_params : @Params sample_world :=
  @mkParams sample_world 2 4 false Dir.NONE 4 CAUCHY 20 0 2 0
            (mkDate 2000 1 1) (mkDate 2000 12 31) 7.

Definition race_setup : @Setup sample_world :=
  @mkSetup sample_world race_params (mkImg 1 1 30 30 [30]) 1 1 None [1; 3]
           None None.

Definition race_state : @SimState sample_world :=
  @mkSimState sample_world (mkDate 2000 1 8) 1 [0; 1]%nat
    (mkImg 1 1 30 30 [9]) (mkImg 1 1 30 30 [1]) 0 [] [(7, []); (8, [])]
    [mkImg 1 1 30 30 [8]; mkImg 1 1 30 30 [8]]
    [mkImg 1 1 30 30 [9]; mkImg 1 1 30 30 [9]]
    [mkImg 1 1 30 30 [2]; mkImg 1 1 30 30 [2]]
    [mkImg 1 1 30 30 [1]; mkImg 1 1 30 30 [1]] [] [].

(** Replica 0 stores the scalar of week 0; replica 1 runs through week 0
    and stores the scalar of week 1; then replica 0 calls the engine. *)
Definition overtaking_schedule : list nat :=
  [0; 1; 1; 1; 1; 0; 0; 0; 0; 0; 1; 1]%nat.

(** The engine calls of the batch, replica after replica, and with replica
    1 overtaking. *)
Definition calls_in_turn : list (@Call sample_world) :=
  [@SporeGen_call sample_world 0 0 1; @SporeSpreadDisp_call sample_world 0 0 1;
   @SporeGen_call sample_world 0 1 3; @SporeSpreadDisp_call sample_world 0 1 3;
   @SporeGen_call sample_world 1 0 1; @SporeSpreadDisp_call sample_world 1 0 1;
   @SporeGen_call sample_world 1 1 3; @SporeSpreadDisp_call sample_world 1 1 3].

Definition calls_overtaking : list (@Call sample_world) :=
  [@SporeGen_call sample_world 1 0 1; @SporeSpreadDisp_call sample_world 1 0 1;
   @SporeGen_call sample_world 0 0 3; @SporeSpreadDisp_call sample_world 0 0 3;
   @SporeGen_call sample_world 0 1 3; @SporeSpreadDisp_call sample_world 0 1 3;
   @SporeGen_call sample_world 1 1 3; @SporeSpreadDisp_call sample_world 1 1 3].

(** The state after the batch: replica 0 with the scalars [log0] seen by
    its engine and [so0] susceptible and [io0] infected oaks; replica 1
    with the scalars 1 and 3 and 5 oaks of each kind. *)
Definition race_result (log0 : list Z) (so0 io0 : Z) : @SimState sample_world :=
  @mkSimState sample_world (mkDate 2000 1 8) 1 [0; 1]%nat
    (mkImg 1 1 30 30 [9]) (mkImg 1 1 30 30 [1]) 3 []
    [(7, log0); (8, [1; 3])]
    [mkImg 1 1 30 30 [8]; mkImg 1 1 30 30 [8]]
    [mkImg 1 1 30 30 [so0]; mkImg 1 1 30 30 [5]]
    [mkImg 1 1 30 30 [2]; mkImg 1 1 30 30 [2]]
    [mkImg 1 1 30 30 [io0]; mkImg 1 1 30 30 [5]] [] [].

(** ** Notions for the further properties *)

(** The variables of [main] other than the engines, the four grid vectors
    of the replicas and [weather_value]. *)
Definition outside_replicas {W : World} (st : SimState) :=
  (dd_start st, current_week st, unresolved_weeks st, S_oaks_rast st,
   I_oaks_rast st, weather st, cerr st, grass_rasters st).

(** The sizes of the five vectors that hold one entry per replica. *)
Definition replica_count {W : World} (st : SimState)
  : nat * nat * nat * nat * nat :=
  (length (sporulations st), length (sus_umca_rasts st),
   length (sus_oaks_rasts st), length (inf_umca_rasts st),
   length (inf_oaks_rasts st)).

(** Every vector holds [n] entries. *)
Definition replicas_are {W : World} (n : nat) (st : SimState) : Prop :=
  replica_count st = (n, n, n, n, n).

(** [sample_options] with the start year after the end year. *)
Definition backwards_options : SodOptions := {|
  opt_umca := "umca"; opt_oaks := "oaks"; opt_lvtree := "lvtree";
  opt_ioaks := "ioaks";
  opt_nc_weather := None; opt_weather_value := None;
  opt_weather_file := None;
  opt_start_time := "2001"; opt_end_time := "2000";
  opt_seasonality := "yes"; opt_spore_rate := "4"; opt_wind := "NONE";
  opt_radial_type := "cauchy"; opt_scale_1 := "20"; opt_scale_2 := None;
  opt_kappa := "2"; opt_gamma := None;
  opt_seed := Some "7"; opt_runs := None; opt_threads := None;
  opt_output := "out"; opt_output_series := None;
  opt_stddev := None; opt_stddev_series := None
|}.

(** A NetCDF variable of two records; record [step] holds the value
    [step + 1] in every cell. *)
Definition sample_ncvar : @NcVar sample_world :=
  @mkNcVar sample_world
    (fun step => (step <? 2)%nat)
    (fun step _ h w =>
       if (step <? 2)%nat then Some (replicate (h * w) (Z.of_nat step + 1))
       else None).

(** What an outcome satisfies: [ok] if it is a result, [aborts] if it is an
    abort, [undef] if it is an unchecked read. *)
Definition outcome_sat {A : Type} (ok : A -> Prop) (aborts : Abort -> Prop)
  (undef : nat -> nat -> Prop) (o : Outcome A) : Prop :=
  match o with
  | Ok a => ok a
  | Aborted e => aborts e
  | Undefined i n => undef i n
  end.

(** The engine and the four grids of replica [r], where they exist. *)
Definition replica_entry {W : World} (st : SimState) (r : nat) :=
  (sporulations st !! r, sus_umca_rasts st !! r, sus_oaks_rasts st !! r,
   inf_umca_rasts st !! r, inf_oaks_rasts st !! r).

(** The variables of [main] that a pass of the loop body leaves alone
    unless it [break]s on infected oaks, with the sizes of the vectors. *)
Definition kept {W : World} (st : SimState) :=
  (dd_start st, current_week st, S_oaks_rast st, replica_count st).

(** The names of the maps of the two series for the date [d]. *)
Definition series_names {W : World} (c : Setup) (d : Date) : list string :=
  match output_series c with
  | Some basename => [generate_name basename d]
  | None => []
  end ++
  match stddev_series c with
  | Some basename => [generate_name basename d]
  | None => []
  end.

(** The test that guards the batch and the series output, of a date and
    of a state. *)
Definition flush_date {W : World} (c : Setup) (d : Date) : bool :=
  isYearEnd d || Date_ge d (dd_end (params c)).

Definition flush_due {W : World} (c : Setup) (st : SimState) : bool :=
  flush_date c (dd_start st).

(** The date [n] weeks after [d]. *)
Definition weeks_after (n : nat) (d : Date) : Date :=
  Nat.iter n increasedByWeek d.

(** The queue holds week numbers in increasing order, all of them before
    the current week. *)
Definition pending_ordered {W : World} (st : SimState) : Prop :=
  (forall i j wi wj,
     unresolved_weeks st !! i = Some wi ->
     unresolved_weeks st !! j = Some wj -> (i < j)%nat -> (wi < wj)%nat) /\
  Forall (fun week => (week < current_week st)%nat) (unresolved_weeks st).

(** The days of the first [m] months of a year. *)
Fixpoint days_before (leap : bool) (m : nat) : Z :=
  match m with
  | O => 0
  | Datatypes.S k => days_before leap k + day_in_month leap (Z.of_nat m)
  end.

(** The number of a date's day in its year, from 1. *)
Definition day_of_year (d : Date) : Z :=
  days_before (isLeapYear d) (Z.to_nat (getMonth d - 1)) + getDay d.

(** The queue holds no more weeks than the year has had when the date is
    reached. *)
Definition within_year {W : World} (st : SimState) : Prop :=
  Date_valid (dd_start st) /\
  7 * Z.of_nat (length (unresolved_weeks st)) <= day_of_year (dd_start st) - 1.

(** Two pending weeks in a state whose week counter has passed them. *)
Definition queued_state : @SimState sample_world := next_week race_state.

(** An outcome that is no unchecked read. *)
Definition checked {A : Type} (o : Outcome A) : Prop :=
  outcome_sat (fun _ => True) (fun _ => True) (fun _ _ => False) o.

(** A read at [i] past the end of the per-week weather list, of [n]
    scalars, where the list is the weather source. *)
Definition unchecked_weather_read {W : World} (c : Setup) (i n : nat) : Prop :=
  weather_coeff c = None /\ weather_values c <> [] /\
  n = length (weather_values c) /\ (n <= i)%nat.

(** *** A replica on its own *)

(** The engine and the four grids of one replica. *)
Definition Entry {W : World} : Type := Sporulation * Img * Img * Img * Img.

Definition some_entry {W : World} (e : Entry) :=
  let '(sp, su, so, iu, io) := e in
  (Some sp, Some su, Some so, Some iu, Some io).

(** The slice of the weather buffer for the [k]-th pending week. *)
Definition week_weather_of {W : World} (c : Setup) (buf : list double)
  (k : nat) : list double :=
  take (width c * height c) (drop (k * width c * height c) buf).

(** The two engine calls of a week as they change a replica, given the
    weather buffer and the weather scalar. *)
Definition gen_entry {W : World} (c : Setup) (buf : list double) (v : double)
  (k : nat) (e : Entry) : Entry :=
  let '(sp, su, so, iu, io) := e in
  (SporeGen sp iu (week_weather_of c buf k) v (spore_rate (params c)),
   su, so, iu, io).

Definition spread_entry {W : World} (c : Setup) (buf : list double)
  (v : double) (k : nat) (e : Entry) : Entry :=
  let '(sp, su, so, iu, io) := e in
  let r := SporeSpreadDisp sp su so iu io (lvtree_rast c) (rtype (params c))
             (week_weather_of c buf k) v (scale1 (params c))
             (kappa (params c)) (pwdir (params c)) (scale2 (params c))
             (gamma (params c)) in
  let '(su', so', iu', io') := r.2 in
  (r.1, su', so', iu', io').

(** A replica after its first [n] pending weeks. *)
Fixpoint weeks_entry {W : World} (c : Setup) (buf : list double) (v : double)
  (n : nat) (e : Entry) : Entry :=
  match n with
  | O => e
  | Datatypes.S k =>
    spread_entry c buf v k (gen_entry c buf v k (weeks_entry c buf v k e))
  end.

(** A replica where its progress says it is. *)
Definition expected {W : World} (c : Setup) (st : SimState) (pr : Progress)
  (e : Entry) : Entry :=
  let done := weeks_entry c (weather st) (weather_value st)
                          (week_in_chunk pr) e in
  match phase pr with
  | AtSpread =>
    gen_entry c (weather st) (weather_value st) (week_in_chunk pr) done
  | _ => done
  end.

Definition progress_ok (weeks : nat) (pr : Progress) : Prop :=
  (week_in_chunk pr + length (weeks_left pr) = weeks)%nat /\
  (weeks_left pr = [] -> phase pr = AtWeather).

(** What holds of the replicas at every point of an interleaved batch that
    started in [st], when the weather scalar is not read from the list. *)
Definition batch_inv {W : World} (c : Setup) (st : SimState)
  (prs : list Progress) (s : SimState) : Prop :=
  outside_replicas s = outside_replicas st /\
  weather_value s = weather_value st /\
  replica_count s = replica_count st /\
  length prs = num_runs (params c) /\
  forall r pr, prs !! r = Some pr ->
    progress_ok (length (unresolved_weeks st)) pr /\
    exists e0, replica_entry st r = some_entry e0 /\
               replica_entry s r = some_entry (expected c st pr e0).

(** [race_setup] without the weather list. *)
Definition calm_setup : @Setup sample_world :=
  @mkSetup sample_world race_params (mkImg 1 1 30 30 [30]) 1 1 None []
           None None.

(** [race_state] with the weather scalar 2. *)
Definition calm_state : @SimState sample_world :=
  @with_weather_value sample_world 2 race_state.

Definition calm_result : @SimState sample_world :=
  Eval vm_compute in
    match run_replicas calm_setup calm_state with
    | Ok s => s
    | _ => calm_state
    end.

Definition calm_calls : list (@Call sample_world) :=
  Eval vm_compute in
    match run_replicas_omp calm_setup overtaking_schedule calm_state with
    | Ok (Some r) => r.2
    | _ => []
    end.

(** *** The maps written *)

(** The names of the series maps written in the pass of week [k] of a loop
    that started at the date [start], and in the first [n] passes. *)
Definition maps_of_week {W : World} (c : Setup) (start : Date) (k : nat)
  : list string :=
  if flush_date c (weeks_after k start)
  then series_names c (weeks_after k start) else [].

Definition series_maps {W : World} (c : Setup) (start : Date) (n : nat)
  : list string :=
  concat (maps_of_week c start <$> seq 0 n).

(** [sample_options] with [output_series=series stddev=sd]. *)
Definition series_options : SodOptions := {|
  opt_umca := "umca"; opt_oaks := "oaks"; opt_lvtree := "lvtree";
  opt_ioaks := "ioaks";
  opt_nc_weather := None; opt_weather_value := None;
  opt_weather_file := None;
  opt_start_time := "2000"; opt_end_time := "2000";
  opt_seasonality := "yes"; opt_spore_rate := "4"; opt_wind := "NONE";
  opt_radial_type := "cauchy"; opt_scale_1 := "20"; opt_scale_2 := None;
  opt_kappa := "2"; opt_gamma := None;
  opt_seed := Some "7"; opt_runs := None; opt_threads := None;
  opt_output := "out"; opt_output_series := Some "series";
  opt_stddev := Some "sd"; opt_stddev_series := None
|}.

Definition series_setup : @Setup sample_world :=
  @mkSetup sample_world sample_params (mkImg 1 1 30 30 [30]) 1 1 None []
           (Some "series") None.

Definition series_final : @SimState sample_world :=
  Eval vm_compute in
    match @main sample_world sample_env series_options with
    | Ok (Some s) => s
    | _ => sample_state
    end.

(** *** A batch with weather from a coefficient file *)

(** Maps of two rows and one column, the two-record variable for both
    coefficients, two pending weeks and a zeroed buffer of two slots. *)
Definition nc_setup : @Setup sample_world :=
  @mkSetup sample_world race_params (mkImg 1 2 30 30 [30; 30]) 1 2
           (Some (sample_ncvar, sample_ncvar)) [] None None.

Definition nc_state : @SimState sample_world :=
  @with_weather sample_world [0; 0; 0; 0] race_state.

Definition nc_fetched : @SimState sample_world :=
  Eval vm_compute in
    match fetch_weather nc_setup nc_state with
    | Ok s => s
    | _ => nc_state
    end.

(** The maps [main] reads are grids, and the loop of [initialize] reads
    inside them: if the widths of the canopy-host map and the
    infected-oak map agree, the infected-oak map has at least the rows of
    the canopy-host map. *)
Definition maps_in_range {W : World} (env : Env) (opt : SodOptions) : Prop :=
  let umca := fromGrassRaster env (opt_umca opt) in
  let oaks := fromGrassRaster env (opt_oaks opt) in
  let ioaks := fromGrassRaster env (opt_ioaks opt) in
  Img_wf umca /\ Img_wf oaks /\ Img_wf ioaks /\
  (getWidth umca = getWidth ioaks -> (getHeight umca <= getHeight ioaks)%nat).

(** * Properties *)

(** ** Proof automation *)

(** Case analysis on the integer comparisons of the goal. *)
Ltac zbool :=
  repeat match goal with
  | |- context [?a >? ?b] => destruct (Z.gtb_spec a b)
  | |- context [?a <? ?b] => destruct (Z.ltb_spec a b)
  | |- context [?a =? ?b] => destruct (Z.eqb_spec a b)
  end.

(** Inversion of a sequence of fallible steps that ended well. *)
Ltac bind_inv H :=
  repeat match type of H with
  | bind ?m _ = Ok _ =>
    let E := fresh "E" in
    destruct m eqn:E; cbn [bind] in H; [|discriminate H|discriminate H]
  end.

Ltac binds :=
  repeat match goal with
  | H : bind _ _ = Ok _ |- _ => bind_inv H
  | H : Ok _ = Ok _ |- _ => injection H as <-
  end.

(** ** [int] arithmetic *)

Lemma wrap_int_id z : int_min <= z <= int_max -> wrap_int z = z.
Proof.
  unfold wrap_int, int_min, int_max. intros H. rewrite Z.mod_small; lia.
Qed.

Lemma wrap_int_range z : int_min <= wrap_int z <= int_max.
Proof.
  unfold wrap_int, int_min, int_max.
  pose proof (Z.mod_pos_bound (z + 2 ^ 31) (2 ^ 32)). lia.
Qed.

(** A sum of non-negative numbers that fits in an [int] is accumulated
    exactly. *)
Lemma wrapped_sum_nonneg (a : Z) (xs : list Z) :
  0 <= a -> Forall (fun x => 0 <= x) xs ->
  a + foldr Z.add 0 xs <= int_max ->
  wrapped_sum a xs = a + foldr Z.add 0 xs.
Proof.
  intros Ha Hxs. revert a Ha.
  induction Hxs as [|x xs Hx Hxs IH]; intros a Ha Hsum; simpl in *; [lia|].
  assert (0 <= foldr Z.add 0 xs) as Hrest.
  { clear -Hxs. induction Hxs; simpl; lia. }
  unfold wrapped_sum in *. simpl.
  rewrite wrap_int_id by (unfold int_min, int_max in *; lia).
  rewrite IH by lia. lia.
Qed.

(** So is a sum of [n] numbers between [lo] and [hi] when [n * lo] and
    [n * hi] fit. *)
Lemma wrapped_sum_bounded (lo hi a : Z) (xs : list Z) :
  lo <= 0 <= hi -> Forall (fun x => lo <= x <= hi) xs ->
  int_min <= a + Z.of_nat (length xs) * lo ->
  a + Z.of_nat (length xs) * hi <= int_max ->
  wrapped_sum a xs = a + foldr Z.add 0 xs.
Proof.
  intros Hlh Hxs. revert a.
  induction Hxs as [|x xs Hx Hxs IH]; intros a Hlo Hhi; simpl in *; [lia|].
  unfold wrapped_sum in *. simpl.
  rewrite wrap_int_id by nia.
  rewrite IH by nia. lia.
Qed.

(** ** Grids *)

(** A row of assignments [out(i, j) = f j], for [j] below [n]. *)
Lemma fill_row_spec (f : nat -> Z) (i n : nat) (out : Img) :
  let out' := foldl (fun o j => Img_set o i j (f j)) out (seq 0 n) in
  getWidth out' = getWidth out /\ getHeight out' = getHeight out /\
  getWEResolution out' = getWEResolution out /\
  getNSResolution out' = getNSResolution out /\
  length (data out') = length (data out) /\
  (forall j, (j < n)%nat -> (i * getWidth out + j < length (data out))%nat ->
     data out' !! (i * getWidth out + j)%nat = Some (f j)) /\
  (forall k, ~ (i * getWidth out <= k < i * getWidth out + n)%nat ->
     data out' !! k = data out !! k).
Proof.
  cbv zeta. induction n as [|n IH].
  - simpl. repeat split; try done. intros; lia.
  - rewrite seq_S, foldl_app. simpl.
    destruct IH as (Hw & Hh & Hwe & Hns & Hlen & Hin & Hout).
    set (o := foldl _ out (seq 0 n)) in *.
    repeat split; simpl; try done.
    + by rewrite length_insert.
    + intros j Hj Hl. rewrite Hw.
      destruct (decide (j = n)) as [->|Hne].
      * apply list_lookup_insert_eq. lia.
      * rewrite list_lookup_insert_ne by lia. apply Hin; lia.
    + intros k Hk. rewrite Hw.
      rewrite list_lookup_insert_ne by lia. apply Hout. lia.
Qed.

(** The two nested loops that assign [out(i, j) = f i j] to every cell of
    the first [n] rows. *)
Lemma fill_rows_spec (f : nat -> nat -> Z) (n : nat) (out : Img) :
  let out' :=
    foldl (fun o i => foldl (fun o j => Img_set o i j (f i j)) o
                            (seq 0 (getWidth out)))
          out (seq 0 n) in
  getWidth out' = getWidth out /\ getHeight out' = getHeight out /\
  getWEResolution out' = getWEResolution out /\
  getNSResolution out' = getNSResolution out /\
  length (data out') = length (data out) /\
  (forall i j, (j < getWidth out)%nat ->
     (i * getWidth out + j < length (data out))%nat ->
     data out' !! (i * getWidth out + j)%nat =
       if decide (i < n)%nat then Some (f i j)
       else data out !! (i * getWidth out + j)%nat).
Proof.
  cbv zeta. induction n as [|n IH].
  - simpl. repeat split; try done.
  - rewrite seq_S, foldl_app. simpl.
    destruct IH as (Hw & Hh & Hwe & Hns & Hlen & Hcell).
    set (o := foldl _ out (seq 0 n)) in *.
    destruct (fill_row_spec (f n) n (getWidth out) o)
      as (Hw' & Hh' & Hwe' & Hns' & Hlen' & Hin & Hout).
    cbv zeta in *.
    set (o' := foldl _ o (seq 0 (getWidth out))) in *.
    repeat split; try congruence.
    intros i j Hj Hl.
    destruct (decide (i = n)) as [->|Hne].
    + rewrite decide_True by lia. rewrite <- Hw. apply Hin; rewrite ?Hw; lia.
    + rewrite Hout by (rewrite Hw; nia).
      rewrite Hcell by done.
      destruct (decide (i < n)%nat), (decide (i < Datatypes.S n)%nat);
        try done; lia.
Qed.

(** ** [initialize] *)

(** The value the loop body of [initialize] assigns to cell [(i, j)]. *)
Lemma initialize_body img1 img2 out i j :
  (if Img_at img2 i j >? 0 then
     if Img_at img1 i j >? Img_at img2 i j then
       Img_set out i j
         (if Img_at img1 i j <? wrap_int (Img_at img2 i j * 2)
          then Img_at img1 i j else wrap_int (Img_at img2 i j * 2))
     else Img_set out i j (Img_at img1 i j)
   else Img_set out i j 0)
  = Img_set out i j
      (if Img_at img2 i j >? 0 then
         if Img_at img1 i j >? Img_at img2 i j then
           if Img_at img1 i j <? wrap_int (Img_at img2 i j * 2)
           then Img_at img1 i j else wrap_int (Img_at img2 i j * 2)
         else Img_at img1 i j
       else 0).
Proof. by repeat case_match. Qed.

Lemma foldl_ext_seq {A : Type} (f g : A -> nat -> A) (l : list nat) (a : A) :
  (forall a x, f a x = g a x) -> foldl f a l = foldl g a l.
Proof.
  intros Hfg. revert a. induction l as [|x l IH]; intros a; simpl; [done|].
  by rewrite Hfg, IH.
Qed.

(** A width mismatch is reported and the empty grid returned. *)
Lemma initialize_width_mismatch img1 img2 :
  getWidth img1 <> getWidth img2 ->
  initialize img1 img2 = ([shape_msg], Img_default).
Proof.
  intros Hw. unfold initialize.
  destruct (Nat.eqb_spec (getWidth img1) (getWidth img2)); [done|].
  reflexivity.
Qed.

(** With equal widths nothing is reported, and the result has the shape of
    the first grid and, in every cell of it, the value of the loop body. *)
Lemma initialize_same_width img1 img2 :
  getWidth img1 = getWidth img2 ->
  let out := (initialize img1 img2).2 in
  (initialize img1 img2).1 = [] /\
  getWidth out = getWidth img1 /\ getHeight out = getHeight img1 /\
  getWEResolution out = getWEResolution img1 /\
  getNSResolution out = getNSResolution img1 /\
  length (data out) = (getHeight img1 * getWidth img1)%nat /\
  forall i j, (i < getHeight img1)%nat -> (j < getWidth img1)%nat ->
    Img_at out i j =
      if Img_at img2 i j >? 0 then
        if Img_at img1 i j >? Img_at img2 i j then
          if Img_at img1 i j <? wrap_int (Img_at img2 i j * 2)
          then Img_at img1 i j else wrap_int (Img_at img2 i j * 2)
        else Img_at img1 i j
      else 0.
Proof.
  intros Hw. unfold initialize.
  rewrite Hw, !Nat.eqb_refl. simpl. rewrite <- Hw.
  erewrite foldl_ext_seq; last first.
  { intros a x. apply foldl_ext_seq. intros a' y. apply initialize_body. }
  set (o := Img_new _ _ _ _).
  pose proof (fill_rows_spec
    (fun i j =>
       if Img_at img2 i j >? 0 then
         if Img_at img1 i j >? Img_at img2 i j then
           if Img_at img1 i j <? wrap_int (Img_at img2 i j * 2)
           then Img_at img1 i j else wrap_int (Img_at img2 i j * 2)
         else Img_at img1 i j
       else 0) (getHeight img1) o) as Hfill.
  cbv zeta in Hfill. change (getWidth o) with (getWidth img1) in Hfill.
  destruct Hfill as (Hw' & Hh' & Hwe & Hns & Hlen & Hcell).
  assert (length (data o) = (getHeight img1 * getWidth img1)%nat) as Hlo
    by apply length_replicate.
  repeat split; try done; try congruence.
  intros i j Hi Hj. unfold Img_at at 1. rewrite Hw'.
  rewrite Hcell by (rewrite ?Hlo; nia).
  by rewrite decide_True by done.
Qed.

Lemma same_shape_spec a b :
  same_shape a b = true <->
  getWidth a = getWidth b /\ getHeight a = getHeight b /\
  getWEResolution a = getWEResolution b /\
  getNSResolution a = getNSResolution b.
Proof.
  unfold same_shape. rewrite !andb_true_iff, !Nat.eqb_eq, !Z.eqb_eq. tauto.
Qed.

Lemma same_shape_refl a : same_shape a a = true.
Proof. by apply same_shape_spec. Qed.

(** A cell of an elementwise combination. *)
Lemma Img_zip_at f a b c i j :
  Img_zip f a b = Ok c ->
  (i * getWidth a + j < length (data a))%nat ->
  (i * getWidth a + j < length (data b))%nat ->
  Img_at c i j = wrap_int (f (Img_at a i j) (Img_at b i j)).
Proof.
  unfold Img_zip. destruct (same_shape a b) eqn:Hs; [|done].
  apply same_shape_spec in Hs as (Hw & _).
  intros [= <-] Ha Hb. unfold Img_at. simpl. rewrite <- Hw.
  rewrite lookup_zip_with.
  destruct (lookup_lt_is_Some_2 _ _ Ha) as [x ->].
  destruct (lookup_lt_is_Some_2 _ _ Hb) as [y ->]. done.
Qed.

(** C10, as the code has it: for two grids of equal dimensions holding
    counts, of which the canopy count and twice the infected-oak count fit
    in an [int], every cell of the grid [initialize] returns is 0 where
    there is no infected oak, the smaller of the canopy count and twice the
    infected-oak count where the canopy count exceeds the infected-oak
    count, and the canopy count otherwise; it never exceeds the canopy
    count, and the susceptible grid [umca_rast - I_umca_rast] that [main]
    derives from it is defined and non-negative in every cell. *)
Theorem initialize_cells (img1 img2 : Img) :
  getWidth img1 = getWidth img2 ->
  getHeight img1 = getHeight img2 ->
  Img_wf img1 -> Img_wf img2 ->
  (forall i j, (i < getHeight img1)%nat -> (j < getWidth img1)%nat ->
     0 <= Img_at img1 i j <= int_max /\
     0 <= Img_at img2 i j /\ Img_at img2 i j * 2 <= int_max) ->
  (initialize img1 img2).1 = [] /\
  exists S_umca_rast,
    Img_minus img1 (initialize img1 img2).2 = Ok S_umca_rast /\
    forall i j, (i < getHeight img1)%nat -> (j < getWidth img1)%nat ->
      Img_at (initialize img1 img2).2 i j
        = initial_infected_spec (Img_at img1 i j) (Img_at img2 i j) /\
      Img_at (initialize img1 img2).2 i j <= Img_at img1 i j /\
      0 <= Img_at S_umca_rast i j.
Proof.
  intros Hw Hh Hwf1 Hwf2 Hpos.
  destruct (initialize_same_width img1 img2 Hw)
    as (Hcerr & Hw' & Hh' & Hwe & Hns & Hlen & Hcell).
  cbv zeta in *. set (out := (initialize img1 img2).2) in *.
  split; [done|].
  assert (same_shape img1 out = true) as Hs by (by apply same_shape_spec).
  assert (exists S, Img_minus img1 out = Ok S) as [S HS].
  { unfold Img_minus, Img_zip. rewrite Hs. eauto. }
  exists S. split; [done|].
  intros i j Hi Hj.
  destruct (Hpos i j Hi Hj) as (H1 & H2 & H3).
  assert (Img_at out i j
          = initial_infected_spec (Img_at img1 i j) (Img_at img2 i j)
          /\ 0 <= Img_at out i j <= Img_at img1 i j) as [Heq Hle].
  { rewrite (Hcell i j Hi Hj). unfold initial_infected_spec.
    rewrite wrap_int_id by (unfold int_min; lia).
    zbool; lia. }
  repeat split; try done; [lia|].
  unfold Img_wf in Hwf1.
  rewrite (Img_zip_at Z.sub img1 out S i j HS) by (rewrite ?Hlen, ?Hwf1; nia).
  rewrite wrap_int_id by (unfold int_min; lia). lia.
Qed.

Lemma initialize_cells_witness :
  (initialize (mkImg 2 1 30 30 [5; 1]) (mkImg 2 1 30 30 [2; 3])).1 = [] /\
  exists S_umca_rast,
    Img_minus (mkImg 2 1 30 30 [5; 1])
      (initialize (mkImg 2 1 30 30 [5; 1]) (mkImg 2 1 30 30 [2; 3])).2
    = Ok S_umca_rast /\
    forall i j, (i < 1)%nat -> (j < 2)%nat ->
      Img_at (initialize (mkImg 2 1 30 30 [5; 1]) (mkImg 2 1 30 30 [2; 3])).2
             i j
        = initial_infected_spec (Img_at (mkImg 2 1 30 30 [5; 1]) i j)
                                (Img_at (mkImg 2 1 30 30 [2; 3]) i j) /\
      Img_at (initialize (mkImg 2 1 30 30 [5; 1]) (mkImg 2 1 30 30 [2; 3])).2
             i j
        <= Img_at (mkImg 2 1 30 30 [5; 1]) i j /\
      0 <= Img_at S_umca_rast i j.
Proof.
  apply (initialize_cells (mkImg 2 1 30 30 [5; 1]) (mkImg 2 1 30 30 [2; 3]));
    try reflexivity.
  intros i j Hi Hj. simpl in Hi, Hj.
  destruct i as [|i]; [|lia].
  destruct j as [|[|j]]; [| |lia]; vm_compute; repeat split; discriminate.
Defined.

(** C10, as the specification words it, fails where twice the infected-oak
    count does not fit in an [int]: for 2000000000 canopy hosts and
    1500000000 infected oaks in a cell the specification gives 2000000000
    infected canopy hosts; the program computes [1500000000 * 2] on [int],
    stores -1294967296, and the susceptible grid derived from it is
    negative in the cell. *)
Lemma initialize_overflows_int :
  getWidth canopy_2e9 = getWidth infected_15e8 /\
  getHeight canopy_2e9 = getHeight infected_15e8 /\
  int_max < Img_at infected_15e8 0 0 * 2 /\
  initial_infected_spec (Img_at canopy_2e9 0 0) (Img_at infected_15e8 0 0)
  = 2000000000 /\
  Img_at (initialize canopy_2e9 infected_15e8).2 0 0 = -1294967296 /\
  Img_at (initialize canopy_2e9 infected_15e8).2 0 0
  <> initial_infected_spec (Img_at canopy_2e9 0 0) (Img_at infected_15e8 0 0)
  /\
  Img_minus canopy_2e9 (initialize canopy_2e9 infected_15e8).2
  = Ok (mkImg 1 1 30 30 [-1000000000]).
Proof.
  repeat split; try (vm_compute; reflexivity).
  vm_compute. intros H. discriminate H.
Qed.

(** C4, at two grids of equal width and different heights: [initialize]
    reports nothing and returns a combined grid. *)
Theorem initialize_height_mismatch_unreported :
  getHeight (mkImg 1 1 30 30 [5]) <> getHeight (mkImg 1 2 30 30 [1; 0]) /\
  initialize (mkImg 1 1 30 30 [5]) (mkImg 1 2 30 30 [1; 0])
  = ([], mkImg 1 1 30 30 [2]).
Proof. split; [discriminate | reflexivity]. Qed.

(** The guard of [initialize] never looks at the height of the first
    grid: whenever the widths agree, nothing is reported. *)
Lemma initialize_ignores_height img1 img2 :
  getWidth img1 = getWidth img2 -> (initialize img1 img2).1 = [].
Proof. intros Hw. apply (initialize_same_width img1 img2 Hw). Qed.

(** ** Aggregation *)

Lemma for_loop_ext {A B : Type} (f g : A -> B -> Outcome A) a l :
  (forall a b, f a b = g a b) -> for_loop f a l = for_loop g a l.
Proof.
  intros Hfg. revert a. induction l as [|b l IH]; intros a; simpl; [done|].
  rewrite Hfg. destruct (g a b); simpl; auto.
Qed.

(** A loop over the indices of a vector is a loop over its elements. *)
Lemma for_loop_vector {A B : Type} (F : A -> B -> Outcome A) (l pre : list B) a :
  for_loop (fun acc i => let* r := vector_at (pre ++ l) i in F acc r) a
           (seq (length pre) (length l))
  = for_loop F a l.
Proof.
  revert pre a. induction l as [|x l IH]; intros pre a; simpl; [done|].
  unfold vector_at at 1. rewrite list_lookup_middle by done. simpl.
  destruct (F a x) as [a'| |]; simpl; try done.
  specialize (IH (pre ++ [x]) a').
  rewrite <- app_assoc, length_app in IH. simpl in IH.
  by rewrite Nat.add_1_r in IH.
Qed.

Lemma for_loop_vector0 {A B : Type} (F : A -> B -> Outcome A) (l : list B) a :
  for_loop (fun acc i => let* r := vector_at l i in F acc r) a
           (seq 0 (length l))
  = for_loop F a l.
Proof. apply (for_loop_vector F l []). Qed.

Lemma like_refl a : like a a.
Proof. split; [apply same_shape_refl | done]. Qed.

Lemma Img_zip_like f a b :
  like a b ->
  exists c, Img_zip f a b = Ok c /\ like a c /\
    forall k, (k < length (data a))%nat ->
      data c !! k
      = Some (wrap_int (f (default 0 (data a !! k)) (default 0 (data b !! k)))).
Proof.
  intros [Hs Hl]. unfold Img_zip. rewrite Hs. eexists; split; [done|].
  split.
  - split; [by apply same_shape_spec | simpl].
    rewrite length_zip_with. lia.
  - intros k Hk. simpl. rewrite lookup_zip_with.
    destruct (lookup_lt_is_Some_2 (data a) k Hk) as [x ->].
    destruct (lookup_lt_is_Some_2 (data b) k) as [y ->]; [lia|]. done.
Qed.

Lemma like_trans a b c : like a b -> like b c -> like a c.
Proof.
  intros [H1 L1] [H2 L2]. split; [|congruence].
  apply same_shape_spec in H1, H2. apply same_shape_spec.
  destruct H1 as (?&?&?&?), H2 as (?&?&?&?). repeat split; congruence.
Qed.

Lemma like_sym a b : like a b -> like b a.
Proof.
  intros [H1 L1]. split; [|congruence].
  apply same_shape_spec in H1. apply same_shape_spec.
  destruct H1 as (?&?&?&?). repeat split; congruence.
Qed.

(** A loop that adds to [acc], for every replica [r], a grid [G r] whose
    cell [k] is [gk r k]: the result holds the sums, accumulated as
    [int]s. *)
Lemma sum_loop (G : Img -> Outcome Img) (gk : Img -> nat -> Z) l acc :
  (forall r, r ∈ l -> exists x, G r = Ok x /\ like acc x /\
     forall k, (k < length (data acc))%nat -> data x !! k = Some (gk r k)) ->
  exists s,
    for_loop (fun a r => let* x := G r in Img_plus_assign a x) acc l = Ok s /\
    like acc s /\
    forall k, (k < length (data acc))%nat ->
      data s !! k
      = Some (wrapped_sum (default 0 (data acc !! k))
                          ((fun r => gk r k) <$> l)).
Proof.
  revert acc. induction l as [|r l IH]; intros acc Hl; simpl.
  - exists acc. split; [done|]. split; [apply like_refl|].
    intros k Hk. destruct (lookup_lt_is_Some_2 (data acc) k Hk) as [x ->].
    done.
  - destruct (Hl r) as (x & -> & Hlike & Hx); [by left|]. simpl.
    destruct (Img_zip_like Z.add acc x Hlike) as (c & Hc & Hlc & Hck).
    unfold Img_plus_assign. rewrite Hc. simpl.
    destruct (IH c) as (s & Hs & Hls & Hsk).
    { intros r' Hr'. destruct (Hl r') as (x' & Hx' & Hlx' & Hk'); [by right|].
      exists x'. split; [done|]. split.
      - eapply like_trans; [apply like_sym, Hlc | done].
      - intros k Hk. apply Hk'. destruct Hlc as [_ Hlen]. lia. }
    exists s. split; [done|]. split; [by eapply like_trans|].
    intros k Hk. destruct Hlc as [_ Hlen].
    rewrite Hsk by lia. rewrite Hck by done. rewrite Hx by done. done.
Qed.

Lemma like_for_each op a : like a (for_each op a).
Proof.
  split; [by apply same_shape_spec | simpl]. by rewrite length_fmap.
Qed.

(** The mean grid, cell by cell of the array. *)
Lemma aggregate_data grids acc :
  Forall (like acc) grids ->
  exists m, aggregate grids (length grids) acc = Ok m /\ like acc m /\
    forall k, (k < length (data acc))%nat ->
      data m !! k
      = Some (Z.quot (wrapped_sum 0 ((fun r => default 0 (data r !! k))
                                     <$> grids))
                     (Z.of_nat (length grids))).
Proof.
  intros Hall. unfold aggregate. rewrite for_loop_vector0.
  destruct (sum_loop Ok (fun r k => default 0 (data r !! k)) grids (zero acc))
    as (s & Hs & Hls & Hsk).
  { intros r Hr. exists r. split; [done|].
    rewrite Forall_forall in Hall. specialize (Hall r Hr).
    split.
    - eapply like_trans; [apply like_sym, like_for_each | done].
    - intros k Hk. destruct Hall as [_ Hlen].
      unfold zero in Hk. simpl in Hk. rewrite length_fmap in Hk.
      destruct (lookup_lt_is_Some_2 (data r) k) as [x ->]; [lia|]. done. }
  erewrite for_loop_ext in Hs; [rewrite Hs | done]. simpl.
  eexists. split; [done|].
  assert (like acc s) as Has
    by (eapply like_trans; [apply (like_for_each (fun _ => 0)) | done]).
  split; [eapply like_trans; [done | apply like_for_each]|].
  intros k Hk. simpl. rewrite list_lookup_fmap.
  rewrite Hsk by (unfold zero; simpl; rewrite length_fmap; lia).
  simpl. do 3 f_equal. unfold zero. simpl. rewrite list_lookup_fmap.
  by destruct (lookup_lt_is_Some_2 (data acc) k Hk) as [x ->].
Qed.

(** The standard-deviation grid, cell by cell of the array. *)
Lemma stddev_data grids mean :
  Img_wf mean -> Forall (like mean) grids ->
  exists sd, stddev grids (length grids) mean = Ok sd /\ like mean sd /\
    forall k, (k < length (data mean))%nat ->
      data sd !! k
      = Some (Z.sqrt (Z.quot
          (wrapped_sum 0
             ((fun r => wrapped_sq_dev (default 0 (data mean !! k))
                                       (default 0 (data r !! k)))
              <$> grids))
          (Z.of_nat (length grids)))).
Proof.
  intros Hwf Hall. unfold stddev. rewrite for_loop_vector0.
  set (acc0 := Img_fill _ _ _ _ 0).
  assert (like mean acc0) as Hacc0.
  { split; [by apply same_shape_spec|]. unfold acc0. simpl.
    rewrite length_replicate. by rewrite Hwf. }
  destruct (sum_loop
    (fun r => let* tmp := Img_minus r mean in Img_times tmp tmp)
    (fun r k => wrapped_sq_dev (default 0 (data mean !! k))
                               (default 0 (data r !! k)))
    grids acc0) as (s & Hs & Hls & Hsk).
  { intros r Hr. rewrite Forall_forall in Hall. specialize (Hall r Hr).
    destruct (Img_zip_like Z.sub r mean (like_sym _ _ Hall))
      as (tmp & Htmp & Hlt & Htk).
    destruct (Img_zip_like Z.mul tmp tmp (like_refl tmp))
      as (sq & Hsq & Hlsq & Hsqk).
    unfold Img_minus, Img_times. rewrite Htmp. simpl. rewrite Hsq.
    exists sq. split; [done|]. split.
    - eapply like_trans; [apply like_sym, Hacc0|].
      eapply like_trans; [exact Hall|]. by eapply like_trans.
    - intros k Hk. destruct Hacc0 as [_ Hl0], Hall as [_ Hlr], Hlt as [_ Hlt].
      rewrite length_replicate in Hk. unfold Img_wf in Hwf.
      rewrite Hsqk by lia. rewrite Htk by lia. done. }
  erewrite for_loop_ext in Hs; [rewrite Hs | ]; last first.
  { intros a b. simpl. by destruct (Img_minus b mean) as [t| |];
      [simpl; destruct (Img_times t t)| |]. }
  simpl. eexists. split; [done|].
  assert (like mean s) as Hms by (by eapply like_trans).
  split.
  { eapply like_trans; [done|].
    eapply like_trans; apply like_for_each. }
  intros k Hk. simpl. rewrite !list_lookup_fmap.
  destruct Hacc0 as [_ Hl0].
  rewrite Hsk by lia. simpl. do 4 f_equal.
  unfold acc0. simpl. by rewrite lookup_replicate_2 by (rewrite <- Hwf; lia).
Qed.

Lemma Img_ext a b :
  like a b ->
  (forall k, (k < length (data a))%nat -> data b !! k = data a !! k) ->
  a = b.
Proof.
  intros [Hs Hl] Hk. apply same_shape_spec in Hs as (Hw & Hh & Hwe & Hns).
  destruct a as [wa ha wea nsa da], b as [wb hb web nsb db]. simpl in *.
  subst. f_equal. apply list_eq. intros k.
  destruct (decide (k < length da)%nat) as [Hlt|Hge].
  - symmetry. by apply Hk.
  - rewrite !lookup_ge_None_2; [done | lia | lia].
Qed.

Lemma Forall_replicate_like (n : nat) (a g : Img) :
  like a g -> Forall (like a) (replicate n g).
Proof. intros H. apply Forall_forall. by intros x [-> _]%elem_of_replicate. Qed.

Lemma foldr_add_replicate (n : nat) (x : Z) :
  foldr Z.add 0 (replicate n x) = Z.of_nat n * x.
Proof. induction n as [|n IH]; simpl; [lia|]. rewrite IH. lia. Qed.

(** [n] copies of a number whose [n]-fold fits in an [int] are summed
    exactly. *)
Lemma wrapped_sum_replicate (n : nat) (x : Z) :
  int_min <= Z.of_nat n * x <= int_max ->
  wrapped_sum 0 (replicate n x) = Z.of_nat n * x.
Proof.
  intros Hx.
  rewrite (wrapped_sum_bounded (Z.min x 0) (Z.max x 0)).
  - by rewrite foldr_add_replicate.
  - lia.
  - apply Forall_forall. intros y [-> _]%elem_of_replicate. lia.
  - rewrite length_replicate. unfold int_min in *. nia.
  - rewrite length_replicate. unfold int_max in *. nia.
Qed.

Lemma wrapped_sum_zeros (n : nat) : wrapped_sum 0 (replicate n 0) = 0.
Proof. rewrite wrapped_sum_replicate; [lia | unfold int_min, int_max; lia]. Qed.

(** C6, as the code has it: for [n >= 1] replicas that all hold the grid
    [g], where [n] times every cell of [g] fits in an [int], the mean
    computed into [I_oaks_rast] is [g] itself, cell for cell, and the
    standard deviation computed from that mean is the all-zero grid. *)
Theorem identical_replicas (n : nat) (g acc : Img) :
  (1 <= n)%nat -> Img_wf g -> like acc g ->
  Forall (fun x => int_min <= Z.of_nat n * x <= int_max) (data g) ->
  aggregate (replicate n g) n acc = Ok g /\
  stddev (replicate n g) n g
  = Ok (Img_fill (getWidth g) (getHeight g) (getWEResolution g)
                 (getNSResolution g) 0).
Proof.
  intros Hn Hwf Hlike Hfit. split.
  - destruct (aggregate_data (replicate n g) acc)
      as (m & Hm & Hlm & Hmk); [by apply Forall_replicate_like|].
    rewrite length_replicate in Hm, Hmk. rewrite Hm. f_equal.
    symmetry. apply Img_ext.
    + eapply like_trans; [apply like_sym, Hlike | done].
    + intros k Hk. destruct Hlike as [_ Hl]. rewrite Hmk by lia.
      rewrite fmap_replicate.
      destruct (lookup_lt_is_Some_2 (data g) k Hk) as [x Hx].
      rewrite Hx. simpl.
      rewrite wrapped_sum_replicate
        by exact (Forall_lookup_1 _ _ _ _ Hfit Hx).
      f_equal. rewrite Z.mul_comm. apply Z.quot_mul. lia.
  - destruct (stddev_data (replicate n g) g Hwf)
      as (sd & Hsd & Hlsd & Hsdk); [apply Forall_replicate_like, like_refl|].
    rewrite length_replicate in Hsd, Hsdk. rewrite Hsd. f_equal.
    apply Img_ext.
    + eapply like_trans; [apply like_sym, Hlsd|].
      split; [by apply same_shape_spec | simpl].
      rewrite length_replicate. by rewrite Hwf.
    + intros k Hk. destruct Hlsd as [_ Hl]. rewrite Hsdk by lia.
      rewrite fmap_replicate. unfold wrapped_sq_dev. rewrite Z.sub_diag.
      change (wrap_int (wrap_int 0 * wrap_int 0)) with 0.
      rewrite wrapped_sum_zeros, Z.quot_0_l by lia.
      simpl. apply lookup_replicate_2. rewrite <- Hwf. lia.
Qed.

Lemma identical_replicas_witness :
  aggregate (replicate 3 (mkImg 2 1 30 30 [4; 7])) 3 (mkImg 2 1 30 30 [1; 0])
  = Ok (mkImg 2 1 30 30 [4; 7]) /\
  stddev (replicate 3 (mkImg 2 1 30 30 [4; 7])) 3 (mkImg 2 1 30 30 [4; 7])
  = Ok (Img_fill 2 1 30 30 0).
Proof.
  apply (identical_replicas 3 (mkImg 2 1 30 30 [4; 7]) (mkImg 2 1 30 30 [1; 0]));
    [lia | reflexivity | split; reflexivity |].
  repeat (constructor; [vm_compute; split; discriminate|]). constructor.
Defined.

(** C6, as the specification words it, fails where the sum of the replicas
    does not fit in an [int]: three replicas that hold 1000000000 in a
    cell are summed on [int], and the mean of the cell is not
    1000000000; no [int] divided by 3 is. *)
Lemma identical_replicas_overflow_int :
  int_max < 3 * Img_at oaks_1e9 0 0 /\
  aggregate (replicate 3 oaks_1e9) 3 oaks_1e9
  = Ok (mkImg 1 1 30 30 [-431655765]) /\
  aggregate (replicate 3 oaks_1e9) 3 oaks_1e9 <> Ok oaks_1e9 /\
  (forall sum, int_min <= sum <= int_max ->
     Z.quot sum 3 <> Img_at oaks_1e9 0 0).
Proof.
  split; [vm_compute; reflexivity|].
  split; [vm_compute; reflexivity|].
  split; [vm_compute; intros H; discriminate H|].
  intros sum [_ Hsum] Hq. change (Img_at oaks_1e9 0 0) with 1000000000 in Hq.
  assert (Z.quot sum 3 <= Z.quot int_max 3) as Hle
    by (apply Z.quot_le_mono; lia).
  change (Z.quot int_max 3) with 715827882 in Hle. lia.
Qed.

(** ** The standard deviation and the specification's formula *)

Lemma sum_sq_dev_nonneg xs m : 0 <= sum_sq_dev xs m.
Proof.
  unfold sum_sq_dev. induction xs as [|x xs IH]; simpl; [lia|].
  pose proof (Z.square_nonneg (x - m)). lia.
Qed.

(** The values of array cell [i * width + j] of the replicas are the
    values of cell [(i, j)]. *)
Lemma cell_values_data grids mean i j :
  Forall (like mean) grids ->
  (fun r => default 0 (data r !! (i * getWidth mean + j)%nat)) <$> grids
  = cell_values grids i j.
Proof.
  unfold cell_values. induction 1 as [|r grids [Hs _] _ IH]; [done|].
  cbn [fmap list_fmap]. rewrite <- IH. f_equal.
  apply same_shape_spec in Hs as (Hw & _). unfold Img_at. by rewrite <- Hw.
Qed.

Lemma square_fits (d : Z) : d * d <= int_max -> int_min <= d <= int_max.
Proof. unfold int_min, int_max. nia. Qed.

(** Squared deviations whose sum fits in an [int] are computed and summed
    exactly. *)
Lemma wrapped_sq_devs (xs : list Z) (m : Z) :
  sum_sq_dev xs m <= int_max ->
  wrapped_sum 0 (wrapped_sq_dev m <$> xs) = sum_sq_dev xs m.
Proof.
  intros Hsum.
  assert (Forall (fun x => (x - m) * (x - m) <= int_max) xs) as Hterms.
  { revert Hsum. unfold sum_sq_dev.
    induction xs as [|x xs IH]; intros Hsum; simpl in *; [done|].
    pose proof (sum_sq_dev_nonneg xs m) as Hrest. unfold sum_sq_dev in Hrest.
    pose proof (Z.square_nonneg (x - m)).
    constructor; [lia | apply IH; lia]. }
  assert (wrapped_sq_dev m <$> xs = (fun x => (x - m) * (x - m)) <$> xs)
    as ->.
  { apply Forall_fmap_ext_1. eapply Forall_impl; [exact Hterms|].
    intros x Hx. simpl in Hx. unfold wrapped_sq_dev.
    rewrite (wrap_int_id (x - m)) by (by apply square_fits).
    apply wrap_int_id. pose proof (Z.square_nonneg (x - m)).
    unfold int_min. lia. }
  assert (foldr Z.add 0 ((fun x => (x - m) * (x - m)) <$> xs)
          = sum_sq_dev xs m) as Hfold.
  { unfold sum_sq_dev. clear. induction xs as [|x xs IH]; [done|].
    rewrite fmap_cons. cbn [foldr]. by rewrite IH. }
  rewrite wrapped_sum_nonneg; rewrite ?Hfold; try lia.
  apply Forall_fmap, Forall_forall. intros x _. simpl.
  apply Z.square_nonneg.
Qed.

(** The integer [Z.sqrt (sigma ÷ n)] is the real [sqrt (sigma / n)] rounded
    down. *)
Lemma sqrt_quot_floor (sigma n : Z) :
  0 <= sigma -> 0 < n ->
  (IZR (Z.sqrt (Z.quot sigma n)) <= sqrt (IZR sigma / IZR n)
   < IZR (Z.sqrt (Z.quot sigma n)) + 1)%R.
Proof.
  intros Hsig Hn.
  set (q := Z.quot sigma n). set (s := Z.sqrt q).
  assert (0 <= q) as Hq by (apply Z.quot_pos; lia).
  assert (q * n <= sigma < (q + 1) * n) as [Hq1 Hq2].
  { unfold q. rewrite Z.quot_div_nonneg by lia.
    pose proof (Z.mul_div_le sigma n Hn).
    pose proof (Z.mul_succ_div_gt sigma n Hn). lia. }
  destruct (Z.sqrt_spec q Hq) as [Hs1 Hs2]. fold s in Hs1, Hs2.
  assert (0 <= s) as Hs0 by apply Z.sqrt_nonneg.
  assert (s * s * n <= sigma) as Hlo by nia.
  assert (sigma < (s + 1) * (s + 1) * n) as Hhi by nia.
  apply IZR_le in Hlo, Hs0, Hsig. apply IZR_lt in Hhi, Hn.
  rewrite !mult_IZR in Hlo. rewrite !mult_IZR, !plus_IZR in Hhi.
  set (x := (IZR sigma / IZR n)%R).
  assert (x * IZR n = IZR sigma)%R as Hx by (unfold x; field; lra).
  assert (0 <= x)%R as Hx0.
  { unfold x. apply Rmult_le_pos; [lra|].
    left. apply Rinv_0_lt_compat. lra. }
  split.
  - rewrite <- (sqrt_square (IZR s)) by lra.
    apply sqrt_le_1_alt. nra.
  - replace (IZR s + 1)%R with (sqrt ((IZR s + 1) * (IZR s + 1)))
      by (apply sqrt_square; lra).
    apply sqrt_lt_1_alt. split; [done | nra].
Qed.

(** C5, as the code has it: for [N >= 1] replicas of the shape of the mean
    grid, in every cell in which the sum of the squared deviations fits in
    an [int], the grid [stddev] computes holds the integer square root of
    the integer quotient of that sum by [N], which is the population
    standard deviation of the cell (no sample-size correction) rounded
    down to an integer. *)
Theorem stddev_rounded_down (grids : list Img) (mean : Img) (i j : nat) :
  (1 <= length grids)%nat ->
  Img_wf mean -> Forall (like mean) grids ->
  (i < getHeight mean)%nat -> (j < getWidth mean)%nat ->
  sum_sq_dev (cell_values grids i j) (Img_at mean i j) <= int_max ->
  exists sd,
    stddev grids (length grids) mean = Ok sd /\
    Img_at sd i j
    = Z.sqrt (Z.quot (sum_sq_dev (cell_values grids i j) (Img_at mean i j))
                     (Z.of_nat (length grids))) /\
    (IZR (Img_at sd i j)
     <= population_stddev (cell_values grids i j) (Img_at mean i j)
     < IZR (Img_at sd i j) + 1)%R.
Proof.
  intros Hn Hwf Hall Hi Hj Hfit.
  destruct (stddev_data grids mean Hwf Hall) as (sd & Hsd & [Hs _] & Hk).
  exists sd. split; [done|].
  apply same_shape_spec in Hs as (Hw & _).
  assert (Img_at sd i j
          = Z.sqrt (Z.quot (sum_sq_dev (cell_values grids i j)
                                       (Img_at mean i j))
                           (Z.of_nat (length grids)))) as Hcell.
  { assert ((fun r => wrapped_sq_dev
                        (default 0 (data mean !! (i * getWidth mean + j)%nat))
                        (default 0 (data r !! (i * getWidth mean + j)%nat)))
            <$> grids
            = wrapped_sq_dev (Img_at mean i j) <$> cell_values grids i j)
      as Heq.
    { rewrite <- (cell_values_data grids mean i j Hall).
      by rewrite <- list_fmap_compose. }
    unfold Img_at at 1. rewrite <- Hw.
    rewrite Hk by (rewrite Hwf; nia).
    by rewrite Heq, (wrapped_sq_devs _ _ Hfit). }
  split; [done|]. rewrite Hcell. unfold population_stddev.
  replace (length (cell_values grids i j)) with (length grids)
    by (unfold cell_values; by rewrite length_fmap).
  apply sqrt_quot_floor; [apply sum_sq_dev_nonneg | lia].
Qed.

Lemma stddev_rounded_down_witness :
  exists sd,
    stddev replicas_0_3 2 mean_0_3
    = Ok sd /\
    Img_at sd 0%nat 0%nat
    = Z.sqrt (Z.quot
        (sum_sq_dev
           (cell_values replicas_0_3 0%nat 0%nat)
           (Img_at mean_0_3 0%nat 0%nat)) 2) /\
    (IZR (Img_at sd 0%nat 0%nat)
     <= population_stddev
          (cell_values replicas_0_3 0%nat 0%nat)
          (Img_at mean_0_3 0%nat 0%nat)
     < IZR (Img_at sd 0%nat 0%nat) + 1)%R.
Proof.
  apply (stddev_rounded_down
           replicas_0_3 mean_0_3 0%nat 0%nat);
    simpl; try lia; try reflexivity.
  - repeat constructor.
  - vm_compute. intros H. discriminate H.
Defined.

(** C5, as the specification words it, fails: two replicas holding 0 and 3
    in a cell have the mean 1 there (3 / 2 in integers); the grid [stddev]
    holds 1, and the population standard deviation about that mean is the
    square root of 5 / 2. *)
Lemma stddev_not_population_stddev :
  aggregate replicas_0_3 2 (mkImg 1 1 30 30 [0]) = Ok mean_0_3 /\
  exists sd,
    stddev replicas_0_3 2 mean_0_3 = Ok sd /\
    Img_at sd 0 0 = 1 /\
    IZR (Img_at sd 0 0)
    <> population_stddev (cell_values replicas_0_3 0 0) (Img_at mean_0_3 0 0).
Proof.
  split; [reflexivity|]. eexists. split; [reflexivity|].
  split; [reflexivity|].
  unfold population_stddev.
  change (sum_sq_dev _ _) with 5.
  change (Z.of_nat _) with 2.
  change (Img_at _ _ _) with 1.
  intros H.
  assert (sqrt (5 / 2) * sqrt (5 / 2) = 5 / 2)%R as Hsq
    by (apply sqrt_sqrt; lra).
  rewrite <- H in Hsq. lra.
Qed.

(** ** The weekly loop *)

Section Loop.
Context {W : World}.

Lemma with_unresolved_weeks_same (st : SimState) :
  with_unresolved_weeks (unresolved_weeks st) st = st.
Proof. by destruct st. Qed.

(** C2: at the top of the loop body the current week index is appended to
    the queue of pending weeks exactly when the current date precedes the
    end date and seasonality is off or the month is at most 9; otherwise
    the state is left as it is; and the queue is all this step writes. *)
Theorem accumulate_iff (c : Setup) (st : SimState) :
  (unresolved_weeks (accumulate c st)
   = unresolved_weeks st ++ [current_week st]
   <-> Date_lt (dd_start st) (dd_end (params c)) = true /\
       (ss (params c) = false \/ getMonth (dd_start st) <= 9)) /\
  (unresolved_weeks (accumulate c st)
   = unresolved_weeks st ++ [current_week st]
   \/ accumulate c st = st) /\
  accumulate c st
  = with_unresolved_weeks (unresolved_weeks (accumulate c st)) st.
Proof.
  assert (forall q : list nat, forall w, q ++ [w] <> q) as Hne.
  { intros q w Hq. apply (f_equal length) in Hq.
    rewrite length_app in Hq. simpl in Hq. lia. }
  split; [|split].
  - unfold accumulate.
    destruct (Date_lt (dd_start st) (dd_end (params c))); simpl.
    + destruct (ss (params c)); simpl.
      * destruct (Z.gtb_spec (getMonth (dd_start st)) 9); simpl.
        -- split; [intros Hq; symmetry in Hq; by apply Hne in Hq|].
           intros [_ [?|?]]; [done | lia].
        -- split; [|done]. intros _. split; [done|]. right. lia.
      * split; [|done]. intros _. split; [done|]. by left.
    + split; [intros Hq; symmetry in Hq; by apply Hne in Hq|].
      by intros [? _].
  - unfold accumulate.
    destruct (Date_lt (dd_start st) (dd_end (params c))); [|by right].
    destruct (negb (ss (params c)) || negb (getMonth (dd_start st) >? 9));
      [by left | by right].
  - unfold accumulate.
    destruct (Date_lt (dd_start st) (dd_end (params c)));
      [|by rewrite with_unresolved_weeks_same].
    destruct (negb (ss (params c)) || negb (getMonth (dd_start st) >? 9));
      [done | by rewrite with_unresolved_weeks_same].
Qed.

(** *** What the aggregation writes *)

(** C8: the aggregation that follows a batch and the final aggregation
    leave the susceptible and infected grids of every replica, of both
    hosts, as they were; the engines of the replicas too. *)
Theorem aggregation_reads_only (c : Setup) (opt : SodOptions)
  (st st' : SimState) :
  periodic_output c st = Ok st' \/ final_output c opt st = Ok st' ->
  replica_grids st' = replica_grids st /\
  sporulations st' = sporulations st.
Proof.
  intros [H|H].
  - unfold periodic_output in H.
    destruct (output_series c) as [b|], (stddev_series c) as [b'|];
      simpl in H.
    + destruct (aggregate _ _ _) as [m| |]; simpl in H; try done.
      destruct (stddev _ _ _) as [sd| |]; simpl in H; try done.
      by injection H as <-.
    + destruct (aggregate _ _ _) as [m| |]; simpl in H; try done.
      by injection H as <-.
    + destruct (aggregate _ _ _) as [m| |]; simpl in H; try done.
      destruct (stddev _ _ _) as [sd| |]; simpl in H; try done.
      by injection H as <-.
    + by injection H as <-.
  - unfold final_output in H.
    destruct (aggregate _ _ _) as [m| |]; simpl in H; try done.
    destruct (opt_stddev opt) as [name|].
    + destruct (stddev _ _ _) as [sd| |]; simpl in H; try done.
      by injection H as <-.
    + by injection H as <-.
Qed.

End Loop.

(** ** The early exit *)

Lemma for_loop_inv {A B : Type} (P : A -> Prop) (body : A -> B -> Outcome A)
  (l : list B) (a a' : A) :
  (forall a b a', P a -> body a b = Ok a' -> P a') ->
  P a -> for_loop body a l = Ok a' -> P a'.
Proof.
  intros Hbody. revert a. induction l as [|b l IH]; intros a Ha H; simpl in H.
  - by injection H as <-.
  - bind_inv H. eapply IH; [|done]. by eapply Hbody.
Qed.

(** [all_infected] holds exactly when no cell of the grid is positive. *)
Lemma all_infected_row (img : Img) (j n : nat) (b : bool) :
  foldl (fun allInfected k =>
           if Img_at img j k >? 0 then false else allInfected) b (seq 0 n)
  = true
  <-> b = true /\ forall k, (k < n)%nat -> Img_at img j k <= 0.
Proof.
  induction n as [|n IH].
  - simpl. split; [intros ->; split; [done | intros; lia] | by intros [-> _]].
  - rewrite seq_S, foldl_app. simpl.
    destruct (Z.gtb_spec (Img_at img j n) 0) as [Hpos|Hle].
    + split; [done|]. intros [_ H]. specialize (H n). lia.
    + rewrite IH. split; intros [Hb H]; (split; [done|]).
      * intros k Hk. destruct (decide (k = n)) as [->|]; [done|].
        apply H. lia.
      * intros k Hk. apply H. lia.
Qed.

Lemma all_infected_spec (img : Img) :
  all_infected img = true
  <-> forall j k, (j < getHeight img)%nat -> (k < getWidth img)%nat ->
        Img_at img j k <= 0.
Proof.
  unfold all_infected.
  assert (forall n b,
    foldl (fun allInfected j =>
      foldl (fun allInfected k =>
        if Img_at img j k >? 0 then false else allInfected)
      allInfected (seq 0 (getWidth img))) b (seq 0 n) = true
    <-> b = true /\
        forall j k, (j < n)%nat -> (k < getWidth img)%nat ->
          Img_at img j k <= 0) as Hrows.
  { induction n as [|n IH]; intros b.
    - simpl. split; [intros ->; split; [done | intros; lia] | by intros [-> _]].
    - rewrite seq_S, foldl_app. simpl. rewrite all_infected_row, IH.
      split.
      + intros [[Hb H] Hn]. split; [done|]. intros j k Hj Hk.
        destruct (decide (j = n)) as [->|]; [by apply Hn|]. apply H; lia.
      + intros [Hb H]. split; [split; [done|]|].
        * intros j k Hj Hk. apply H; lia.
        * intros k Hk. apply H; lia. }
  rewrite Hrows. split; [by intros [_ H] | by intros H].
Qed.

Section EarlyExit.
Context {W : World}.

Lemma fetch_weather_S_oaks c st st' :
  fetch_weather c st = Ok st' -> S_oaks_rast st' = S_oaks_rast st.
Proof.
  unfold fetch_weather. destruct (weather_coeff c) as [[mcf ccf]|].
  - intros H. bind_inv H. by injection H as <-.
  - by intros [= <-].
Qed.

Lemma replica_week_S_oaks c run acc week acc' :
  replica_week c run acc week = Ok acc' ->
  S_oaks_rast acc'.1 = S_oaks_rast acc.1.
Proof.
  unfold replica_week. intros H. bind_inv H.
  injection H as <-. simpl.
  transitivity (S_oaks_rast a).
  - unfold with_replica. by destruct (SporeSpreadDisp _ _ _ _ _ _ _ _ _ _ _ _ _ _)
      as [sp [[[su so] iu] io]].
  - destruct (weather_coeff c), (weather_values c); try (by injection E as <-).
    bind_inv E. by injection E as <-.
Qed.

Lemma run_replicas_S_oaks c st st' :
  run_replicas c st = Ok st' -> S_oaks_rast st' = S_oaks_rast st.
Proof.
  unfold run_replicas.
  apply (for_loop_inv (fun s => S_oaks_rast s = S_oaks_rast st)); [|done].
  intros a run a' Ha H. bind_inv H. injection H as <-. rewrite <- Ha.
  revert E.
  apply (for_loop_inv (fun p : SimState * nat =>
           S_oaks_rast p.1 = S_oaks_rast a) (replica_week c run)); [|done].
  intros p week p' Hp H. rewrite <- Hp. by eapply replica_week_S_oaks.
Qed.

Lemma periodic_output_S_oaks c st st' :
  periodic_output c st = Ok st' -> S_oaks_rast st' = S_oaks_rast st.
Proof.
  unfold periodic_output. intros H.
  destruct (output_series c) as [b|], (stddev_series c) as [b'|];
    simpl in H; binds; done.
Qed.

(** One pass of the loop body leaves [S_oaks_rast] as it was. *)
Lemma week_body_S_oaks c st st' e :
  week_body c st = Ok (st', e) -> S_oaks_rast st' = S_oaks_rast st.
Proof.
  unfold week_body. intros H.
  assert (S_oaks_rast (accumulate c st) = S_oaks_rast st) as Hacc.
  { unfold accumulate. by repeat case_match. }
  destruct (all_infected (S_oaks_rast (accumulate c st))).
  { by injection H as <- _. }
  bind_inv H.
  assert (S_oaks_rast a = S_oaks_rast st) as Ha.
  { rewrite <- Hacc. revert E.
    destruct (isYearEnd _ || Date_ge _ _); [|by intros [= <-]].
    intros E. bind_inv E. rewrite (periodic_output_S_oaks _ _ _ E).
    destruct (unresolved_weeks (accumulate c st)); [by injection E0 as <-|].
    bind_inv E0. injection E0 as <-. simpl.
    match goal with
    | H1 : fetch_weather _ _ = Ok ?x, H2 : run_replicas _ ?x = Ok _ |- _ =>
      rewrite (run_replicas_S_oaks _ _ _ H2);
      exact (fetch_weather_S_oaks _ _ _ H1)
    end. }
  by destruct (Date_ge (dd_start a) (dd_end (params c)));
    injection H as <- _.
Qed.

Lemma reaches_S_oaks c st0 st :
  reaches c st0 st -> S_oaks_rast st = S_oaks_rast st0.
Proof.
  induction 1 as [|st st' _ IH Hbody]; [done|].
  rewrite <- IH. simpl. by eapply week_body_S_oaks.
Qed.

(** The loop leaves through the all-infected exit only in its first pass,
    and only if the predicate holds of the grid it starts with. *)
Lemma weekly_loop_exit fuel c st st' e :
  weekly_loop fuel c st = Ok (Some (st', e)) ->
  S_oaks_rast st' = S_oaks_rast st /\
  (e = AllInfected ->
   all_infected (S_oaks_rast st) = true /\ current_week st' = current_week st
   /\ dd_start st' = dd_start st).
Proof.
  revert st. induction fuel as [|fuel IH]; intros st H; simpl in H; [done|].
  bind_inv H. destruct a as [s [x|]]; simpl in H.
  - injection H as <- <-.
    split; [by eapply week_body_S_oaks|]. intros ->.
    unfold week_body in E.
    assert (S_oaks_rast (accumulate c st) = S_oaks_rast st
            /\ current_week (accumulate c st) = current_week st
            /\ dd_start (accumulate c st) = dd_start st)
      as (Hacc & Hcw & Hdd).
    { unfold accumulate. by repeat case_match. }
    rewrite Hacc in E.
    destruct (all_infected (S_oaks_rast st)) eqn:Hall.
    + injection E as <-. simpl. by rewrite Hcw, Hdd.
    + bind_inv E. by destruct (Date_ge (dd_start a) (dd_end (params c))).
  - pose proof (week_body_S_oaks _ _ _ _ E) as Hs.
    destruct (IH _ H) as [Hs' He]. simpl in Hs'.
    split; [congruence|]. intros ->.
    destruct (He eq_refl) as (Hall & _). simpl in Hall. rewrite Hs in Hall.
    unfold week_body in E.
    assert (S_oaks_rast (accumulate c st) = S_oaks_rast st) as Hacc.
    { unfold accumulate. by repeat case_match. }
    rewrite Hacc, Hall in E. done.
Qed.

Lemma weekly_loop_all_infected fuel c st :
  all_infected (S_oaks_rast st) = true ->
  exists st', weekly_loop (Datatypes.S fuel) c st = Ok (Some (st', AllInfected)).
Proof.
  intros Hall. simpl. unfold week_body.
  assert (S_oaks_rast (accumulate c st) = S_oaks_rast st) as Hacc.
  { unfold accumulate. by repeat case_match. }
  rewrite Hacc, Hall. simpl. eauto.
Qed.

End EarlyExit.

Section EarlyExitMain.
Context {W : World}.

Lemma setup_start env opt p c st0 :
  setup env opt p = Ok (c, st0) ->
  Img_minus (fromGrassRaster env (opt_oaks opt))
            (fromGrassRaster env (opt_ioaks opt)) = Ok (S_oaks_rast st0) /\
  current_week st0 = 0%nat /\ dd_start st0 = dd_begin p /\ params c = p.
Proof.
  unfold setup. intros H. bind_inv H. injection H as <- <-. done.
Qed.

(** C9: the grid the all-infected test looks at is the difference of the
    oak map and the initial infected-oak map computed at setup; no pass of
    the loop writes it; so the loop leaves through the all-infected exit
    exactly when that grid has no positive cell, and then in its first
    pass, in week 0 at the start date. *)
Theorem all_infected_tests_initial_grid (env : Env) (opt : SodOptions)
  (p : Params) (c : Setup) (st0 : SimState) :
  setup env opt p = Ok (c, st0) ->
  Img_minus (fromGrassRaster env (opt_oaks opt))
            (fromGrassRaster env (opt_ioaks opt)) = Ok (S_oaks_rast st0) /\
  (forall st, reaches c st0 st ->
     S_oaks_rast st = S_oaks_rast st0 /\
     all_infected (S_oaks_rast st) = all_infected (S_oaks_rast st0)) /\
  ((exists st, weekly_loop (loop_bound p) c st0 = Ok (Some (st, AllInfected)))
   <-> forall j k,
         (j < getHeight (S_oaks_rast st0))%nat ->
         (k < getWidth (S_oaks_rast st0))%nat ->
         Img_at (S_oaks_rast st0) j k <= 0) /\
  (forall fuel st,
     weekly_loop fuel c st0 = Ok (Some (st, AllInfected)) ->
     current_week st = 0%nat /\ dd_start st = dd_begin p).
Proof.
  intros Hsetup.
  destruct (setup_start _ _ _ _ _ Hsetup) as (Hminus & Hweek & Hdate & _).
  split; [done|]. split; [|split].
  - intros st Hst. pose proof (reaches_S_oaks _ _ _ Hst) as ->. done.
  - rewrite <- all_infected_spec. split.
    + intros [st Hloop].
      by destruct (weekly_loop_exit _ _ _ _ _ Hloop) as [_ [? _]].
    + intros Hall.
      destruct (loop_bound p) as [|fuel] eqn:Hb;
        [unfold loop_bound in Hb; lia|].
      by apply (weekly_loop_all_infected fuel c st0).
  - intros fuel st Hloop.
    destruct (weekly_loop_exit _ _ _ _ _ Hloop) as [_ (_ & ? & ?)]; [done|].
    split; congruence.
Qed.

End EarlyExitMain.

(** The sample options lead [main] to the sample setup and state. *)
Lemma sample_start :
  @read_options sample_world sample_env sample_options = Ok sample_params /\
  @setup sample_world sample_env sample_options sample_params
  = Ok (sample_setup, sample_state).
Proof. split; vm_compute; reflexivity. Qed.

Lemma all_infected_tests_initial_grid_witness :
  Img_minus (fromGrassRaster sample_env (opt_oaks sample_options))
            (fromGrassRaster sample_env (opt_ioaks sample_options))
  = Ok (S_oaks_rast sample_state) /\
  (forall st, reaches sample_setup sample_state st ->
     S_oaks_rast st = S_oaks_rast sample_state /\
     all_infected (S_oaks_rast st) = all_infected (S_oaks_rast sample_state)) /\
  ((exists st, weekly_loop (loop_bound sample_params) sample_setup sample_state
               = Ok (Some (st, AllInfected)))
   <-> forall j k,
         (j < getHeight (S_oaks_rast sample_state))%nat ->
         (k < getWidth (S_oaks_rast sample_state))%nat ->
         Img_at (S_oaks_rast sample_state) j k <= 0) /\
  (forall fuel st,
     weekly_loop fuel sample_setup sample_state = Ok (Some (st, AllInfected)) ->
     current_week st = 0%nat /\ dd_start st = dd_begin sample_params).
Proof.
  apply (@all_infected_tests_initial_grid sample_world sample_env
           sample_options sample_params sample_setup sample_state).
  reflexivity.
Defined.

Lemma aggregation_reads_only_witness :
  replica_grids
    (toGrassRaster (mkImg 1 1 30 30 [1]) "out"
       (with_I_oaks_rast (mkImg 1 1 30 30 [1]) sample_state))
  = replica_grids sample_state /\
  sporulations
    (toGrassRaster (mkImg 1 1 30 30 [1]) "out"
       (with_I_oaks_rast (mkImg 1 1 30 30 [1]) sample_state))
  = sporulations sample_state.
Proof.
  apply (@aggregation_reads_only sample_world sample_setup sample_options
           sample_state).
  right. reflexivity.
Defined.

(** ** The loop ends *)

Lemma day_in_month_bounds leap m : 28 <= day_in_month leap m <= 31.
Proof. unfold day_in_month. repeat case_match; lia. Qed.

Lemma increasedByWeek_valid d : Date_valid d -> Date_valid (increasedByWeek d).
Proof.
  unfold Date_valid, increasedByWeek. intros [Hm Hd].
  pose proof (day_in_month_bounds (isLeapYear d) (getMonth d)).
  destruct (Z.gtb_spec (getDay d + 7) (day_in_month (isLeapYear d) (getMonth d))).
  - destruct (Z.gtb_spec (getMonth d + 1) 12); simpl.
    + pose proof (day_in_month_bounds
        (isLeapYear (mkDate (getYear d + 1) 1 (getDay d + 7
           - day_in_month (isLeapYear d) (getMonth d)))) 1). lia.
    + pose proof (day_in_month_bounds
        (isLeapYear (mkDate (getYear d) (getMonth d + 1) (getDay d + 7
           - day_in_month (isLeapYear d) (getMonth d)))) (getMonth d + 1)).
      lia.
  - simpl. split; [lia|]. split; [lia|].
    by replace (isLeapYear (mkDate (getYear d) (getMonth d) (getDay d + 7)))
      with (isLeapYear d).
Qed.

Lemma increasedByWeek_rank d :
  Date_valid d -> Date_rank d + 7 <= Date_rank (increasedByWeek d).
Proof.
  unfold Date_valid, Date_rank, increasedByWeek. intros [Hm Hd].
  pose proof (day_in_month_bounds (isLeapYear d) (getMonth d)).
  destruct (Z.gtb_spec (getDay d + 7) (day_in_month (isLeapYear d) (getMonth d)));
    [destruct (Z.gtb_spec (getMonth d + 1) 12)|]; simpl; lia.
Qed.

Lemma Date_lt_rank a b :
  Date_valid a -> Date_valid b -> Date_lt a b = true ->
  Date_rank a < Date_rank b.
Proof.
  unfold Date_valid, Date_rank, Date_lt. intros [Hma Hda] [Hmb Hdb].
  pose proof (day_in_month_bounds (isLeapYear a) (getMonth a)).
  pose proof (day_in_month_bounds (isLeapYear b) (getMonth b)).
  rewrite !orb_true_iff, !andb_true_iff, !Z.ltb_lt, !Z.eqb_eq. nia.
Qed.

Section Termination.
Context {W : World}.

Lemma week_body_dd_start c st st' e :
  week_body c st = Ok (st', e) -> dd_start st' = dd_start st.
Proof.
  assert (forall s, dd_start (accumulate c s) = dd_start s) as Hacc.
  { intros s. unfold accumulate. by repeat case_match. }
  assert (forall s s', fetch_weather c s = Ok s' -> dd_start s' = dd_start s)
    as Hfetch.
  { intros s s'. unfold fetch_weather.
    destruct (weather_coeff c) as [[mcf ccf]|]; intros H; binds; done. }
  assert (forall run p week p', replica_week c run p week = Ok p' ->
            dd_start p'.1 = dd_start p.1) as Hweek.
  { intros run p week p'. unfold replica_week. intros H. bind_inv H.
    injection H as <-. simpl.
    transitivity (dd_start a).
    - unfold with_replica.
      by destruct (SporeSpreadDisp _ _ _ _ _ _ _ _ _ _ _ _ _ _)
        as [sp [[[su so] iu] io]].
    - destruct (weather_coeff c), (weather_values c);
        try (by injection E as <-).
      bind_inv E. by injection E as <-. }
  assert (forall s s', run_replicas c s = Ok s' -> dd_start s' = dd_start s)
    as Hruns.
  { intros s s'. unfold run_replicas.
    apply (for_loop_inv (fun x => dd_start x = dd_start s)); [|done].
    intros a run a' Ha H. bind_inv H. injection H as <-. rewrite <- Ha.
    revert E.
    apply (for_loop_inv (fun p : SimState * nat => dd_start p.1 = dd_start a)
                        (replica_week c run)); [|done].
    intros p week p' Hp H. rewrite <- Hp. by eapply Hweek. }
  assert (forall s s', periodic_output c s = Ok s' -> dd_start s' = dd_start s)
    as Hout.
  { intros s s'. unfold periodic_output. intros H.
    destruct (output_series c), (stddev_series c); simpl in H; binds; done. }
  unfold week_body. intros H.
  destruct (all_infected (S_oaks_rast (accumulate c st))).
  { injection H as <- _. simpl. apply Hacc. }
  bind_inv H.
  assert (dd_start a = dd_start st) as Ha.
  { rewrite <- (Hacc st). revert E.
    destruct (isYearEnd _ || Date_ge _ _); [|by intros [= <-]].
    intros E. bind_inv E. rewrite (Hout _ _ E).
    destruct (unresolved_weeks (accumulate c st)); [by injection E0 as <-|].
    bind_inv E0. injection E0 as <-. simpl.
    match goal with
    | H1 : fetch_weather _ _ = Ok ?x, H2 : run_replicas _ ?x = Ok _ |- _ =>
      rewrite (Hruns _ _ H2); exact (Hfetch _ _ H1)
    end. }
  by destruct (Date_ge (dd_start a) (dd_end (params c)));
    injection H as <- _.
Qed.

Lemma week_body_continues c st st' :
  week_body c st = Ok (st', None) ->
  Date_lt (dd_start st) (dd_end (params c)) = true.
Proof.
  intros H. pose proof (week_body_dd_start _ _ _ _ H) as Hd.
  unfold week_body in H.
  destruct (all_infected _); [done|]. bind_inv H.
  destruct (Date_ge (dd_start a) (dd_end (params c))) eqn:Hge; [done|].
  injection H as ->. unfold Date_ge in Hge. rewrite Hd in Hge.
  by destruct (Date_lt (dd_start st) (dd_end (params c))).
Qed.

(** With as many passes as weeks between the two dates, and one more, the
    loop is left. *)
Lemma weekly_loop_ends fuel c st :
  Date_valid (dd_start st) -> Date_valid (dd_end (params c)) ->
  (1 <= fuel)%nat ->
  Date_rank (dd_end (params c)) - Date_rank (dd_start st) + 7
    <= 7 * Z.of_nat fuel ->
  weekly_loop fuel c st <> Ok None.
Proof.
  revert st. induction fuel as [|fuel IH]; intros st Hv Hve Hf Hrank; [lia|].
  simpl. destruct (week_body c st) as [[st' [e|]]| |] eqn:Hbody; simpl;
    try done.
  pose proof (week_body_dd_start _ _ _ _ Hbody) as Hd.
  pose proof (week_body_continues _ _ _ Hbody) as Hlt.
  pose proof (Date_lt_rank _ _ Hv Hve Hlt).
  pose proof (increasedByWeek_rank _ Hv).
  apply IH; simpl; rewrite ?Hd; try done.
  - by apply increasedByWeek_valid.
  - lia.
  - lia.
Qed.

Lemma read_options_dates env opt p :
  read_options env opt = Ok p ->
  exists s e, s <= e /\ dd_begin p = mkDate s 1 1 /\ dd_end p = mkDate e 12 31.
Proof.
  unfold read_options. intros H. bind_inv H.
  match type of H with
  | (if ?x >? ?y then _ else _) = _ =>
    destruct (Z.gtb_spec x y); [done|]; exists x, y
  end.
  bind_inv H. injection H as <-. simpl. split; [lia|]. by split.
Qed.

(** [main] never runs out of passes: it ends in an abort, in an unchecked
    read, or in a final state. *)
Lemma main_leaves_loop env opt : main env opt <> Ok None.
Proof.
  unfold main. intros H. bind_inv H.
  destruct a1 as [[st e]|]; [by bind_inv H|].
  destruct a0 as [c st0]. simpl in E1.
  destruct (read_options_dates _ _ _ E) as (s & e & Hse & Hb & He).
  destruct (setup_start _ _ _ _ _ E0) as (_ & _ & Hstart & Hp).
  revert E1. apply weekly_loop_ends; rewrite ?Hstart, ?Hp, ?Hb, ?He.
  - unfold Date_valid, day_in_month. simpl. lia.
  - unfold Date_valid, day_in_month. simpl. lia.
  - unfold loop_bound. lia.
  - unfold loop_bound, Date_rank. rewrite Hb, He. simpl. lia.
Qed.

End Termination.

(** ** Validation of the options *)

Section Options.
Context {W : World}.

Lemma parse_is_Some {A : Type} (f : string -> option A) (fn a : string) :
  is_Some (f a) -> exists x, parse f fn a = Ok x.
Proof. intros [x Hx]. exists x. unfold parse. by rewrite Hx. Qed.

Lemma seasonality_accepted text :
  text ∈ ["yes"; "no"] -> exists b, seasonality_from_string text = Ok b.
Proof.
  rewrite !elem_of_cons, elem_of_nil. intros [->|[->|[]]]; by eexists.
Qed.

Lemma direction_accepted text :
  text ∈ ["N"; "NE"; "E"; "SE"; "S"; "SW"; "W"; "NW"; "NONE"] ->
  exists d, direction_enum_from_string text = Ok d.
Proof.
  rewrite !elem_of_cons, elem_of_nil.
  intros [->|[->|[->|[->|[->|[->|[->|[->|[->|[]]]]]]]]]];
    eexists; vm_compute; reflexivity.
Qed.

(** C7: with the mixture family and no second scale or no mixture weight,
    the reading of the options ends in the fatal error that names the
    missing option, and that error is the outcome of the program: the maps
    are not read and no week is simulated. *)
Theorem mixture_needs_scale_and_weight (env : Env) (opt : SodOptions) :
  accepted_by_parser opt ->
  opt_radial_type opt = "cauchy_mix" ->
  opt_scale_2 opt = None \/ opt_gamma opt = None ->
  read_options env opt
  = Aborted (GFatalError
               (match opt_scale_2 opt with
                | None => "scale_2"
                | Some _ => "gamma"
                end) "radial_type" "cauchy_mix") /\
  main env opt
  = Aborted (GFatalError
               (match opt_scale_2 opt with
                | None => "scale_2"
                | Some _ => "gamma"
                end) "radial_type" "cauchy_mix").
Proof.
  intros (Hruns & Hthreads & Hss & Hwind & Hrate & _ & Hs1 & Hs2 & Hkappa & _)
         Hmix Hmissing.
  assert (read_options env opt
          = Aborted (GFatalError
                       (match opt_scale_2 opt with
                        | None => "scale_2"
                        | Some _ => "gamma"
                        end) "radial_type" "cauchy_mix")) as Hread.
  { unfold read_options.
    assert (exists n,
      match opt_runs opt with
      | Some a => parse stoul "stoul" a
      | None => Ok 1
      end = Ok n) as [n ->].
    { destruct (opt_runs opt) as [a|]; [|by eexists].
      by apply parse_is_Some, Hruns. }
    assert (exists n,
      match opt_threads opt with
      | Some a => parse stoul "stoul" a
      | None => Ok 1
      end = Ok n) as [t ->].
    { destruct (opt_threads opt) as [a|]; [|by eexists].
      by apply parse_is_Some, Hthreads. }
    destruct (seasonality_accepted _ Hss) as [b ->].
    destruct (direction_accepted _ Hwind) as [d ->].
    destruct (parse_is_Some stod "stod" _ Hrate) as [rate ->].
    unfold required_for. rewrite Hmix.
    change (radial_type_from_string "cauchy_mix") with (Ok CAUCHY_MIX).
    destruct (parse_is_Some stod "stod" _ Hs1) as [s1 ->].
    cbn [bind].
    destruct (opt_scale_2 opt) as [a|] eqn:Hscale2; [|done].
    destruct (parse_is_Some stod "stod" a (Hs2 a eq_refl)) as [s2 ->].
    destruct (parse_is_Some stod "stod" _ Hkappa) as [k ->].
    cbn [bind].
    destruct Hmissing as [? | ->]; done. }
  split; [done|]. unfold main. by rewrite Hread.
Qed.

End Options.

Lemma mixture_needs_scale_and_weight_witness :
  @read_options sample_world sample_env mixture_options
  = Aborted (GFatalError "gamma" "radial_type" "cauchy_mix") /\
  @main sample_world sample_env mixture_options
  = Aborted (GFatalError "gamma" "radial_type" "cauchy_mix").
Proof.
  apply (@mixture_needs_scale_and_weight sample_world sample_env
           mixture_options).
  - unfold accepted_by_parser. simpl.
    repeat split; try done; try (by eexists);
      try (intros a [= <-]; by eexists);
      rewrite !elem_of_cons; tauto.
  - reflexivity.
  - right. reflexivity.
Defined.

(** ** The weather sources *)

Section Weather.
Context {W : World}.

(** One product per line: the list is as long as the file. *)
Lemma weather_file_to_list_length env filename :
  length (weather_file_to_list env filename)
  = length (weather_file_lines env filename).
Proof.
  unfold weather_file_to_list.
  assert (forall (l : list (double * double)) acc,
    length (foldl (fun output line => output ++ [d_mul line.1 line.2]) acc l)
    = (length acc + length l)%nat) as H.
  { induction l as [|x l IH]; intros acc; simpl; [lia|].
    rewrite IH, length_app. simpl. lia. }
  by rewrite H.
Qed.

(** The spatial source checks: a record that cannot be positioned on stops
    the program with [exit(EXIT_FAILURE)]. *)
Lemma spatial_weather_unreadable_exits mcf_nc ccf_nc buf offset w h step :
  set_cur mcf_nc step = false ->
  is_abort (get_spatial_weather mcf_nc ccf_nc buf offset w h step) = true.
Proof. intros H. unfold get_spatial_weather. by rewrite H. Qed.

(** The per-week list does not: a week index past its end is read without
    a check, and the outcome is neither a fatal error nor an exit. *)
Lemma weather_list_unchecked (c : Setup) (run : nat) (acc : SimState * nat)
  (week : nat) :
  weather_coeff c = None ->
  weather_values c <> [] ->
  (length (weather_values c) <= week)%nat ->
  replica_week c run acc week = Undefined week (length (weather_values c))
  /\ is_abort (replica_week c run acc week) = false.
Proof.
  intros Hnc Hne Hlen.
  assert (replica_week c run acc week
          = Undefined week (length (weather_values c))) as H.
  { unfold replica_week. rewrite Hnc.
    destruct (weather_values c) as [|v l] eqn:Hv; [done|].
    unfold vector_at. by rewrite lookup_ge_None_2. }
  by rewrite H.
Qed.

End Weather.

(** C3, at a weather file of one line and the 53 weekly steps of the year
    2000: the program reads past the end of the list in week 1, and its
    outcome is that unchecked read, not an abort. *)
Theorem weather_list_exhausted_unreported :
  length (weather_file_to_list sample_env "weather.txt") = 1%nat /\
  @main sample_world sample_env weather_file_options = Undefined 1 1 /\
  is_abort (@main sample_world sample_env weather_file_options) = false.
Proof.
  split; [vm_compute; reflexivity|]. split; vm_compute; reflexivity.
Qed.

(** ** Seeds and the parallel batch *)

Section Seeds.
Context {W : World}.

(** Replica [i] is constructed with the base seed plus [i], as an
    [unsigned]. *)
Lemma seed_replicas_spec (seed_value : Z) (num_runs : nat) (I_umca_rast : Img) :
  0 <= seed_value < unsigned_max ->
  seed_replicas seed_value num_runs I_umca_rast
  = (to_unsigned (seed_value + Z.of_nat num_runs),
     (fun i : nat =>
        Sporulation_new (to_unsigned (seed_value + Z.of_nat i)) I_umca_rast)
     <$> seq 0 num_runs).
Proof.
  intros Hseed. unfold seed_replicas.
  induction num_runs as [|n IH].
  - simpl. unfold to_unsigned. rewrite Z.add_0_r, Z.mod_small by done. done.
  - rewrite seq_S, foldl_app, IH, fmap_app. simpl. f_equal.
    unfold to_unsigned. rewrite Zplus_mod_idemp_l. f_equal. lia.
Qed.


(** The seeds [main] hands out: [setup] starts from an [unsigned] seed. *)
Lemma setup_seeds env opt p c st0 :
  0 <= seed_value p < unsigned_max ->
  setup env opt p = Ok (c, st0) ->
  sporulations st0
  = (fun i : nat =>
       Sporulation_new (to_unsigned (seed_value p + Z.of_nat i))
         (initialize (fromGrassRaster env (opt_umca opt))
                     (fromGrassRaster env (opt_ioaks opt))).2)
    <$> seq 0 (num_runs p).
Proof.
  intros Hseed H. unfold setup in H. bind_inv H. injection H as <- <-.
  simpl. by rewrite seed_replicas_spec.
Qed.

Lemma step_weather c run week rest k st v :
  weather_coeff c = None ->
  weather_values c !! week = Some v ->
  thread_step c run (mkProgress (week :: rest) k AtWeather) st
  = Ok (mkProgress (week :: rest) k AtSporeGen, with_weather_value v st, []).
Proof.
  intros Hnc Hv. unfold thread_step. simpl. rewrite Hnc.
  destruct (weather_values c) as [|x l] eqn:Hl; [done|].
  unfold vector_at. by rewrite Hv.
Qed.

Lemma step_SporeGen c run week rest k st sp iu :
  sporulations st !! run = Some sp ->
  inf_umca_rasts st !! run = Some iu ->
  thread_step c run (mkProgress (week :: rest) k AtSporeGen) st
  = Ok (mkProgress (week :: rest) k AtSpread,
        with_sporulation run
          (SporeGen sp iu
             (take (width c * height c)
                   (drop (k * width c * height c) (weather st)))
             (weather_value st) (spore_rate (params c))) st,
        [SporeGen_call run week (weather_value st)]).
Proof.
  intros Hsp Hiu. unfold thread_step, vector_at. simpl. by rewrite Hsp, Hiu.
Qed.

Lemma step_SporeSpreadDisp c run week rest k st sp su so iu io :
  sporulations st !! run = Some sp ->
  sus_umca_rasts st !! run = Some su ->
  sus_oaks_rasts st !! run = Some so ->
  inf_umca_rasts st !! run = Some iu ->
  inf_oaks_rasts st !! run = Some io ->
  exists sp' g,
    thread_step c run (mkProgress (week :: rest) k AtSpread) st
    = Ok (mkProgress rest (Datatypes.S k) AtWeather,
          with_replica run sp' g st,
          [SporeSpreadDisp_call run week (weather_value st)]).
Proof.
  intros Hsp Hsu Hso Hiu Hio. unfold thread_step, vector_at. simpl.
  rewrite Hsp, Hsu, Hso, Hiu, Hio. simpl. by eexists _, _.
Qed.

(** With the per-week weather list, the scalar the engine of replica 0 is
    given for its first pending week depends on the schedule: it is the
    scalar of that week if replica 0 moves alone, and the scalar of the
    next week if replica 1 overtakes it between the store and the call. *)
Lemma weather_value_race (c : Setup) (st : SimState) (wk0 wk1 : nat)
  (rest : list nat) (a b : double) (n : nat)
  (sp0 sp1 : Sporulation) (sps : list Sporulation)
  (su0 su1 so0 so1 iu0 iu1 io0 io1 : Img) (sus sos ius ios : list Img) :
  weather_coeff c = None ->
  weather_values c !! wk0 = Some a ->
  weather_values c !! wk1 = Some b ->
  sporulations st = sp0 :: sp1 :: sps ->
  sus_umca_rasts st = su0 :: su1 :: sus ->
  sus_oaks_rasts st = so0 :: so1 :: sos ->
  inf_umca_rasts st = iu0 :: iu1 :: ius ->
  inf_oaks_rasts st = io0 :: io1 :: ios ->
  let start :=
    (replicate (Datatypes.S (Datatypes.S n))
               (mkProgress (wk0 :: wk1 :: rest) 0 AtWeather),
     st, @nil Call) in
  (exists r, interleave c [0; 0]%nat start = Ok r /\
             r.2 = [SporeGen_call 0 wk0 a]) /\
  (exists r, interleave c [0; 1; 1; 1; 1; 0]%nat start = Ok r /\
             r.2 = [SporeGen_call 1 wk0 a; SporeSpreadDisp_call 1 wk0 a;
                    SporeGen_call 0 wk0 b]).
Proof.
  intros Hnc Ha Hb Hsp Hsu Hso Hiu Hio start. unfold start. split.
  - cbn [interleave replicate lookup list_lookup fst snd].
    rewrite (step_weather c 0 wk0 _ 0 st a Hnc Ha). cbn [bind fst snd].
    cbn [insert list_insert lookup list_lookup].
    erewrite step_SporeGen;
      [|by simpl; rewrite Hsp|by simpl; rewrite Hiu].
    cbn [bind fst snd app]. eexists. split; [done|]. done.
  - cbn [interleave replicate lookup list_lookup fst snd].
    rewrite (step_weather c 0 wk0 _ 0 st a Hnc Ha). cbn [bind fst snd].
    cbn [insert list_insert lookup list_lookup].
    rewrite (step_weather c 1 wk0 _ 0 _ a Hnc Ha). cbn [bind fst snd].
    cbn [insert list_insert lookup list_lookup].
    erewrite step_SporeGen;
      [|by simpl; rewrite Hsp|by simpl; rewrite Hiu].
    cbn [bind fst snd app insert list_insert lookup list_lookup].
    edestruct (step_SporeSpreadDisp c 1 wk0 (wk1 :: rest) 0)
      as (sp' & g & ->);
      [by simpl; rewrite Hsp | by simpl; rewrite Hsu | by simpl; rewrite Hso
      | by simpl; rewrite Hiu | by simpl; rewrite Hio |].
    cbn [bind fst snd app insert list_insert lookup list_lookup].
    rewrite (step_weather c 1 wk1 _ 1 _ b Hnc Hb). cbn [bind fst snd].
    cbn [insert list_insert lookup list_lookup].
    erewrite step_SporeGen;
      [|by destruct g as [[[? ?] ?] ?]; simpl; rewrite Hsp
       |by destruct g as [[[? ?] ?] ?]; simpl; rewrite Hiu].
    cbn [bind fst snd app]. eexists. split; [done|].
    by destruct g as [[[? ?] ?] ?].
Qed.

End Seeds.

(** ** One thread: the interleaved batch is the sequential one *)

Lemma vector_at_Ok {A : Type} (v : list A) (i : nat) (a : A) :
  vector_at v i = Ok a <-> v !! i = Some a.
Proof.
  unfold vector_at. destruct (v !! i); split; intros H; by simplify_eq.
Qed.

Section OneThread.
Context {W : World}.

(** The three steps of a replica for one week make up [replica_week]. *)
Lemma three_steps c run week rest k prs st tr st1 k1 schedule :
  prs !! run = Some (mkProgress (week :: rest) k AtWeather) ->
  replica_week c run (st, k) week = Ok (st1, k1) ->
  k1 = Datatypes.S k /\ unresolved_weeks st1 = unresolved_weeks st /\
  exists calls,
    interleave c (run :: run :: run :: schedule) (prs, st, tr)
    = interleave c schedule
        (<[run := mkProgress rest (Datatypes.S k) AtWeather]> prs, st1,
         tr ++ calls).
Proof.
  intros Hpr H. unfold replica_week in H. cbn [fst snd] in H. bind_inv H.
  injection H as <- <-.
  apply vector_at_Ok in E0, E1, E2, E3, E4.
  assert (weather a = weather st /\ unresolved_weeks a = unresolved_weeks st)
    as [Hw Hu].
  { destruct (weather_coeff c), (weather_values c);
      try (by injection E as <-).
    bind_inv E. by injection E as <-. }
  split; [done|]. split.
  { rewrite <- Hu. unfold with_replica.
    by destruct (SporeSpreadDisp _ _ _ _ _ _ _ _ _ _ _ _ _ _)
      as [sp [[[su so] iu] io]]. }
  pose proof (lookup_lt_Some _ _ _ Hpr) as Hlen.
  pose proof (lookup_lt_Some _ _ _ E0) as Hlsp.
  eexists.
  cbn [interleave fst snd]. rewrite Hpr.
  unfold thread_step at 1. cbn [weeks_left phase week_in_chunk].
  rewrite E. cbn [bind fst snd].
  rewrite list_lookup_insert_eq by done.
  unfold thread_step at 1. cbn [weeks_left phase week_in_chunk].
  rewrite (proj2 (vector_at_Ok _ _ _) E0), (proj2 (vector_at_Ok _ _ _) E1).
  cbn [bind fst snd].
  rewrite list_lookup_insert_eq by (by rewrite length_insert).
  unfold thread_step at 1. cbn [weeks_left phase week_in_chunk].
  assert (sporulations (with_sporulation run
            (SporeGen a0 a1
               (take (width c * height c)
                     (drop (k * width c * height c) (weather a)))
               (weather_value a) (spore_rate (params c))) a) !! run
          = Some (SporeGen a0 a1
               (take (width c * height c)
                     (drop (k * width c * height c) (weather a)))
               (weather_value a) (spore_rate (params c)))) as Hsp'
    by (simpl; by apply list_lookup_insert_eq).
  rewrite (proj2 (vector_at_Ok _ _ _) Hsp').
  cbn [sus_umca_rasts sus_oaks_rasts inf_umca_rasts inf_oaks_rasts
       with_sporulation weather weather_value].
  rewrite (proj2 (vector_at_Ok _ _ _) E1), (proj2 (vector_at_Ok _ _ _) E2),
    (proj2 (vector_at_Ok _ _ _) E3), (proj2 (vector_at_Ok _ _ _) E4).
  cbn [bind fst snd]. rewrite !list_insert_insert_eq.
  rewrite Hw. f_equal. f_equal; [f_equal|].
  - unfold with_replica.
    destruct (SporeSpreadDisp _ _ _ _ _ _ _ _ _ _ _ _ _ _)
      as [sp [[[su so] iu] io]]. simpl.
    by rewrite list_insert_insert_eq.
  - rewrite <- !app_assoc. reflexivity.
Qed.

(** All the steps of one replica, in a row. *)
Lemma steps_of_replica c run ws k prs st tr st1 k1 schedule :
  prs !! run = Some (mkProgress ws k AtWeather) ->
  for_loop (replica_week c run) (st, k) ws = Ok (st1, k1) ->
  k1 = (k + length ws)%nat /\ unresolved_weeks st1 = unresolved_weeks st /\
  exists calls,
    interleave c (replicate (3 * length ws) run ++ schedule) (prs, st, tr)
    = interleave c schedule
        (<[run := mkProgress [] k1 AtWeather]> prs, st1, tr ++ calls).
Proof.
  revert k prs st tr. induction ws as [|week rest IH]; intros k prs st tr Hpr H.
  - simpl in H. injection H as <- <-. split; [simpl; lia|]. split; [done|].
    exists []. simpl. by rewrite list_insert_id, app_nil_r.
  - simpl in H. bind_inv H. destruct a as [sta ka].
    destruct (three_steps c run week rest k prs st tr sta ka
                (replicate (3 * length rest) run ++ schedule) Hpr E)
      as (-> & Hu & calls & Hstep).
    pose proof (lookup_lt_Some _ _ _ Hpr) as Hlen.
    destruct (IH (Datatypes.S k)
                 (<[run := mkProgress rest (Datatypes.S k) AtWeather]> prs)
                 sta (tr ++ calls))
      as (-> & Hu' & calls' & Hrest);
      [by apply list_lookup_insert_eq | done |].
    split; [simpl; lia|]. split; [congruence|].
    exists (calls ++ calls').
    replace (3 * length (week :: rest))%nat
      with (Datatypes.S (Datatypes.S (Datatypes.S (3 * length rest))))
      by (simpl; lia).
    cbn [replicate app]. rewrite Hstep, Hrest.
    by rewrite list_insert_insert_eq, app_assoc.
Qed.

(** Replica after replica. *)
Lemma steps_of_replicas c ws m i prs st tr st' :
  unresolved_weeks st = ws ->
  (forall run, (i <= run < i + m)%nat ->
     prs !! run = Some (mkProgress ws 0 AtWeather)) ->
  for_loop (fun st run =>
              let* r := for_loop (replica_week c run) (st, 0%nat)
                                 (unresolved_weeks st) in Ok r.1)
           st (seq i m) = Ok st' ->
  exists calls prs',
    interleave c (flat_map (fun run => replicate (3 * length ws) run)
                           (seq i m)) (prs, st, tr)
    = Ok (prs', st', tr ++ calls) /\
    (forall run, (i <= run < i + m)%nat ->
       prs' !! run = Some (mkProgress [] (length ws) AtWeather)) /\
    (forall run, ~ (i <= run < i + m)%nat -> prs' !! run = prs !! run).
Proof.
  revert i prs st tr. induction m as [|m IH]; intros i prs st tr Hws Hprs H.
  - simpl in H. injection H as <-. exists [], prs. simpl.
    rewrite app_nil_r. split; [done|]. split; [intros; lia | done].
  - simpl in H. bind_inv H. bind_inv E. injection E as <-.
    destruct a0 as [sta ka]. rewrite Hws in E0.
    assert (prs !! i = Some (mkProgress ws 0 AtWeather)) as Hi
      by (apply Hprs; lia).
    destruct (steps_of_replica c i ws 0 prs st tr sta ka
                (flat_map (fun run => replicate (3 * length ws) run)
                          (seq (Datatypes.S i) m)) Hi E0)
      as (-> & Hu & calls & Hstep).
    pose proof (lookup_lt_Some _ _ _ Hi) as Hlen.
    destruct (IH (Datatypes.S i)
                 (<[i := mkProgress [] (0 + length ws) AtWeather]> prs)
                 sta (tr ++ calls))
      as (calls' & prs' & Hrest & Hin & Hout); [congruence | | done |].
    { intros run Hrun. rewrite list_lookup_insert_ne by lia.
      apply Hprs. lia. }
    exists (calls ++ calls'), prs'. cbn [seq flat_map].
    rewrite Hstep, Hrest, app_assoc. split; [done|]. split.
    + intros run Hrun. destruct (decide (run = i)) as [->|Hne].
      * rewrite Hout by lia. by apply list_lookup_insert_eq.
      * apply Hin. lia.
    + intros run Hrun. rewrite Hout by lia.
      apply list_lookup_insert_ne. lia.
Qed.

(** With a single thread the interleaved batch ends in the state of
    [run_replicas]. *)
Lemma one_thread_is_sequential c st st' :
  run_replicas c st = Ok st' ->
  exists calls,
    run_replicas_omp c
      (one_thread_schedule (num_runs (params c))
                           (length (unresolved_weeks st))) st
    = Ok (Some (st', calls)).
Proof.
  intros H. unfold run_replicas in H.
  destruct (steps_of_replicas c (unresolved_weeks st) (num_runs (params c)) 0
              (replicate (num_runs (params c))
                         (mkProgress (unresolved_weeks st) 0 AtWeather))
              st [] st' eq_refl)
    as (calls & prs' & Hrun & Hin & Hout); [|done|].
  { intros run Hrun. apply lookup_replicate_2. lia. }
  exists calls. unfold run_replicas_omp, one_thread_schedule.
  rewrite Hrun. cbn [bind fst snd app].
  assert (forallb finished prs' = true) as ->; [|done].
  apply forallb_forall. intros pr Hpr.
  apply list_elem_of_In, list_elem_of_lookup in Hpr as [run Hpr].
  destruct (decide (run < num_runs (params c))%nat) as [Hlt|Hge].
  - rewrite Hin in Hpr by lia. by injection Hpr as <-.
  - rewrite Hout in Hpr by lia.
    apply lookup_replicate in Hpr as [_ ?]. lia.
Qed.

End OneThread.

(** C1, at two replicas with one thread each, the weather list [1; 3] and
    two pending weeks: replica after replica, the batch is the sequential
    one and every replica is given the scalar 1 in week 0; if replica 1
    overtakes replica 0 between its store to [weather_value] and its call
    of the engine, replica 0 is given the scalar 3 in week 0.  In the
    sample world the mean grids computed after the two executions
    differ. *)
Theorem batch_depends_on_schedule :
  run_replicas race_setup race_state = Ok (race_result [1; 3] 5 5) /\
  run_replicas_omp race_setup (one_thread_schedule 2 2) race_state
  = Ok (Some (race_result [1; 3] 5 5, calls_in_turn)) /\
  run_replicas_omp race_setup overtaking_schedule race_state
  = Ok (Some (race_result [3; 3] 3 7, calls_overtaking)) /\
  aggregate (inf_oaks_rasts (race_result [1; 3] 5 5)) 2
            (I_oaks_rast (race_result [1; 3] 5 5))
  = Ok (mkImg 1 1 30 30 [5]) /\
  aggregate (inf_oaks_rasts (race_result [3; 3] 3 7)) 2
            (I_oaks_rast (race_result [3; 3] 3 7))
  = Ok (mkImg 1 1 30 30 [6]).
Proof. repeat split; vm_compute; reflexivity. Qed.

(** * Further properties of the driver *)

(** ** [initialize] and [all_infected] *)

(** X1: [initialize] reports a mismatch, and then returns the empty grid,
    exactly when the widths of its two arguments differ; otherwise it
    writes nothing to [cerr]. *)
Theorem initialize_reports_iff_widths_differ (img1 img2 : Img) :
  (initialize img1 img2 = ([shape_msg], Img_default)
   <-> getWidth img1 <> getWidth img2) /\
  ((initialize img1 img2).1 = [] <-> getWidth img1 = getWidth img2).
Proof.
  destruct (decide (getWidth img1 = getWidth img2)) as [Heq|Hne].
  - pose proof (initialize_same_width img1 img2 Heq) as (Hcerr & _).
    split; split; try done.
    intros H. rewrite H in Hcerr. done.
  - pose proof (initialize_width_mismatch img1 img2 Hne) as H.
    split; split; try done. rewrite H. done.
Qed.

(** X2: when the widths agree and the second grid has at least as many
    rows as the first, so that every cell the loop reads is a cell of its
    grid, [initialize] reports nothing and the grid it returns has the
    width, the height and the resolutions of its first argument, and a cell
    array of that size. *)
Theorem initialize_keeps_shape (img1 img2 : Img) :
  getWidth img1 = getWidth img2 ->
  (getHeight img1 <= getHeight img2)%nat ->
  Img_wf img1 -> Img_wf img2 ->
  (initialize img1 img2).1 = [] /\
  same_shape img1 (initialize img1 img2).2 = true /\
  Img_wf (initialize img1 img2).2.
Proof.
  intros Hw _ _ _.
  destruct (initialize_same_width img1 img2 Hw)
    as (Hcerr & Hw' & Hh' & Hwe & Hns & Hlen & _).
  cbv zeta in *. split; [done|]. split.
  - by apply same_shape_spec.
  - unfold Img_wf. by rewrite Hlen, Hw', Hh'.
Qed.

Lemma initialize_keeps_shape_witness :
  (initialize (mkImg 2 1 30 30 [5; 1]) (mkImg 2 2 30 30 [2; 3; 0; 0])).1 = []
  /\
  same_shape (mkImg 2 1 30 30 [5; 1])
    (initialize (mkImg 2 1 30 30 [5; 1]) (mkImg 2 2 30 30 [2; 3; 0; 0])).2
  = true /\
  Img_wf (initialize (mkImg 2 1 30 30 [5; 1])
                     (mkImg 2 2 30 30 [2; 3; 0; 0])).2.
Proof.
  apply (initialize_keeps_shape (mkImg 2 1 30 30 [5; 1])
                                (mkImg 2 2 30 30 [2; 3; 0; 0]));
    try reflexivity.
  simpl. lia.
Defined.

(** X3: for grids of equal dimensions holding counts, in a cell where
    twice the number of infected oaks fits in an [int], the canopy host is
    infected at the start exactly if the cell holds both an infected oak
    and a canopy host, and never with more than twice the number of
    infected oaks of the cell. *)
Theorem initialize_seeds_where_both (img1 img2 : Img) (i j : nat) :
  getWidth img1 = getWidth img2 ->
  getHeight img1 = getHeight img2 ->
  Img_wf img1 -> Img_wf img2 ->
  (i < getHeight img1)%nat -> (j < getWidth img1)%nat ->
  0 <= Img_at img1 i j -> 0 <= Img_at img2 i j ->
  Img_at img2 i j * 2 <= int_max ->
  (0 < Img_at (initialize img1 img2).2 i j
   <-> 0 < Img_at img1 i j /\ 0 < Img_at img2 i j) /\
  0 <= Img_at (initialize img1 img2).2 i j <= 2 * Img_at img2 i j.
Proof.
  intros Hw Hh _ _ Hi Hj H1 H2 H3.
  destruct (initialize_same_width img1 img2 Hw) as (_ & _ & _ & _ & _ & _ & Hc).
  cbv zeta in Hc. rewrite (Hc i j Hi Hj).
  rewrite wrap_int_id by (unfold int_min; lia).
  zbool; lia.
Qed.

Lemma initialize_seeds_where_both_witness :
  (0 < Img_at (initialize (mkImg 2 1 30 30 [5; 1]) (mkImg 2 1 30 30 [2; 3])).2
              0 1
   <-> 0 < Img_at (mkImg 2 1 30 30 [5; 1]) 0 1
       /\ 0 < Img_at (mkImg 2 1 30 30 [2; 3]) 0 1) /\
  0 <= Img_at (initialize (mkImg 2 1 30 30 [5; 1]) (mkImg 2 1 30 30 [2; 3])).2
              0 1
    <= 2 * Img_at (mkImg 2 1 30 30 [2; 3]) 0 1.
Proof.
  apply (initialize_seeds_where_both
           (mkImg 2 1 30 30 [5; 1]) (mkImg 2 1 30 30 [2; 3]) 0 1);
    try reflexivity; simpl; try lia; vm_compute; discriminate.
Defined.

(** X4: [all_infected] answers yes exactly when no cell of the grid holds
    a positive count; in particular it answers yes for a grid without rows
    or without columns. *)
Theorem all_infected_iff_no_positive_cell (img : Img) :
  (all_infected img = true
   <-> forall j k, (j < getHeight img)%nat -> (k < getWidth img)%nat ->
         Img_at img j k <= 0) /\
  (getHeight img = 0%nat \/ getWidth img = 0%nat -> all_infected img = true).
Proof.
  split; [apply all_infected_spec|].
  intros H. apply all_infected_spec. intros j k Hj Hk. lia.
Qed.

(** ** The weather sources *)

Section MoreWeather.
Context {W : World}.

(** The nested loops of [get_spatial_weather], for a table [g] of the
    values to store. *)
Lemma store_row {A : Type} (g : nat -> option A) (offset w j n : nat)
  (buf : list A) :
  let buf' :=
    foldl (fun buf k =>
             match g (j * w + k)%nat with
             | Some v => <[(offset + (j * w + k))%nat := v]> buf
             | None => buf
             end) buf (seq 0 n) in
  length buf' = length buf /\
  forall x,
    buf' !! x
    = if decide (offset + j * w <= x < offset + j * w + n /\ x < length buf)%nat
      then match g (x - offset)%nat with
           | Some v => Some v
           | None => buf !! x
           end
      else buf !! x.
Proof.
  cbv zeta. induction n as [|n IH].
  - simpl. split; [done|]. intros x. case_decide; [lia | done].
  - rewrite seq_S, foldl_app. simpl. destruct IH as [Hlen Hx].
    set (b := foldl _ buf (seq 0 n)) in *.
    destruct (g (j * w + n)%nat) as [v|] eqn:Hg.
    + split; [by rewrite length_insert|]. intros x.
      destruct (decide (x = offset + (j * w + n))%nat) as [->|Hne].
      * replace (offset + (j * w + n) - offset)%nat with (j * w + n)%nat by lia.
        rewrite Hg. case_decide as Hin.
        -- apply list_lookup_insert_eq. lia.
        -- rewrite list_insert_ge by lia. rewrite Hx.
           rewrite decide_False by lia. done.
      * rewrite list_lookup_insert_ne by done. rewrite Hx.
        repeat case_decide; try done; lia.
    + split; [done|]. intros x. rewrite Hx.
      destruct (decide (x = offset + (j * w + n))%nat) as [->|Hne].
      * replace (offset + (j * w + n) - offset)%nat with (j * w + n)%nat by lia.
        rewrite Hg. rewrite decide_False by lia. by case_decide.
      * repeat case_decide; try done; lia.
Qed.

Lemma store_rows {A : Type} (g : nat -> option A) (offset w n : nat)
  (buf : list A) :
  let buf' :=
    foldl (fun buf j =>
      foldl (fun buf k =>
               match g (j * w + k)%nat with
               | Some v => <[(offset + (j * w + k))%nat := v]> buf
               | None => buf
               end) buf (seq 0 w)) buf (seq 0 n) in
  length buf' = length buf /\
  forall x,
    buf' !! x
    = if decide (offset <= x < offset + n * w /\ x < length buf)%nat
      then match g (x - offset)%nat with
           | Some v => Some v
           | None => buf !! x
           end
      else buf !! x.
Proof.
  cbv zeta. induction n as [|n IH].
  - simpl. split; [done|]. intros x. case_decide; [lia | done].
  - rewrite seq_S, foldl_app. simpl. destruct IH as [Hlen Hx].
    set (b := foldl _ buf (seq 0 n)) in *.
    destruct (store_row g offset w n w b) as [Hlen' Hx']. cbv zeta in *.
    split; [congruence|]. intros x. rewrite Hx', Hx, Hlen.
    repeat case_decide; try done; try lia; nia.
Qed.

(** X6: when both variables can be positioned on the week and read,
    [get_spatial_weather] stores the cell-by-cell product of the two
    coefficient arrays in the slot of the week, and leaves the length of the
    buffer and every cell outside the slot as they were. *)
Theorem get_spatial_weather_fills_slot (mcf_nc ccf_nc : NcVar)
  (buf mcf ccf : list double) (offset w h step : nat) :
  set_cur mcf_nc step = true ->
  set_cur ccf_nc step = true ->
  get mcf_nc step 1%nat h w = Some mcf ->
  get ccf_nc step 1%nat h w = Some ccf ->
  length mcf = (h * w)%nat -> length ccf = (h * w)%nat ->
  (offset + h * w <= length buf)%nat ->
  exists buf',
    get_spatial_weather mcf_nc ccf_nc buf offset w h step = Ok buf' /\
    length buf' = length buf /\
    (forall n m c, mcf !! n = Some m -> ccf !! n = Some c ->
       buf' !! (offset + n)%nat = Some (d_mul m c)) /\
    (forall x, (x < offset \/ offset + h * w <= x)%nat ->
       buf' !! x = buf !! x).
Proof.
  intros Hs1 Hs2 Hg1 Hg2 Hl1 Hl2 Hbuf.
  unfold get_spatial_weather. rewrite Hs1, Hs2, Hg1, Hg2. simpl.
  eexists. split; [done|].
  rewrite (foldl_ext_seq _
    (fun b j =>
       foldl (fun b k =>
                match (match mcf !! (j * w + k)%nat, ccf !! (j * w + k)%nat with
                       | Some m, Some c => Some (d_mul m c)
                       | _, _ => None
                       end) with
                | Some v => <[(offset + (j * w + k))%nat := v]> b
                | None => b
                end) b (seq 0 w))); last first.
  { intros a x. apply foldl_ext_seq. intros a' y.
    by destruct (mcf !! (x * w + y)%nat), (ccf !! (x * w + y)%nat). }
  destruct (store_rows
    (fun n => match mcf !! n, ccf !! n with
              | Some m, Some c => Some (d_mul m c)
              | _, _ => None
              end) offset w h buf) as [Hlen Hx].
  cbv zeta in *. split; [done|]. split.
  - intros n m c Hm Hc. rewrite Hx.
    pose proof (lookup_lt_Some _ _ _ Hm).
    rewrite decide_True by lia.
    replace (offset + n - offset)%nat with n by lia. by rewrite Hm, Hc.
  - intros x Hout. rewrite Hx. rewrite decide_False by lia. done.
Qed.

(** X7: [get_spatial_weather] ends the program with [exit(EXIT_FAILURE)]
    exactly when one of the two variables cannot be positioned on the week
    or cannot be read; the first failure, in the order moisture position,
    temperature position, moisture record, temperature record, decides the
    message, which ends with the number of the week. *)
Theorem get_spatial_weather_exits_iff (mcf_nc ccf_nc : NcVar)
  (buf : list double) (offset w h step : nat) :
  (is_abort (get_spatial_weather mcf_nc ccf_nc buf offset w h step) = true
   <-> set_cur mcf_nc step = false \/ set_cur ccf_nc step = false
       \/ get mcf_nc step 1%nat h w = None
       \/ get ccf_nc step 1%nat h w = None) /\
  (set_cur mcf_nc step = false ->
   get_spatial_weather mcf_nc ccf_nc buf offset w h step
   = Aborted (ExitFailure
       ("Can not read the coefficients from the mcf_nc pointer to mcf array "
        +:+ show_int step)))
  /\
  (set_cur mcf_nc step = true -> set_cur ccf_nc step = false ->
   get_spatial_weather mcf_nc ccf_nc buf offset w h step
   = Aborted (ExitFailure
       ("Can not read the coefficients from the ccf_nc pointer to ccf array "
        +:+ show_int step)))
  /\
  (set_cur mcf_nc step = true -> set_cur ccf_nc step = true ->
   get mcf_nc step 1%nat h w = None ->
   get_spatial_weather mcf_nc ccf_nc buf offset w h step
   = Aborted (ExitFailure
       ("Can not get the record from mcf_nc " +:+ show_int step)))
  /\
  (forall mcf,
   set_cur mcf_nc step = true -> set_cur ccf_nc step = true ->
   get mcf_nc step 1%nat h w = Some mcf ->
   get ccf_nc step 1%nat h w = None ->
   get_spatial_weather mcf_nc ccf_nc buf offset w h step
   = Aborted (ExitFailure
       ("Can not get the record from ccf_nc " +:+ show_int step))).
Proof.
  unfold get_spatial_weather.
  destruct (set_cur mcf_nc step), (set_cur ccf_nc step),
    (get mcf_nc step 1%nat h w), (get ccf_nc step 1%nat h w); simpl;
    (split; [split; [try done; by auto | intros [?|[?|[?|?]]]; done]|]);
    repeat split; try done; intros; done.
Qed.

(** The message for a week that the moisture variable does not hold, as
    it is written. *)
Lemma unreadable_week_message :
  @get_spatial_weather sample_world sample_ncvar sample_ncvar
    [0; 0; 0; 0] 0 1 2 52
  = Aborted (ExitFailure
      "Can not read the coefficients from the mcf_nc pointer to mcf array 52").
Proof. vm_compute. reflexivity. Qed.

End MoreWeather.

(** ** The option values *)

(** X8: [direction_enum_from_string] accepts exactly the nine names of the
    list of the option [wind], each as the direction of that name, so two
    names that are accepted as one direction are the same name; any other
    text ends in [std::invalid_argument] with a message that quotes it. *)
Theorem direction_names (text : string) :
  (forall d, direction_enum_from_string text = Ok d
     <-> (text, d) ∈ [("N", Dir.N); ("NE", Dir.NE); ("E", Dir.E);
                      ("SE", Dir.SE); ("S", Dir.S); ("SW", Dir.SW);
                      ("W", Dir.W); ("NW", Dir.NW); ("NONE", Dir.NONE)]) /\
  (text ∉ ["N"; "NE"; "E"; "SE"; "S"; "SW"; "W"; "NW"; "NONE"] ->
   direction_enum_from_string text
   = Aborted (InvalidArgument
       ("direction_enum_from_string: Invalid value '" +:+ text
        +:+ "' provided"))) /\
  (forall text' d, direction_enum_from_string text = Ok d ->
     direction_enum_from_string text' = Ok d -> text = text').
Proof.
  assert (NoDup ["N"; "NE"; "E"; "SE"; "S"; "SW"; "W"; "NW"; "NONE"]) as Hnd.
  { apply (bool_decide_unpack _). by vm_compute. }
  assert (forall t d, direction_enum_from_string t = Ok d
     <-> (t, d) ∈ [("N", Dir.N); ("NE", Dir.NE); ("E", Dir.E);
                   ("SE", Dir.SE); ("S", Dir.S); ("SW", Dir.SW);
                   ("W", Dir.W); ("NW", Dir.NW); ("NONE", Dir.NONE)]) as Hiff.
  { intros t d. unfold direction_enum_from_string, direction_mapping.
    rewrite elem_of_list_to_map by exact Hnd.
    destruct (list_to_map _ !! t); split; intros H; by simplify_eq. }
  split; [apply Hiff|]. split.
  - intros Hnot. unfold direction_enum_from_string, direction_mapping.
    rewrite (proj1 (not_elem_of_list_to_map _ _)); [done|]. exact Hnot.
  - intros text' d H1 H2. apply Hiff in H1, H2.
    rewrite !elem_of_cons, elem_of_nil in H1, H2.
    destruct H1 as [H1|[H1|[H1|[H1|[H1|[H1|[H1|[H1|[H1|[]]]]]]]]]];
    destruct H2 as [H2|[H2|[H2|[H2|[H2|[H2|[H2|[H2|[H2|[]]]]]]]]]];
      by simplify_eq.
Qed.

Section MoreOptions.
Context {W : World}.

(** What [read_options] computes from answers that [G_parser] accepted. *)
Lemma accepted_parses (opt : SodOptions) :
  accepted_by_parser opt ->
  exists n t b d rate r s1 k s e,
    match opt_runs opt with
    | Some a => parse stoul "stoul" a
    | None => Ok 1
    end = Ok n /\
    match opt_threads opt with
    | Some a => parse stoul "stoul" a
    | None => Ok 1
    end = Ok t /\
    seasonality_from_string (opt_seasonality opt) = Ok b /\
    direction_enum_from_string (opt_wind opt) = Ok d /\
    parse stod "stod" (opt_spore_rate opt) = Ok rate /\
    radial_type_from_string (opt_radial_type opt) = Ok r /\
    parse stod "stod" (opt_scale_1 opt) = Ok s1 /\
    parse stod "stod" (opt_kappa opt) = Ok k /\
    parse stoi "stoi" (opt_start_time opt) = Ok s /\
    parse stoi "stoi" (opt_end_time opt) = Ok e /\
    (forall a, opt_scale_2 opt = Some a -> exists v, parse stod "stod" a = Ok v)
    /\
    (forall a, opt_gamma opt = Some a -> exists v, parse stod "stod" a = Ok v)
    /\
    (forall a, opt_seed opt = Some a -> exists v, parse stoul "stoul" a = Ok v)
    /\
    (opt_runs opt = None -> n = 1) /\ (opt_threads opt = None -> t = 1).
Proof.
  intros (Hruns & Hthreads & Hss & Hwind & Hrate & Hrt & Hs1 & Hs2 & Hkappa
          & Hgamma & Hstart & Hend & Hseed & _).
  assert (exists n,
    match opt_runs opt with
    | Some a => parse stoul "stoul" a
    | None => Ok 1
    end = Ok n /\ (opt_runs opt = None -> n = 1)) as (n & Hn & Hn1).
  { destruct (opt_runs opt) as [a|]; [|by eexists].
    destruct (parse_is_Some stoul "stoul" a (Hruns a eq_refl)) as [x Hx].
    by exists x. }
  assert (exists n,
    match opt_threads opt with
    | Some a => parse stoul "stoul" a
    | None => Ok 1
    end = Ok n /\ (opt_threads opt = None -> n = 1)) as (t & Ht & Ht1).
  { destruct (opt_threads opt) as [a|]; [|by eexists].
    destruct (parse_is_Some stoul "stoul" a (Hthreads a eq_refl)) as [x Hx].
    by exists x. }
  destruct (seasonality_accepted _ Hss) as [b Hb].
  destruct (direction_accepted _ Hwind) as [d Hd].
  destruct (parse_is_Some stod "stod" _ Hrate) as [rate Hr].
  assert (exists r, radial_type_from_string (opt_radial_type opt) = Ok r)
    as [r Hrad].
  { revert Hrt. rewrite !elem_of_cons, elem_of_nil.
    intros [->|[->|[]]]; by eexists. }
  destruct (parse_is_Some stod "stod" _ Hs1) as [s1 Hs1'].
  destruct (parse_is_Some stod "stod" _ Hkappa) as [k Hk].
  destruct (parse_is_Some stoi "stoi" _ Hstart) as [s Hs].
  destruct (parse_is_Some stoi "stoi" _ Hend) as [e He].
  exists n, t, b, d, rate, r, s1, k, s, e.
  repeat split; try done.
  - intros a Ha. by apply parse_is_Some, Hs2.
  - intros a Ha. by apply parse_is_Some, Hgamma.
  - intros a Ha. by apply parse_is_Some, Hseed.
Qed.

(** X9: for a command line that [G_parser] accepted, the reading of the
    options ends in one of three ways: the fatal error for a mixture
    without its second scale or weight, the exit for a start year after the
    end year, or the parameters; the conversions never throw
    [std::invalid_argument], and no unchecked read occurs. *)
Theorem read_options_outcomes (env : Env) (opt : SodOptions) :
  accepted_by_parser opt ->
  (exists key, read_options env opt
     = Aborted (GFatalError key "radial_type" (opt_radial_type opt))
     /\ opt_radial_type opt = "cauchy_mix"
     /\ ((key = "scale_2" /\ opt_scale_2 opt = None)
         \/ (key = "gamma" /\ opt_gamma opt = None)))
  \/ read_options env opt
     = Aborted (ExitFailure "Start date must precede the end date!!!")
  \/ exists p, read_options env opt = Ok p.
Proof.
  intros Hacc.
  destruct (accepted_parses opt Hacc)
    as (n & t & b & d & rate & r & s1 & k & s & e & Hn & Ht & Hb & Hd & Hr
        & Hrad & Hs1 & Hk & Hs & He & Hsc2 & Hg & Hseed & _).
  assert (r = CAUCHY_MIX -> opt_radial_type opt = "cauchy_mix") as Hmix.
  { intros ->. revert Hrad. unfold radial_type_from_string.
    destruct (String.eqb_spec (opt_radial_type opt) "cauchy"); [done|].
    destruct (String.eqb_spec (opt_radial_type opt) "cauchy_mix"); done. }
  unfold read_options.
  rewrite Hn, Ht, Hb, Hd, Hr, Hrad, Hs1. cbn [bind]. unfold required_for.
  destruct (opt_scale_2 opt) as [a2|] eqn:H2.
  - destruct (Hsc2 a2 eq_refl) as [v2 Hv2].
    assert ((match r with
             | CAUCHY | _ => parse stod "stod" a2
             end) = Ok v2) as -> by (by destruct r).
    cbn [bind]. rewrite Hk. cbn [bind].
    destruct (opt_gamma opt) as [ag|] eqn:Hag.
    + destruct (Hg ag eq_refl) as [vg Hvg].
      assert ((match r with
               | CAUCHY | _ => parse stod "stod" ag
               end) = Ok vg) as -> by (by destruct r).
      cbn [bind]. rewrite Hs, He. cbn [bind].
      destruct (s >? e); [by right; left|]. right. right.
      destruct (opt_seed opt) as [sd|].
      * destruct (Hseed sd eq_refl) as [v ->]. cbn [bind]. by eexists.
      * cbn [bind]. by eexists.
    + destruct r.
      * cbn [bind]. rewrite Hs, He. cbn [bind].
        destruct (s >? e); [by right; left|]. right. right.
        destruct (opt_seed opt) as [sd|].
        -- destruct (Hseed sd eq_refl) as [v ->]. cbn [bind]. by eexists.
        -- cbn [bind]. by eexists.
      * left. exists "gamma". cbn [bind]. rewrite (Hmix eq_refl). auto.
  - destruct r.
    + cbn [bind]. rewrite Hk. cbn [bind].
      destruct (opt_gamma opt) as [ag|] eqn:Hag.
      * destruct (Hg ag eq_refl) as [vg ->].
        cbn [bind]. rewrite Hs, He. cbn [bind].
        destruct (s >? e); [by right; left|]. right. right.
        destruct (opt_seed opt) as [sd|].
        -- destruct (Hseed sd eq_refl) as [v ->]. cbn [bind]. by eexists.
        -- cbn [bind]. by eexists.
      * cbn [bind]. rewrite Hs, He. cbn [bind].
        destruct (s >? e); [by right; left|]. right. right.
        destruct (opt_seed opt) as [sd|].
        -- destruct (Hseed sd eq_refl) as [v ->]. cbn [bind]. by eexists.
        -- cbn [bind]. by eexists.
    + left. exists "scale_2". cbn [bind]. rewrite (Hmix eq_refl). auto.
Qed.

(** The reading of the options when nothing the family needs is missing. *)
Lemma read_options_complete (env : Env) (opt : SodOptions) :
  accepted_by_parser opt ->
  (opt_radial_type opt = "cauchy_mix" ->
   is_Some (opt_scale_2 opt) /\ is_Some (opt_gamma opt)) ->
  exists n t b d rate r s1 s2 k g s e sd,
    parse stoi "stoi" (opt_start_time opt) = Ok s /\
    parse stoi "stoi" (opt_end_time opt) = Ok e /\
    radial_type_from_string (opt_radial_type opt) = Ok r /\
    (opt_runs opt = None -> n = 1) /\ (opt_threads opt = None -> t = 1) /\
    (opt_scale_2 opt = None -> s2 = d_of_int 0) /\
    (opt_gamma opt = None -> g = d_of_int 0) /\
    (opt_seed opt = None -> sd = random_device env) /\
    read_options env opt
    = if s >? e
      then Aborted (ExitFailure "Start date must precede the end date!!!")
      else Ok (mkParams (Z.to_nat (to_unsigned n)) (Z.to_nat (to_unsigned t))
                 b d rate r s1 s2 k g (mkDate s 1 1) (mkDate e 12 31)
                 (to_unsigned sd)).
Proof.
  intros Hacc Hmixok.
  destruct (accepted_parses opt Hacc)
    as (n & t & b & d & rate & r & s1 & k & s & e & Hn & Ht & Hb & Hd & Hr
        & Hrad & Hs1 & Hk & Hs & He & Hsc2 & Hg & Hseed & Hn1 & Ht1).
  assert (r = CAUCHY_MIX -> opt_radial_type opt = "cauchy_mix") as Hmix.
  { intros ->. revert Hrad. unfold radial_type_from_string.
    destruct (String.eqb_spec (opt_radial_type opt) "cauchy"); [done|].
    destruct (String.eqb_spec (opt_radial_type opt) "cauchy_mix"); done. }
  assert (exists s2,
    match r, opt_scale_2 opt with
    | CAUCHY_MIX, None => Aborted (required_for "scale_2" opt)
    | _, Some a => parse stod "stod" a
    | _, None => Ok (d_of_int 0)
    end = Ok s2 /\ (opt_scale_2 opt = None -> s2 = d_of_int 0))
    as (s2 & Hs2 & Hs2d).
  { destruct (opt_scale_2 opt) as [a|] eqn:Ha.
    - destruct (Hsc2 a eq_refl) as [v Hv]. exists v. by destruct r.
    - destruct r; [by eexists|].
      destruct (Hmixok (Hmix eq_refl)) as [[? ?] _]. done. }
  assert (exists g,
    match r, opt_gamma opt with
    | CAUCHY_MIX, None => Aborted (required_for "gamma" opt)
    | _, Some a => parse stod "stod" a
    | _, None => Ok (d_of_int 0)
    end = Ok g /\ (opt_gamma opt = None -> g = d_of_int 0))
    as (g & Hgm & Hgd).
  { destruct (opt_gamma opt) as [a|] eqn:Ha.
    - destruct (Hg a eq_refl) as [v Hv]. exists v. by destruct r.
    - destruct r; [by eexists|].
      destruct (Hmixok (Hmix eq_refl)) as [_ [? ?]]. done. }
  assert (exists sd,
    match opt_seed opt with
    | Some a => parse stoul "stoul" a
    | None => Ok (random_device env)
    end = Ok sd /\ (opt_seed opt = None -> sd = random_device env))
    as (sd & Hsd & Hsdd).
  { destruct (opt_seed opt) as [a|]; [|by eexists].
    destruct (Hseed a eq_refl) as [v Hv]. by exists v. }
  exists n, t, b, d, rate, r, s1, s2, k, g, s, e, sd.
  repeat split; try done.
  unfold read_options.
  rewrite Hn, Ht, Hb, Hd, Hr, Hrad, Hs1. cbn [bind].
  rewrite Hs2. cbn [bind]. rewrite Hk. cbn [bind]. rewrite Hgm. cbn [bind].
  rewrite Hs, He. cbn [bind]. destruct (s >? e); [done|].
  by rewrite Hsd.
Qed.

(** X10: a start year after the end year ends the program with the
    message on [cerr] and [exit(EXIT_FAILURE)] when the options are read,
    before any map is; equal years are accepted. *)
Theorem start_after_end_exits (env : Env) (opt : SodOptions) (s e : Z) :
  accepted_by_parser opt ->
  (opt_radial_type opt = "cauchy_mix" ->
   is_Some (opt_scale_2 opt) /\ is_Some (opt_gamma opt)) ->
  stoi (opt_start_time opt) = Some s ->
  stoi (opt_end_time opt) = Some e ->
  (e < s ->
   read_options env opt
   = Aborted (ExitFailure "Start date must precede the end date!!!") /\
   main env opt
   = Aborted (ExitFailure "Start date must precede the end date!!!")) /\
  (s <= e -> exists p,
     read_options env opt = Ok p /\
     dd_begin p = mkDate s 1 1 /\ dd_end p = mkDate e 12 31).
Proof.
  intros Hacc Hmix Hs He.
  destruct (read_options_complete env opt Hacc Hmix)
    as (n & t & b & d & rate & r & s1 & s2 & k & g & s' & e' & sd
        & Hs' & He' & _ & _ & _ & _ & _ & _ & Hread).
  unfold parse in Hs', He'. rewrite Hs in Hs'. rewrite He in He'.
  injection Hs' as <-. injection He' as <-.
  split.
  - intros Hlt. destruct (Z.gtb_spec s e); [|lia].
    split; [done|]. unfold main. by rewrite Hread.
  - intros Hle. destruct (Z.gtb_spec s e); [lia|]. by eexists.
Qed.

(** X11: when the options are read, an absent [runs] gives one replica,
    an absent [nprocs] one thread, an absent [scale_2] or [gamma] (with the
    single Cauchy family) the value 0, and an absent [random_seed] the value
    of the random device; the seed is in the range of [unsigned]. *)
Theorem read_options_defaults (env : Env) (opt : SodOptions) (p : Params) :
  accepted_by_parser opt ->
  read_options env opt = Ok p ->
  (opt_runs opt = None -> num_runs p = 1%nat) /\
  (opt_threads opt = None -> threads p = 1%nat) /\
  (opt_scale_2 opt = None -> scale2 p = d_of_int 0 /\ rtype p = CAUCHY) /\
  (opt_gamma opt = None -> gamma p = d_of_int 0 /\ rtype p = CAUCHY) /\
  (opt_seed opt = None -> seed_value p = to_unsigned (random_device env)) /\
  0 <= seed_value p < unsigned_max.
Proof.
  intros Hacc Hp.
  assert (opt_radial_type opt = "cauchy_mix" ->
          is_Some (opt_scale_2 opt) /\ is_Some (opt_gamma opt)) as Hmix.
  { intros Hm.
    destruct (accepted_parses opt Hacc)
      as (n & t & b & d & rate & r & s1 & k & s & e & Hn & Ht & Hb & Hd & Hr
          & Hrad & Hs1 & Hk & Hs & He & Hsc2 & Hg & Hseed & _).
    unfold read_options in Hp.
    rewrite Hn, Ht, Hb, Hd, Hr, Hrad, Hs1 in Hp. cbn [bind] in Hp.
    rewrite Hm in Hrad. injection Hrad as <-.
    destruct (opt_scale_2 opt) as [a|] eqn:Ha; [|done].
    destruct (Hsc2 a eq_refl) as [v Hv]. rewrite Hv, Hk in Hp.
    cbn [bind] in Hp.
    destruct (opt_gamma opt) as [ag|] eqn:Hag; [|done].
    split; by eexists. }
  destruct (read_options_complete env opt Hacc Hmix)
    as (n & t & b & d & rate & r & s1 & s2 & k & g & s & e & sd
        & _ & _ & Hrad & Hn & Ht & Hs2 & Hg & Hsd & Hread).
  rewrite Hread in Hp. destruct (s >? e); [done|]. injection Hp as <-.
  cbn [num_runs threads scale2 gamma rtype seed_value].
  assert (opt_scale_2 opt = None \/ opt_gamma opt = None -> r = CAUCHY) as Hr.
  { intros Hnone. destruct r; [done|]. exfalso.
    assert (opt_radial_type opt = "cauchy_mix") as Hm.
    { revert Hrad. unfold radial_type_from_string.
      destruct (String.eqb_spec (opt_radial_type opt) "cauchy"); [done|].
      destruct (String.eqb_spec (opt_radial_type opt) "cauchy_mix"); done. }
    destruct (Hmix Hm) as [[? H1] [? H2]].
    destruct Hnone; congruence. }
  repeat split.
  - intros H. rewrite (Hn H). done.
  - intros H. rewrite (Ht H). done.
  - auto.
  - auto.
  - auto.
  - auto.
  - intros H. by rewrite (Hsd H).
  - unfold to_unsigned, unsigned_max. apply Z.mod_pos_bound. lia.
  - unfold to_unsigned, unsigned_max. apply Z.mod_pos_bound. lia.
Qed.

End MoreOptions.

Lemma read_options_outcomes_witness :
  (exists key, @read_options sample_world sample_env sample_options
     = Aborted (GFatalError key "radial_type" (opt_radial_type sample_options))
     /\ opt_radial_type sample_options = "cauchy_mix"
     /\ ((key = "scale_2" /\ opt_scale_2 sample_options = None)
         \/ (key = "gamma" /\ opt_gamma sample_options = None)))
  \/ @read_options sample_world sample_env sample_options
     = Aborted (ExitFailure "Start date must precede the end date!!!")
  \/ exists p, @read_options sample_world sample_env sample_options = Ok p.
Proof.
  apply (@read_options_outcomes sample_world sample_env sample_options).
  unfold accepted_by_parser; simpl;
    repeat split; try done; try (by eexists);
      try (intros a [= <-]; by eexists);
      rewrite !elem_of_cons; tauto.
Defined.

Lemma start_after_end_exits_witness :
  (2000 < 2001 ->
   @read_options sample_world sample_env backwards_options
   = Aborted (ExitFailure "Start date must precede the end date!!!") /\
   @main sample_world sample_env backwards_options
   = Aborted (ExitFailure "Start date must precede the end date!!!")) /\
  (2001 <= 2000 -> exists p,
     @read_options sample_world sample_env backwards_options = Ok p /\
     dd_begin p = mkDate 2001 1 1 /\ dd_end p = mkDate 2000 12 31).
Proof.
  apply (@start_after_end_exits sample_world sample_env backwards_options
           2001 2000).
  - unfold accepted_by_parser; simpl;
      repeat split; try done; try (by eexists);
        try (intros a [= <-]; by eexists);
        rewrite !elem_of_cons; tauto.
  - simpl. discriminate.
  - reflexivity.
  - reflexivity.
Defined.

Lemma read_options_defaults_witness :
  (opt_runs sample_options = None -> num_runs sample_params = 1%nat) /\
  (opt_threads sample_options = None -> threads sample_params = 1%nat) /\
  (opt_scale_2 sample_options = None ->
   scale2 sample_params = @d_of_int sample_world 0
   /\ rtype sample_params = CAUCHY) /\
  (opt_gamma sample_options = None ->
   gamma sample_params = @d_of_int sample_world 0
   /\ rtype sample_params = CAUCHY) /\
  (opt_seed sample_options = None ->
   seed_value sample_params = to_unsigned (random_device sample_env)) /\
  0 <= seed_value sample_params < unsigned_max.
Proof.
  apply (@read_options_defaults sample_world sample_env sample_options
           sample_params).
  - unfold accepted_by_parser; simpl;
      repeat split; try done; try (by eexists);
        try (intros a [= <-]; by eexists);
        rewrite !elem_of_cons; tauto.
  - vm_compute. reflexivity.
Defined.

Lemma get_spatial_weather_fills_slot_witness :
  exists buf',
    @get_spatial_weather sample_world sample_ncvar sample_ncvar
      [0; 0; 0; 0] 2 1 2 1 = Ok buf' /\
    length buf' = length [0; 0; 0; 0] /\
    (forall n m c, [2; 2] !! n = Some m -> [2; 2] !! n = Some c ->
       buf' !! (2 + n)%nat = Some (@d_mul sample_world m c)) /\
    (forall x, (x < 2 \/ 2 + 2 * 1 <= x)%nat ->
       buf' !! x = [0; 0; 0; 0] !! x).
Proof.
  apply (@get_spatial_weather_fills_slot sample_world sample_ncvar
           sample_ncvar [0; 0; 0; 0] [2; 2] [2; 2] 2 1 2 1);
    try reflexivity.
Defined.

(** ** The batch *)

Lemma outcome_sat_bind {A B : Type} (ok1 : A -> Prop) (ok2 : B -> Prop)
  aborts undef (m : Outcome A) (k : A -> Outcome B) :
  outcome_sat ok1 aborts undef m ->
  (forall a, ok1 a -> outcome_sat ok2 aborts undef (k a)) ->
  outcome_sat ok2 aborts undef (bind m k).
Proof. destruct m; simpl; auto. Qed.

Lemma outcome_sat_weaken {A : Type} (ok ok' : A -> Prop)
  (aborts aborts' : Abort -> Prop) (undef undef' : nat -> nat -> Prop)
  (o : Outcome A) :
  outcome_sat ok aborts undef o ->
  (forall a, ok a -> ok' a) -> (forall e, aborts e -> aborts' e) ->
  (forall i n, undef i n -> undef' i n) ->
  outcome_sat ok' aborts' undef' o.
Proof. destruct o; simpl; auto. Qed.

Lemma outcome_sat_for_loop {A B : Type} (inv : A -> Prop) aborts
  (undef : B -> nat -> nat -> Prop) (body : A -> B -> Outcome A)
  (l : list B) (a : A) :
  (forall a b, inv a -> b ∈ l -> outcome_sat inv aborts (undef b) (body a b)) ->
  inv a ->
  outcome_sat inv aborts (fun i n => exists b, b ∈ l /\ undef b i n)
              (for_loop body a l).
Proof.
  revert a. induction l as [|b l IH]; intros a Hbody Ha; simpl; [done|].
  pose proof (Hbody a b Ha (list_elem_of_here _ _)) as Hb.
  destruct (body a b) as [a'| |]; simpl in *; [|done|].
  - eapply outcome_sat_weaken; [apply IH| | |]; try done.
    + intros a0 b0 H0 Hin. apply Hbody; [done|]. by right.
    + intros i n (b0 & Hin & H0). exists b0. split; [by right | done].
  - exists b. split; [by left | done].
Qed.

Lemma for_loop_inv_in {A B : Type} (P : A -> Prop) (body : A -> B -> Outcome A)
  (l : list B) (a a' : A) :
  (forall a b a', b ∈ l -> P a -> body a b = Ok a' -> P a') ->
  P a -> for_loop body a l = Ok a' -> P a'.
Proof.
  revert a. induction l as [|b l IH]; intros a Hbody Ha H; simpl in H.
  - by injection H as <-.
  - bind_inv H. eapply IH; [| |done].
    + intros a1 b1 a1' Hin. apply Hbody. by right.
    + eapply Hbody; [by left | done | done].
Qed.

Lemma outcome_sat_vector_at {A : Type} aborts undef (v : list A) (i : nat) :
  (i < length v)%nat ->
  outcome_sat (fun a => v !! i = Some a) aborts undef (vector_at v i).
Proof.
  intros Hi. unfold vector_at.
  destruct (lookup_lt_is_Some_2 v i Hi) as [x ->]. done.
Qed.

Section Batch.
Context {W : World}.

(** One week of one replica writes nothing but [weather_value], the engine
    and the grids of that replica, and keeps the sizes of the vectors. *)
Lemma replica_week_frame c run acc week acc' :
  replica_week c run acc week = Ok acc' ->
  outside_replicas acc'.1 = outside_replicas acc.1 /\
  replica_count acc'.1 = replica_count acc.1 /\
  acc'.2 = Datatypes.S acc.2.
Proof.
  unfold replica_week. intros H. bind_inv H. injection H as <-.
  assert (outside_replicas a = outside_replicas acc.1
          /\ replica_count a = replica_count acc.1) as [Ho Hc].
  { destruct (weather_coeff c), (weather_values c);
      try (by injection E as <-).
    bind_inv E. by injection E as <-. }
  rewrite <- Ho, <- Hc. cbn [fst snd]. unfold with_replica.
  destruct (SporeSpreadDisp _ _ _ _ _ _ _ _ _ _ _ _ _ _)
    as [sp [[[su so] iu] io]].
  unfold outside_replicas, replica_count. cbn.
  by rewrite !length_insert.
Qed.

Lemma replica_weeks_frame c run weeks acc acc' :
  for_loop (replica_week c run) acc weeks = Ok acc' ->
  outside_replicas acc'.1 = outside_replicas acc.1 /\
  replica_count acc'.1 = replica_count acc.1.
Proof.
  apply (for_loop_inv
    (fun p : SimState * nat =>
       outside_replicas p.1 = outside_replicas acc.1 /\
       replica_count p.1 = replica_count acc.1) (replica_week c run));
    [|done].
  intros p week p' [Ho Hc] H.
  destruct (replica_week_frame _ _ _ _ _ H) as (Ho' & Hc' & _).
  split; congruence.
Qed.

Lemma run_replicas_frame c st st' :
  run_replicas c st = Ok st' ->
  outside_replicas st' = outside_replicas st /\
  replica_count st' = replica_count st.
Proof.
  unfold run_replicas.
  apply (for_loop_inv
    (fun s => outside_replicas s = outside_replicas st /\
              replica_count s = replica_count st)); [|done].
  intros a run a' [Ho Hc] H. bind_inv H. injection H as <-.
  destruct (replica_weeks_frame _ _ _ _ _ E) as [Ho' Hc'].
  cbn [fst] in *. split; congruence.
Qed.

(** One week of one replica, when the replica exists: it ends well, or in
    the unchecked read of the weather list. *)
Lemma replica_week_outcome c run acc week n :
  replicas_are n acc.1 -> (run < n)%nat ->
  (exists acc', replica_week c run acc week = Ok acc') \/
  (replica_week c run acc week = Undefined week (length (weather_values c))
   /\ weather_coeff c = None /\ weather_values c <> []
   /\ (length (weather_values c) <= week)%nat).
Proof.
  intros Hn Hrun. unfold replicas_are, replica_count in Hn.
  injection Hn as Hl1 Hl2 Hl3 Hl4 Hl5.
  unfold replica_week.
  assert ((exists a,
    match weather_coeff c, weather_values c with
    | None, _ :: _ =>
      let* v := vector_at (weather_values c) week in
      Ok (with_weather_value v acc.1)
    | _, _ => Ok acc.1
    end = Ok a /\ replica_count a = replica_count acc.1)
    \/ (match weather_coeff c, weather_values c with
        | None, _ :: _ =>
          let* v := vector_at (weather_values c) week in
          Ok (with_weather_value v acc.1)
        | _, _ => Ok acc.1
        end = Undefined week (length (weather_values c))
        /\ weather_coeff c = None /\ weather_values c <> []
        /\ (length (weather_values c) <= week)%nat)) as [(a & -> & Ha)|Hu].
  { destruct (weather_coeff c) as [x|]; [left; by eexists|].
    destruct (weather_values c) as [|v l] eqn:Hv; [left; by eexists|].
    unfold vector_at.
    destruct ((v :: l) !! week) as [x|] eqn:Hx.
    - left. by eexists.
    - right. split; [done|]. split; [done|]. split; [done|].
      by apply lookup_ge_None. }
  - left. cbn [bind]. unfold replica_count in Ha.
    injection Ha as Ha1 Ha2 Ha3 Ha4 Ha5.
    destruct (lookup_lt_is_Some_2 (sporulations a) run) as [sp Hsp]; [lia|].
    destruct (lookup_lt_is_Some_2 (inf_umca_rasts a) run) as [iu Hiu]; [lia|].
    destruct (lookup_lt_is_Some_2 (sus_umca_rasts a) run) as [su Hsu]; [lia|].
    destruct (lookup_lt_is_Some_2 (sus_oaks_rasts a) run) as [so Hso]; [lia|].
    destruct (lookup_lt_is_Some_2 (inf_oaks_rasts a) run) as [io Hio]; [lia|].
    rewrite (proj2 (vector_at_Ok _ _ _) Hsp), (proj2 (vector_at_Ok _ _ _) Hiu),
      (proj2 (vector_at_Ok _ _ _) Hsu), (proj2 (vector_at_Ok _ _ _) Hso),
      (proj2 (vector_at_Ok _ _ _) Hio).
    cbn [bind]. by eexists.
  - right. destruct Hu as (-> & ?). done.
Qed.

(** The batch, when every vector holds one entry per replica. *)
Lemma run_replicas_outcome c st :
  replicas_are (num_runs (params c)) st ->
  outcome_sat
    (fun st' => replicas_are (num_runs (params c)) st')
    (fun _ => False)
    (fun i n => weather_coeff c = None /\ weather_values c <> [] /\
                n = length (weather_values c) /\ (n <= i)%nat /\
                i ∈ unresolved_weeks st)
    (run_replicas c st).
Proof.
  intros Hn. unfold run_replicas.
  eapply outcome_sat_weaken.
  - apply (outcome_sat_for_loop
      (fun s => replicas_are (num_runs (params c)) s
                /\ unresolved_weeks s = unresolved_weeks st)
      (fun _ => False)
      (fun (_ : nat) i n =>
         weather_coeff c = None /\ weather_values c <> [] /\
         n = length (weather_values c) /\ (n <= i)%nat /\
         i ∈ unresolved_weeks st)); [|done].
    intros a run [Ha Hq] Hrun.
    apply elem_of_seq in Hrun.
    eapply (outcome_sat_bind
      (fun p : SimState * nat =>
         replicas_are (num_runs (params c)) p.1
         /\ unresolved_weeks p.1 = unresolved_weeks st)).
    + eapply outcome_sat_weaken;
        [apply (outcome_sat_for_loop
          (fun p : SimState * nat =>
             replicas_are (num_runs (params c)) p.1
             /\ unresolved_weeks p.1 = unresolved_weeks st)
          (fun _ => False)
          (fun week i n =>
             weather_coeff c = None /\ weather_values c <> [] /\
             n = length (weather_values c) /\ (n <= i)%nat /\ i = week))
        | done | done |].
      * intros p week [Hp Hpq] Hweek.
        destruct (replica_week_outcome c run p week _ Hp) as [[p' Hok]|Hu];
          [lia| |].
        -- rewrite Hok. simpl.
           destruct (replica_week_frame _ _ _ _ _ Hok) as (Ho & Hc & _).
           split.
           ++ unfold replicas_are in *. congruence.
           ++ unfold outside_replicas in Ho.
              injection Ho as _ _ Hu _ _ _ _ _. congruence.
        -- destruct Hu as (-> & ? & ? & ?). simpl. done.
      * done.
      * intros i n (week & Hin & ? & ? & ? & ? & ->).
        rewrite Hq in Hin. done.
    + intros p [Hp Hpq]. simpl. done.
  - by intros a [? _].
  - done.
  - intros i n (run & _ & H). done.
Qed.

(** One week of one replica leaves the other replicas alone. *)
Lemma replica_week_others c run acc week acc' r :
  replica_week c run acc week = Ok acc' -> r <> run ->
  replica_entry acc'.1 r = replica_entry acc.1 r.
Proof.
  unfold replica_week. intros H Hr. bind_inv H. injection H as <-.
  assert (replica_entry a r = replica_entry acc.1 r) as <-.
  { destruct (weather_coeff c), (weather_values c);
      try (by injection E as <-).
    bind_inv E. by injection E as <-. }
  cbn [fst]. unfold with_replica.
  destruct (SporeSpreadDisp _ _ _ _ _ _ _ _ _ _ _ _ _ _)
    as [sp [[[su so] iu] io]].
  unfold replica_entry. cbn.
  by rewrite !list_lookup_insert_ne by done.
Qed.

(** X12: a batch that ends well has written nothing but [weather_value]
    and the engines and grids of the replicas below [num_runs]: the date,
    the week counter, the queue, [S_oaks_rast], [I_oaks_rast], the weather
    buffer, [cerr] and the maps written are as before, the five vectors
    keep their sizes, and an entry from [num_runs] on is unchanged. *)
Theorem batch_writes_replicas_only (c : Setup) (st st' : SimState) :
  run_replicas c st = Ok st' ->
  outside_replicas st' = outside_replicas st /\
  replica_count st' = replica_count st /\
  forall r, (num_runs (params c) <= r)%nat ->
    replica_entry st' r = replica_entry st r.
Proof.
  intros H. destruct (run_replicas_frame c st st' H) as [Ho Hc].
  split; [done|]. split; [done|]. intros r Hr. revert H.
  unfold run_replicas.
  apply (for_loop_inv_in
    (fun s => replica_entry s r = replica_entry st r)); [|done].
  intros a run a' Hrun Ha H. bind_inv H. injection H as <-.
  apply elem_of_seq in Hrun. rewrite <- Ha. revert E.
  apply (for_loop_inv
    (fun p : SimState * nat => replica_entry p.1 r = replica_entry a r)
    (replica_week c run)); [|done].
  intros p week p' Hp H. rewrite <- Hp.
  apply (replica_week_others _ _ _ _ _ _ H). lia.
Qed.


End Batch.

Lemma batch_writes_replicas_only_witness :
  outside_replicas (race_result [1; 3] 5 5) = outside_replicas race_state /\
  replica_count (race_result [1; 3] 5 5) = replica_count race_state /\
  forall r, (num_runs (params race_setup) <= r)%nat ->
    replica_entry (race_result [1; 3] 5 5) r = replica_entry race_state r.
Proof.
  apply (@batch_writes_replicas_only sample_world race_setup race_state).
  vm_compute. reflexivity.
Defined.


(** ** The mean grid and the replicas at the start *)

Lemma foldr_add_bounds (xs : list Z) (lo hi : Z) :
  Forall (fun v => lo <= v <= hi) xs ->
  Z.of_nat (length xs) * lo <= foldr Z.add 0 xs
  <= Z.of_nat (length xs) * hi.
Proof.
  induction 1 as [|x xs Hx _ IH]; [simpl; lia|].
  cbn [foldr length]. lia.
Qed.

(** X14: for [N >= 1] replicas of the shape of [I_oaks_rast] whose values
    of a cell lie between [lo] and [hi], where [N * lo] and [N * hi] fit
    in an [int], the cell of the mean grid is the sum of the replicas'
    values divided by [N] in integers, whatever [I_oaks_rast] held before;
    it lies between [lo] and [hi]. *)
Theorem mean_of_replicas (grids : list Img) (acc : Img) (i j : nat)
  (lo hi : Z) :
  (1 <= length grids)%nat ->
  Img_wf acc -> Forall (like acc) grids ->
  (i < getHeight acc)%nat -> (j < getWidth acc)%nat ->
  Forall (fun v => lo <= v <= hi) (cell_values grids i j) ->
  int_min <= Z.of_nat (length grids) * lo ->
  Z.of_nat (length grids) * hi <= int_max ->
  exists m,
    aggregate grids (length grids) acc = Ok m /\
    Img_at m i j
    = Z.quot (foldr Z.add 0 (cell_values grids i j))
             (Z.of_nat (length grids)) /\
    lo <= Img_at m i j <= hi.
Proof.
  intros Hn Hwf Hall Hi Hj Hb Hlo Hhi.
  destruct (aggregate_data grids acc Hall) as (m & Hm & [Hs _] & Hk).
  exists m. split; [done|].
  apply same_shape_spec in Hs as (Hw & _).
  assert (length (cell_values grids i j) = length grids) as Hlen
    by (unfold cell_values; by rewrite length_fmap).
  assert (Img_at m i j
          = Z.quot (foldr Z.add 0 (cell_values grids i j))
                   (Z.of_nat (length grids))) as ->.
  { unfold Img_at. rewrite <- Hw. rewrite Hk by (rewrite Hwf; nia).
    rewrite (cell_values_data grids acc i j Hall).
    rewrite (wrapped_sum_bounded (Z.min lo 0) (Z.max hi 0)).
    - done.
    - lia.
    - eapply Forall_impl; [exact Hb|]. simpl. lia.
    - rewrite Hlen. unfold int_min in *. nia.
    - rewrite Hlen. unfold int_max in *. nia. }
  split; [done|].
  pose proof (foldr_add_bounds _ _ _ Hb) as [Hlo' Hhi'].
  rewrite Hlen in Hlo', Hhi'.
  set (n := Z.of_nat (length grids)) in *.
  assert (0 < n) as Hpos by lia.
  split.
  - transitivity (Z.quot (lo * n) n); [rewrite Z.quot_mul; lia|].
    apply Z.quot_le_mono; lia.
  - transitivity (Z.quot (hi * n) n); [|rewrite Z.quot_mul; lia].
    apply Z.quot_le_mono; lia.
Qed.

Lemma mean_of_replicas_witness :
  exists m,
    aggregate replicas_0_3 (length replicas_0_3) mean_0_3 = Ok m /\
    Img_at m 0%nat 0%nat
    = Z.quot (foldr Z.add 0 (cell_values replicas_0_3 0%nat 0%nat))
             (Z.of_nat (length replicas_0_3)) /\
    0 <= Img_at m 0%nat 0%nat <= 3.
Proof.
  apply (mean_of_replicas replicas_0_3 mean_0_3 0%nat 0%nat 0 3);
    simpl; try lia; try reflexivity.
  - repeat constructor.
  - repeat (constructor; [unfold Img_at; simpl; lia|]). constructor.
  - vm_compute. intros H. discriminate H.
  - vm_compute. intros H. discriminate H.
Defined.

Section Start.
Context {W : World}.


End Start.


(** ** The passes of the weekly loop *)

Section Passes.
Context {W : World}.

Lemma accumulate_kept c st :
  kept (accumulate c st) = kept st /\
  cerr (accumulate c st) = cerr st /\
  grass_rasters (accumulate c st) = grass_rasters st.
Proof. unfold accumulate. by repeat case_match. Qed.

Lemma fetch_weather_kept c st st' :
  fetch_weather c st = Ok st' ->
  kept st' = kept st /\ cerr st' = cerr st /\
  grass_rasters st' = grass_rasters st /\
  unresolved_weeks st' = unresolved_weeks st.
Proof.
  unfold fetch_weather.
  destruct (weather_coeff c) as [[mcf ccf]|]; intros H; binds; done.
Qed.

Lemma run_replicas_kept c st st' :
  run_replicas c st = Ok st' ->
  kept st' = kept st /\ cerr st' = cerr st /\
  grass_rasters st' = grass_rasters st /\
  unresolved_weeks st' = unresolved_weeks st.
Proof.
  intros H. destruct (run_replicas_frame _ _ _ H) as [Ho Hc].
  unfold outside_replicas in Ho. injection Ho as ? ? ? ? ? ? ? ?.
  unfold kept. repeat split; congruence.
Qed.

Lemma periodic_output_kept c st st' :
  periodic_output c st = Ok st' ->
  kept st' = kept st /\ cerr st' = cerr st /\
  (grass_rasters st').*1 = (grass_rasters st).*1 ++ series_names c (dd_start st)
  /\ unresolved_weeks st' = unresolved_weeks st.
Proof.
  unfold periodic_output, series_names. intros H.
  destruct (output_series c), (stddev_series c); simpl in H; binds;
    cbn; rewrite ?fmap_app, <- ?app_assoc, ?app_nil_r; done.
Qed.

(** What one pass of the loop body does to the variables of the loop. *)
Lemma week_body_effect c st st' e :
  week_body c st = Ok (st', e) ->
  kept st' = kept st /\
  e = (if all_infected (S_oaks_rast st) then Some AllInfected
       else if Date_ge (dd_start st) (dd_end (params c))
            then Some EndReached else None) /\
  unresolved_weeks st'
  = (if negb (all_infected (S_oaks_rast st)) && flush_due c st then []
     else unresolved_weeks (accumulate c st)) /\
  (grass_rasters st').*1
  = (grass_rasters st).*1
    ++ (if negb (all_infected (S_oaks_rast st)) && flush_due c st
        then series_names c (dd_start st) else []) /\
  cerr st'
  = cerr st
    ++ (if all_infected (S_oaks_rast st)
        then ["In the " +:+ Date_to_string (dd_start st)
              +:+ " all suspectible oaks are infected!"]
        else []).
Proof.
  destruct (accumulate_kept c st) as (Hk & Hc & Hg).
  assert (dd_start (accumulate c st) = dd_start st
          /\ S_oaks_rast (accumulate c st) = S_oaks_rast st) as [Hd Hs]
    by (unfold kept in Hk; by injection Hk as ? ? ? ?).
  unfold week_body, flush_due, flush_date. rewrite Hs, Hd.
  destruct (all_infected (S_oaks_rast st)); intros H.
  { injection H as <- <-. cbn. rewrite Hc, Hg, app_nil_r.
    split; [exact Hk|done]. }
  bind_inv H. cbn [negb andb].
  assert (kept a = kept st /\ cerr a = cerr st /\
          unresolved_weeks a
          = (if isYearEnd (dd_start st)
                || Date_ge (dd_start st) (dd_end (params c))
             then [] else unresolved_weeks (accumulate c st)) /\
          (grass_rasters a).*1
          = (grass_rasters st).*1
            ++ (if isYearEnd (dd_start st)
                   || Date_ge (dd_start st) (dd_end (params c))
                then series_names c (dd_start st) else []))
    as (Hka & Hca & Hqa & Hga).
  { destruct (isYearEnd (dd_start st)
              || Date_ge (dd_start st) (dd_end (params c))).
    2:{ injection E as <-. rewrite app_nil_r.
        repeat split; congruence. }
    bind_inv E. destruct (periodic_output_kept _ _ _ E) as (K & C & G & Q).
    assert (kept a0 = kept st /\ cerr a0 = cerr st /\
            grass_rasters a0 = grass_rasters st /\
            unresolved_weeks a0 = []) as (K0 & C0 & G0 & Q0).
    { destruct (unresolved_weeks (accumulate c st)) eqn:Hq.
      - injection E0 as <-. repeat split; congruence.
      - bind_inv E0. injection E0 as <-.
        match goal with
        | H1 : fetch_weather _ _ = Ok ?x, H2 : run_replicas _ ?x = Ok _ |- _ =>
          destruct (fetch_weather_kept _ _ _ H1) as (K1 & C1 & G1 & Q1);
          destruct (run_replicas_kept _ _ _ H2) as (K2 & C2 & G2 & Q2)
        end.
        unfold kept, replica_count in *. cbn. repeat split; congruence. }
    assert (dd_start a0 = dd_start st) as D0
      by (unfold kept in K0; by injection K0 as ? ? ? ?).
    rewrite D0, G0 in G. repeat split; congruence. }
  assert (dd_start a = dd_start st) as Da
    by (unfold kept in Hka; by injection Hka as ? ? ? ?).
  rewrite Da in H. rewrite app_nil_r.
  destruct (Date_ge (dd_start st) (dd_end (params c)));
    injection H as <- <-; done.
Qed.

Lemma week_body_next c st st' :
  week_body c st = Ok (st', None) ->
  all_infected (S_oaks_rast st) = false /\
  Date_lt (dd_start st) (dd_end (params c)) = true /\
  kept st' = kept st /\
  unresolved_weeks st'
  = (if isYearEnd (dd_start st) then []
     else unresolved_weeks (accumulate c st)).
Proof.
  intros H. destruct (week_body_effect _ _ _ _ H) as (Hk & He & Hq & _).
  unfold flush_due, flush_date in Hq.
  destruct (all_infected (S_oaks_rast st)); [done|].
  unfold Date_ge in *.
  destruct (Date_lt (dd_start st) (dd_end (params c))); [|done].
  rewrite orb_false_r in Hq. done.
Qed.

Lemma accumulate_queue c st :
  unresolved_weeks (accumulate c st) = unresolved_weeks st \/
  unresolved_weeks (accumulate c st) = unresolved_weeks st ++ [current_week st].
Proof. unfold accumulate. repeat case_match; auto. Qed.

Lemma pending_ordered_accumulate c st :
  pending_ordered st -> pending_ordered (next_week (accumulate c st)).
Proof.
  intros [Hs Hf]. unfold pending_ordered.
  assert (current_week (accumulate c st) = current_week st) as Hcw
    by (unfold accumulate; by repeat case_match).
  cbn. rewrite Hcw.
  destruct (accumulate_queue c st) as [-> | ->].
  - split; [done|]. eapply Forall_impl; [done|]. simpl. lia.
  - split.
    + intros i j wi wj Hi Hj Hij.
      apply lookup_app_Some in Hj as [Hj|[Hlen Hj]].
      * apply lookup_app_Some in Hi as [Hi|[Hlen' _]].
        -- by eapply Hs.
        -- apply lookup_lt_Some in Hj. lia.
      * apply list_lookup_singleton_Some in Hj as [Hj <-].
        apply lookup_app_Some in Hi as [Hi|[Hlen' _]]; [|lia].
        by apply (Forall_lookup_1 _ _ _ _ Hf Hi).
    + apply Forall_app. split.
      * eapply Forall_impl; [done|]. simpl. lia.
      * apply Forall_singleton. lia.
Qed.

(** X16: the pending weeks are queued in increasing order and each is
    queued once: in every state in which the loop body is entered, and
    after the push that opens the body, the queue holds increasing week
    numbers that the week counter has passed. *)
Theorem pending_weeks_ordered (c : Setup) (st0 st : SimState) :
  pending_ordered st0 -> reaches c st0 st ->
  pending_ordered st /\ pending_ordered (next_week (accumulate c st)).
Proof.
  intros H0 Hr.
  assert (pending_ordered st) as Hst.
  { induction Hr as [|st st' _ IH Hbody]; [done|].
    destruct (week_body_next _ _ _ Hbody) as (_ & _ & Hk & Hq).
    pose proof (pending_ordered_accumulate c st IH) as [Hs Hf].
    cbn in Hs, Hf.
    assert (current_week st' = current_week (accumulate c st)) as Hcw.
    { destruct (accumulate_kept c st) as (Hka & _).
      unfold kept in *. congruence. }
    unfold pending_ordered. cbn. rewrite Hq, Hcw.
    destruct (isYearEnd (dd_start st)); [|done].
    split; [intros i j wi wj Hi; by rewrite lookup_nil in Hi|].
    apply Forall_nil_2. }
  split; [done|]. by apply pending_ordered_accumulate.
Qed.

(** The week counter and the date move together. *)
Lemma reaches_weeks c st0 st :
  reaches c st0 st ->
  exists n, current_week st = (current_week st0 + n)%nat /\
            dd_start st = weeks_after n (dd_start st0).
Proof.
  induction 1 as [|st st' _ (n & Hcw & Hd) Hbody].
  - exists 0%nat. split; [lia|done].
  - destruct (week_body_next _ _ _ Hbody) as (_ & _ & Hk & _).
    unfold kept in Hk. injection Hk as Hd' Hcw' _ _.
    exists (Datatypes.S n). cbn. rewrite Hd', Hcw', Hcw, Hd.
    split; [lia|done].
Qed.

End Passes.

(** ** Weeks, dates and the size of the queue *)

Lemma days_before_bounds leap (m : nat) :
  (m <= 12)%nat -> 0 <= days_before leap m <= 31 * Z.of_nat m.
Proof.
  induction m as [|m IH]; [simpl; lia|]. intros Hm.
  cbn [days_before].
  pose proof (day_in_month_bounds leap (Z.of_nat (Datatypes.S m))). lia.
Qed.

Lemma days_before_step leap (m : Z) :
  1 <= m ->
  days_before leap (Z.to_nat (m + 1 - 1))
  = days_before leap (Z.to_nat (m - 1)) + day_in_month leap m.
Proof.
  intros Hm. replace (Z.to_nat (m + 1 - 1)) with (Datatypes.S (Z.to_nat (m - 1)))
    by lia.
  cbn [days_before]. do 2 f_equal. lia.
Qed.

Lemma days_before_year leap : days_before leap 12 <= 366.
Proof. destruct leap; vm_compute; intros H; discriminate H. Qed.

Lemma days_before_mono leap (m n : nat) :
  (m <= n)%nat -> days_before leap m <= days_before leap n.
Proof.
  induction 1 as [|n _ IH]; [lia|]. cbn [days_before].
  pose proof (day_in_month_bounds leap (Z.of_nat (Datatypes.S n))). lia.
Qed.

Lemma day_of_year_bounds d : Date_valid d -> 1 <= day_of_year d <= 366.
Proof.
  unfold Date_valid, day_of_year. intros [Hm Hd].
  pose proof (days_before_bounds (isLeapYear d) (Z.to_nat (getMonth d - 1))).
  split; [lia|].
  pose proof (days_before_year (isLeapYear d)).
  pose proof (days_before_mono (isLeapYear d)
                (Z.to_nat (getMonth d + 1 - 1)) 12) as Hmono.
  rewrite days_before_step in Hmono by lia.
  lia.
Qed.

(** A week later in the same year. *)
Lemma day_of_year_next d :
  Date_valid d -> isYearEnd d = false ->
  day_of_year (increasedByWeek d) = day_of_year d + 7.
Proof.
  unfold Date_valid, isYearEnd, day_of_year, increasedByWeek.
  intros [Hm Hd] Hye.
  destruct (Z.gtb_spec (getDay d + 7)
              (day_in_month (isLeapYear d) (getMonth d))) as [Hgt|Hle].
  - destruct (Z.gtb_spec (getMonth d + 1) 12) as [H12|H12].
    + assert (getMonth d = 12) as Hm12 by lia.
      rewrite Hm12 in Hye, Hgt. unfold day_in_month in Hgt. simpl in Hgt.
      destruct (Z.gtb_spec (getDay d + 7) 31); [done|lia].
    + cbn [getYear getMonth getDay].
      change (isLeapYear (mkDate (getYear d) (getMonth d + 1)
                (getDay d + 7 - day_in_month (isLeapYear d) (getMonth d))))
        with (isLeapYear d).
      rewrite days_before_step by lia. lia.
  - cbn [getYear getMonth getDay].
    change (isLeapYear (mkDate (getYear d) (getMonth d) (getDay d + 7)))
      with (isLeapYear d).
    lia.
Qed.

Section Weeks.
Context {W : World}.

Lemma reaches_within_year c st0 st :
  within_year st0 -> reaches c st0 st -> within_year st.
Proof.
  intros H0. induction 1 as [|st st' _ [Hv Hlen] Hbody]; [done|].
  destruct (week_body_next _ _ _ Hbody) as (_ & _ & Hk & Hq).
  unfold kept in Hk. injection Hk as Hd _ _ _.
  unfold within_year. cbn. rewrite Hd, Hq.
  split; [by apply increasedByWeek_valid|].
  destruct (isYearEnd (dd_start st)) eqn:Hye.
  - pose proof (day_of_year_bounds _ (increasedByWeek_valid _ Hv)).
    simpl. lia.
  - rewrite day_of_year_next by done.
    destruct (accumulate_queue c st) as [-> | ->];
      rewrite ?length_app; simpl; lia.
Qed.

(** X17: in every state in which the loop body is entered, the date is
    the start date plus as many weeks as the week counter says: week
    number [k], the index into the weather list and the record read from
    the coefficient file, is the [k]-th week after the start date.  A
    pending week is not after the current week, and its date is before the
    end date. *)
Theorem week_number_counts_weeks (env : Env) (opt : SodOptions) (p : Params)
  (c : Setup) (st0 st : SimState) :
  setup env opt p = Ok (c, st0) -> reaches c st0 st ->
  dd_start st = weeks_after (current_week st) (dd_begin p) /\
  forall week, week ∈ unresolved_weeks (accumulate c st) ->
    (week <= current_week st)%nat /\
    Date_lt (weeks_after week (dd_begin p)) (dd_end p) = true.
Proof.
  intros Hsetup Hr.
  destruct (setup_start _ _ _ _ _ Hsetup) as (_ & Hcw & Hd & Hp).
  assert (unresolved_weeks st0 = []) as Hq0.
  { unfold setup in Hsetup. bind_inv Hsetup. by injection Hsetup as <- <-. }
  assert (forall s, reaches c st0 s ->
    dd_start s = weeks_after (current_week s) (dd_begin p) /\
    forall week, week ∈ unresolved_weeks s ->
      (week < current_week s)%nat /\
      Date_lt (weeks_after week (dd_begin p)) (dd_end p) = true) as Hinv.
  { induction 1 as [|s s' _ [IHd IHq] Hbody].
    - rewrite Hcw, Hd, Hq0. split; [done|]. by intros week ?%elem_of_nil.
    - destruct (week_body_next _ _ _ Hbody) as (_ & Hlt & Hk & Hq).
      unfold kept in Hk. injection Hk as Hd' Hcw' _ _.
      cbn. rewrite Hd', Hcw', Hq. split; [by rewrite IHd|].
      intros week Hin.
      destruct (isYearEnd (dd_start s)); [by apply elem_of_nil in Hin|].
      destruct (accumulate_queue c s) as [Ha|Ha]; rewrite Ha in Hin.
      + destruct (IHq week Hin). split; [lia|done].
      + apply elem_of_app in Hin as [Hin|Hin].
        * destruct (IHq week Hin). split; [lia|done].
        * apply list_elem_of_singleton in Hin as ->.
          split; [lia|]. by rewrite <- IHd, <- Hp. }
  destruct (Hinv st Hr) as [Hdate Hq]. split; [done|].
  intros week Hin. unfold accumulate in Hin.
  destruct (Date_lt (dd_start st) (dd_end (params c))) eqn:Hlt;
    [|destruct (Hq week Hin); split; [lia|done]].
  destruct (negb (ss (params c)) || negb (getMonth (dd_start st) >? 9));
    [|destruct (Hq week Hin); split; [lia|done]].
  cbn in Hin. apply elem_of_app in Hin as [Hin|Hin].
  - destruct (Hq week Hin). split; [lia|done].
  - apply list_elem_of_singleton in Hin as ->.
    split; [lia|]. by rewrite <- Hdate, <- Hp.
Qed.

(** X18: the queue never holds more than the 53 weeks that the queue and
    the weather buffer are sized for: when the batch runs, and in any pass
    after the push, there are at most [max_weeks_in_year] pending weeks. *)
Theorem pending_weeks_fit_buffer (env : Env) (opt : SodOptions) (p : Params)
  (c : Setup) (st0 st : SimState) :
  read_options env opt = Ok p ->
  setup env opt p = Ok (c, st0) -> reaches c st0 st ->
  (length (unresolved_weeks (accumulate c st)) <= max_weeks_in_year)%nat.
Proof.
  intros Hopt Hsetup Hr.
  destruct (read_options_dates _ _ _ Hopt) as (s & e & _ & Hb & _).
  destruct (setup_start _ _ _ _ _ Hsetup) as (_ & _ & Hd & _).
  assert (unresolved_weeks st0 = []) as Hq0.
  { unfold setup in Hsetup. bind_inv Hsetup. by injection Hsetup as <- <-. }
  assert (within_year st0) as H0.
  { unfold within_year. rewrite Hd, Hb, Hq0.
    split; [|vm_compute; intros H; discriminate H].
    unfold Date_valid, day_in_month. simpl. lia. }
  destruct (reaches_within_year _ _ _ H0 Hr) as [Hv Hlen].
  pose proof (day_of_year_bounds _ Hv).
  unfold max_weeks_in_year.
  destruct (accumulate_queue c st) as [-> | ->];
    rewrite ?length_app; simpl; lia.
Qed.

End Weeks.

Lemma pending_weeks_ordered_witness :
  pending_ordered queued_state /\
  pending_ordered (next_week (accumulate race_setup queued_state)).
Proof.
  apply (@pending_weeks_ordered sample_world race_setup queued_state
           queued_state).
  - split.
    + intros [|[|i]] [|[|j]] wi wj; cbn; intros; simplify_eq; lia.
    + repeat (constructor; [simpl; lia|]). constructor.
  - constructor.
Defined.

Lemma week_number_counts_weeks_witness :
  dd_start sample_state
  = weeks_after (current_week sample_state) (dd_begin sample_params) /\
  forall week, week ∈ unresolved_weeks (accumulate sample_setup sample_state) ->
    (week <= current_week sample_state)%nat /\
    Date_lt (weeks_after week (dd_begin sample_params))
            (dd_end sample_params) = true.
Proof.
  apply (@week_number_counts_weeks sample_world sample_env sample_options
           sample_params sample_setup sample_state sample_state).
  - vm_compute. reflexivity.
  - constructor.
Defined.

Lemma pending_weeks_fit_buffer_witness :
  (length (unresolved_weeks (accumulate sample_setup sample_state))
   <= max_weeks_in_year)%nat.
Proof.
  apply (@pending_weeks_fit_buffer sample_world sample_env sample_options
           sample_params sample_setup sample_state sample_state).
  - vm_compute. reflexivity.
  - vm_compute. reflexivity.
  - constructor.
Defined.

(** ** Unchecked reads *)

Lemma checked_bind {A B : Type} (m : Outcome A) (k : A -> Outcome B) :
  checked m -> (forall a, m = Ok a -> checked (k a)) -> checked (bind m k).
Proof. destruct m; simpl; auto. Qed.

Lemma checked_for_loop {A B : Type} (body : A -> B -> Outcome A) (l : list B)
  (a : A) :
  (forall a b, b ∈ l -> checked (body a b)) -> checked (for_loop body a l).
Proof.
  revert a. induction l as [|b l IH]; intros a Hbody; simpl; [done|].
  apply checked_bind; [apply Hbody; by left|].
  intros a' _. apply IH. intros a0 b0 Hin. apply Hbody. by right.
Qed.

Lemma checked_sat {A : Type} (ok : A -> Prop) (undef : nat -> nat -> Prop)
  (o : Outcome A) :
  checked o -> (forall a, o = Ok a -> ok a) ->
  outcome_sat ok (fun _ => True) undef o.
Proof. destruct o; simpl; auto. done. Qed.

Lemma Img_zip_checked f a b : checked (Img_zip f a b).
Proof. unfold Img_zip. by destruct (same_shape a b). Qed.

Lemma vector_at_checked {A : Type} (v : list A) (i : nat) :
  (i < length v)%nat -> checked (vector_at v i).
Proof.
  intros Hi. unfold vector_at.
  by destruct (lookup_lt_is_Some_2 v i Hi) as [x ->].
Qed.

Lemma aggregate_checked grids n acc :
  (n <= length grids)%nat -> checked (aggregate grids n acc).
Proof.
  intros Hn. unfold aggregate. apply checked_bind; [|done].
  apply checked_for_loop. intros a i Hi%elem_of_seq.
  apply checked_bind; [apply vector_at_checked; lia|].
  intros r _. apply Img_zip_checked.
Qed.

Lemma stddev_checked grids n mean :
  (n <= length grids)%nat -> checked (stddev grids n mean).
Proof.
  intros Hn. unfold stddev. apply checked_bind; [|done].
  apply checked_for_loop. intros a i Hi%elem_of_seq.
  apply checked_bind; [apply vector_at_checked; lia|].
  intros r _. apply checked_bind; [apply Img_zip_checked|].
  intros tmp _. apply checked_bind; [apply Img_zip_checked|].
  intros sq _. apply Img_zip_checked.
Qed.

Section Unchecked.
Context {W : World}.

Lemma parse_checked {A : Type} (f : string -> option A) fn text :
  checked (parse f fn text).
Proof. unfold parse. by destruct (f text). Qed.

Lemma read_options_checked env opt : checked (read_options env opt).
Proof.
  unfold read_options.
  repeat first
    [ apply parse_checked
    | apply checked_bind; [|intros ? _]
    | done
    | match goal with
      | |- checked (match ?x with _ => _ end) => destruct x
      | |- checked (if ?x then _ else _) => destruct x
      end ];
  unfold seasonality_from_string, direction_enum_from_string,
    radial_type_from_string; repeat case_match; done.
Qed.

Lemma get_spatial_weather_checked mcf_nc ccf_nc buf offset w h step :
  checked (get_spatial_weather mcf_nc ccf_nc buf offset w h step).
Proof. unfold get_spatial_weather. by repeat case_match. Qed.

Lemma fetch_weather_checked c st : checked (fetch_weather c st).
Proof.
  unfold fetch_weather. destruct (weather_coeff c) as [[mcf ccf]|]; [|done].
  apply checked_bind; [|done].
  apply checked_for_loop. intros a week _.
  apply checked_bind; [apply get_spatial_weather_checked|done].
Qed.

Lemma periodic_output_checked c st :
  (num_runs (params c) <= length (inf_oaks_rasts st))%nat ->
  checked (periodic_output c st).
Proof.
  intros Hn. unfold periodic_output. apply checked_bind.
  - destruct (output_series c), (stddev_series c); simpl; try done;
      (apply checked_bind; [by apply aggregate_checked | done]).
  - intros a Ha.
    assert (inf_oaks_rasts a = inf_oaks_rasts st) as Hsame.
    { destruct (output_series c), (stddev_series c); simpl in Ha; binds;
        done. }
    destruct (stddev_series c); [|done].
    apply checked_bind; [|done]. apply stddev_checked. by rewrite Hsame.
Qed.

Lemma final_output_checked c opt st :
  (num_runs (params c) <= length (inf_oaks_rasts st))%nat ->
  checked (final_output c opt st).
Proof.
  intros Hn. unfold final_output.
  apply checked_bind; [by apply aggregate_checked|]. intros m _.
  destruct (opt_stddev opt); [|done].
  apply checked_bind; [by apply stddev_checked|done].
Qed.

Lemma replicas_are_kept n st st' :
  kept st' = kept st -> replicas_are n st -> replicas_are n st'.
Proof.
  unfold kept, replicas_are. intros Hk Hn. congruence.
Qed.

Lemma replicas_are_inf_oaks n st :
  replicas_are n st -> (n <= length (inf_oaks_rasts st))%nat.
Proof. unfold replicas_are, replica_count. intros Hn. injection Hn. lia. Qed.

(** One pass, when every vector holds one entry per replica. *)
Lemma week_body_outcome c st :
  replicas_are (num_runs (params c)) st ->
  outcome_sat (fun r => replicas_are (num_runs (params c)) r.1)
              (fun _ => True) (unchecked_weather_read c) (week_body c st).
Proof.
  intros Hn.
  assert (replicas_are (num_runs (params c)) (accumulate c st)) as Ha
    by (eapply replicas_are_kept; [apply accumulate_kept | done]).
  unfold week_body.
  destruct (all_infected (S_oaks_rast (accumulate c st))); [exact Ha|].
  eapply (outcome_sat_bind (replicas_are (num_runs (params c)))).
  - destruct (isYearEnd _ || Date_ge _ _); [|exact Ha].
    eapply (outcome_sat_bind (replicas_are (num_runs (params c)))).
    + destruct (unresolved_weeks (accumulate c st)) as [|wk q] eqn:Hq;
        [exact Ha|].
      eapply (outcome_sat_bind (replicas_are (num_runs (params c)))).
      * apply checked_sat; [apply fetch_weather_checked|].
        intros f Hf. eapply replicas_are_kept; [|exact Ha].
        by apply (fetch_weather_kept _ _ _ Hf).
      * intros f Hf.
        eapply (outcome_sat_bind (replicas_are (num_runs (params c)))).
        -- eapply outcome_sat_weaken;
             [apply (run_replicas_outcome c f Hf) | done | done |].
           intros i' n' (? & ? & ? & ? & _). done.
        -- intros r Hr. exact Hr.
    + intros b Hb. apply checked_sat.
      * apply periodic_output_checked. by apply replicas_are_inf_oaks.
      * intros st' Hst'. eapply replicas_are_kept; [|exact Hb].
        by apply (periodic_output_kept _ _ _ Hst').
  - intros a Ha'. by destruct (Date_ge _ _).
Qed.

Lemma weekly_loop_outcome fuel c st :
  replicas_are (num_runs (params c)) st ->
  outcome_sat
    (fun r => forall st' e, r = Some (st', e) ->
                replicas_are (num_runs (params c)) st')
    (fun _ => True) (unchecked_weather_read c) (weekly_loop fuel c st).
Proof.
  revert st. induction fuel as [|fuel IH]; intros st Hn; simpl; [done|].
  eapply outcome_sat_bind; [by apply week_body_outcome|].
  intros [st' [e|]] Hst'; simpl in *.
  - by intros ? ? [= <- <-].
  - by apply IH.
Qed.

Lemma setup_checked env opt p : checked (setup env opt p).
Proof.
  unfold setup.
  repeat first
    [ apply Img_zip_checked
    | apply parse_checked
    | apply checked_bind; [|intros ? _]
    | done
    | match goal with
      | |- checked (match ?x with _ => _ end) => destruct x
      | |- checked (if ?x then _ else _) => destruct x
      end ].
Qed.

(** The weather source [setup] has chosen. *)
Lemma setup_weather env opt p c st0 :
  setup env opt p = Ok (c, st0) ->
  params c = p /\
  replica_count st0 = (num_runs p, num_runs p, num_runs p, num_runs p,
                       num_runs p) /\
  (weather_coeff c = None <-> opt_nc_weather opt = None) /\
  weather_values c
  = match opt_nc_weather opt, opt_weather_file opt with
    | None, Some a => weather_file_to_list env a
    | _, _ => []
    end.
Proof.
  unfold setup. intros H. bind_inv H. injection H as <- <-. cbn.
  split; [done|]. split.
  { unfold replica_count. cbn.
    unfold seed_replicas. rewrite !length_replicate.
    assert (forall n acc,
      length (foldl (fun (acc : Z * list Sporulation) (_ : nat) =>
                (to_unsigned (acc.1 + 1),
                 acc.2 ++ [Sporulation_new acc.1
                   (initialize (fromGrassRaster env (opt_umca opt))
                               (fromGrassRaster env (opt_ioaks opt))).2]))
              acc (seq 0 n)).2 = (length acc.2 + n)%nat) as Hlen.
    { induction n as [|n IHn]; intros acc; [simpl; lia|].
      rewrite seq_S, foldl_app. simpl. rewrite length_app, IHn. simpl. lia. }
    rewrite Hlen. done. }
  split; [|done].
  destruct (opt_nc_weather opt); [|by injection E2 as <-].
  split; [|done]. intros ->. simpl in E2.
  by repeat case_match.
Qed.

Lemma reaches_replicas c st0 st n :
  replicas_are n st0 -> reaches c st0 st -> replicas_are n st.
Proof.
  intros H0. induction 1 as [|st st' _ IH Hbody]; [done|].
  destruct (week_body_next _ _ _ Hbody) as (_ & _ & Hk & _).
  pose proof (replicas_are_kept n st st' Hk IH) as H.
  exact H.
Qed.

(** X19: for maps that are grids which [initialize] reads inside, the
    reads [v[i]] of the vectors of [main] go out of range only at the
    per-week weather list.  Whenever the loop body is entered each of the
    five vectors of the replicas holds [num_runs] entries; and if [main]
    ends in a read at index [i] of a vector of [n] entries, then there is
    no coefficient file, a weather file was given, [n] is the number of
    its lines and the read is [weather_values[i]] with [i >= n]. *)
Theorem unchecked_read_is_weather_list (env : Env) (opt : SodOptions) :
  maps_in_range env opt ->
  (forall p c st0 st,
     read_options env opt = Ok p -> setup env opt p = Ok (c, st0) ->
     reaches c st0 st -> replicas_are (num_runs p) st) /\
  (forall i n, main env opt = Undefined i n ->
     opt_nc_weather opt = None /\
     exists file, opt_weather_file opt = Some file /\
       n = length (weather_file_lines env file) /\ (0 < n <= i)%nat /\
       vector_at (weather_file_to_list env file) i = Undefined i n).
Proof.
  intros _. split.
  { intros p c st0 st _ Hsetup Hr.
    destruct (setup_weather _ _ _ _ _ Hsetup) as (_ & Hc & _).
    by apply (reaches_replicas c st0 st (num_runs p)). }
  intros i n H.
  assert (outcome_sat (fun _ => True) (fun _ => True)
    (fun i n => opt_nc_weather opt = None /\
       exists file, opt_weather_file opt = Some file /\
         n = length (weather_file_lines env file) /\ (0 < n <= i)%nat /\
         vector_at (weather_file_to_list env file) i = Undefined i n)
    (main env opt)) as Hsat; [|by rewrite H in Hsat].
  unfold main.
  eapply (outcome_sat_bind (fun _ => True));
    [apply checked_sat; [apply read_options_checked|done]|].
  intros p _.
  eapply (outcome_sat_bind (fun s => setup env opt p = Ok s));
    [apply checked_sat; [apply setup_checked|done]|].
  intros [c st0] Hsetup.
  destruct (setup_weather _ _ _ _ _ Hsetup) as (Hp & Hc & Hnc & Hv).
  cbn [fst snd].
  assert (replicas_are (num_runs (params c)) st0) as Hn
    by (unfold replicas_are; by rewrite Hp).
  eapply outcome_sat_bind.
  - eapply outcome_sat_weaken;
      [apply (weekly_loop_outcome (loop_bound p) c st0 Hn)
      | intros r Hr; exact Hr | done |].
    intros i' n' (Hcoeff & Hne & -> & Hle).
    apply Hnc in Hcoeff. rewrite Hcoeff in Hv. split; [done|].
    destruct (opt_weather_file opt) as [file|]; [|by rewrite Hv in Hne].
    exists file. split; [done|].
    rewrite Hv in Hne, Hle |- *.
    assert (length (weather_file_to_list env file) <> 0%nat) as Hpos
      by (destruct (weather_file_to_list env file); done).
    assert (vector_at (weather_file_to_list env file) i'
            = Undefined i' (length (weather_file_to_list env file))) as Hread
      by (unfold vector_at; by rewrite lookup_ge_None_2).
    rewrite weather_file_to_list_length in Hle, Hpos, Hread |- *.
    split; [done|]. split; [lia|done].
  - intros [[st e]|] Hr; [|done]. simpl.
    eapply (outcome_sat_bind (fun _ => True)); [|done].
    apply checked_sat; [|done].
    apply final_output_checked, replicas_are_inf_oaks. by eapply Hr.
Qed.

End Unchecked.

Lemma unchecked_read_is_weather_list_witness :
  (forall p c st0 st,
     read_options sample_env weather_file_options = Ok p ->
     setup sample_env weather_file_options p = Ok (c, st0) ->
     reaches c st0 st -> replicas_are (num_runs p) st) /\
  @main sample_world sample_env weather_file_options = Undefined 1 1 /\
  opt_nc_weather weather_file_options = None /\
  exists file, opt_weather_file weather_file_options = Some file /\
    1%nat = length (weather_file_lines sample_env file)
    /\ (0 < 1 <= 1)%nat /\
    vector_at (weather_file_to_list sample_env file) 1 = Undefined 1 1.
Proof.
  assert (maps_in_range sample_env weather_file_options) as Hmaps.
  { unfold maps_in_range. simpl.
    split; [reflexivity|]. split; [reflexivity|]. split; [reflexivity|].
    intros _. lia. }
  assert (@main sample_world sample_env weather_file_options = Undefined 1 1)
    as Hmain by (vm_compute; reflexivity).
  destruct (@unchecked_read_is_weather_list sample_world sample_env
              weather_file_options Hmaps) as [Hsizes Hread].
  split; [exact Hsizes|]. split; [exact Hmain|].
  exact (Hread 1%nat 1%nat Hmain).
Defined.

(** ** The batch under any schedule *)

Section Schedules.
Context {W : World}.

Lemma replica_entry_lookups s r sp su so iu io :
  replica_entry s r = some_entry (sp, su, so, iu, io) ->
  sporulations s !! r = Some sp /\ sus_umca_rasts s !! r = Some su /\
  sus_oaks_rasts s !! r = Some so /\ inf_umca_rasts s !! r = Some iu /\
  inf_oaks_rasts s !! r = Some io.
Proof. unfold replica_entry, some_entry. intros [= ? ? ? ? ?]. done. Qed.

Lemma SimState_eq (s1 s2 : SimState) :
  outside_replicas s1 = outside_replicas s2 ->
  weather_value s1 = weather_value s2 ->
  sporulations s1 = sporulations s2 ->
  sus_umca_rasts s1 = sus_umca_rasts s2 ->
  sus_oaks_rasts s1 = sus_oaks_rasts s2 ->
  inf_umca_rasts s1 = inf_umca_rasts s2 ->
  inf_oaks_rasts s1 = inf_oaks_rasts s2 -> s1 = s2.
Proof.
  destruct s1, s2. unfold outside_replicas. cbn.
  intros [= -> -> -> -> -> -> -> ->] -> -> -> -> -> ->. done.
Qed.

(** A step of replica [run] keeps the invariant. *)
Lemma thread_step_inv c st prs s run pr pr' s' calls :
  weather_coeff c <> None \/ weather_values c = [] ->
  batch_inv c st prs s ->
  prs !! run = Some pr ->
  thread_step c run pr s = Ok (pr', s', calls) ->
  batch_inv c st (<[run := pr']> prs) s'.
Proof.
  intros Hcalm (Ho & Hv & Hc & Hlen & Hprs) Hpr Hstep.
  destruct (Hprs run pr Hpr) as ([Hk Hph] & e0 & He0 & He).
  assert (weather s = weather st) as Hw
    by (unfold outside_replicas in Ho; by injection Ho).
  destruct pr as [wl k ph]. cbn in Hk, Hph.
  unfold expected in He. cbn [week_in_chunk phase] in He.
  unfold thread_step in Hstep. cbn [weeks_left week_in_chunk phase] in Hstep.
  destruct wl as [|week rest].
  { injection Hstep as <- <- <-. rewrite list_insert_id by done.
    done. }
  assert (forall s1 pr1,
    outside_replicas s1 = outside_replicas s ->
    weather_value s1 = weather_value s ->
    replica_count s1 = replica_count s ->
    (forall r, r <> run -> replica_entry s1 r = replica_entry s r) ->
    progress_ok (length (unresolved_weeks st)) pr1 ->
    replica_entry s1 run = some_entry (expected c st pr1 e0) ->
    batch_inv c st (<[run := pr1]> prs) s1) as Hclose.
  { intros s1 pr1 Ho1 Hv1 Hc1 Hothers Hok1 Hrun.
    split; [congruence|]. split; [congruence|]. split; [congruence|].
    split; [by rewrite length_insert|].
    intros r q Hq.
    apply list_lookup_insert_Some in Hq as [(<- & <- & _)|[Hne Hq]].
    - split; [done|]. by exists e0.
    - destruct (Hprs r q Hq) as (Hokq & eq & Heq0 & Heq).
      split; [done|]. exists eq. split; [done|].
      by rewrite Hothers. }
  destruct (weeks_entry c (weather st) (weather_value st) k e0)
    as [[[[sp su] so] iu] io] eqn:Hdone.
  destruct ph.
  - (* the store to weather_value *)
    assert (match weather_coeff c, weather_values c with
            | None, _ :: _ =>
              let* v := vector_at (weather_values c) week in
              Ok (with_weather_value v s)
            | _, _ => Ok s
            end = Ok s) as Hstore.
    { destruct Hcalm as [Hnc | ->]; [|by destruct (weather_coeff c)].
      by destruct (weather_coeff c). }
    rewrite Hstore in Hstep. cbn [bind] in Hstep.
    injection Hstep as <- <- <-.
    apply Hclose; [done | done | done | done | split; [exact Hk | done] |].
    unfold expected. cbn [week_in_chunk phase]. by rewrite Hdone.
  - (* SporeGen *)
    apply replica_entry_lookups in He as (Hsp & Hsu & Hso & Hiu & Hio).
    unfold vector_at in Hstep. rewrite Hsp, Hiu in Hstep.
    cbn [bind] in Hstep. injection Hstep as <- <- <-.
    apply Hclose; [done | done | | | |].
    + unfold replica_count. cbn. by rewrite length_insert.
    + intros r Hr. unfold replica_entry. cbn.
      by rewrite list_lookup_insert_ne by done.
    + split; [exact Hk | done].
    + unfold expected. cbn [week_in_chunk phase]. rewrite Hdone.
      unfold replica_entry, gen_entry, some_entry, week_weather_of. cbn.
      rewrite list_lookup_insert_eq by (by eapply lookup_lt_Some).
      rewrite Hsu, Hso, Hiu, Hio, Hw, Hv. done.
  - (* SporeSpreadDisp *)
    unfold gen_entry in He.
    apply replica_entry_lookups in He as (Hsp & Hsu & Hso & Hiu & Hio).
    unfold vector_at in Hstep. rewrite Hsp, Hsu, Hso, Hiu, Hio in Hstep.
    cbn [bind] in Hstep. injection Hstep as <- <- <-.
    apply lookup_lt_Some in Hsp, Hsu, Hso, Hiu, Hio.
    rewrite Hw, Hv.
    apply Hclose.
    + unfold with_replica. by destruct (SporeSpreadDisp _ _ _ _ _ _ _ _ _ _ _ _ _ _)
        as [sp' [[[su' so'] iu'] io']].
    + unfold with_replica. by destruct (SporeSpreadDisp _ _ _ _ _ _ _ _ _ _ _ _ _ _)
        as [sp' [[[su' so'] iu'] io']].
    + unfold with_replica. destruct (SporeSpreadDisp _ _ _ _ _ _ _ _ _ _ _ _ _ _)
        as [sp' [[[su' so'] iu'] io']].
      unfold replica_count. cbn. by rewrite !length_insert.
    + intros r Hr. unfold with_replica.
      destruct (SporeSpreadDisp _ _ _ _ _ _ _ _ _ _ _ _ _ _)
        as [sp' [[[su' so'] iu'] io']].
      unfold replica_entry. cbn. by rewrite !list_lookup_insert_ne by done.
    + split; cbn; [cbn in Hk; lia | done].
    + unfold expected. cbn [week_in_chunk phase weeks_entry]. rewrite Hdone.
      unfold gen_entry, spread_entry, week_weather_of, with_replica.
      destruct (SporeSpreadDisp _ _ _ _ _ _ _ _ _ _ _ _ _ _)
        as [sp' [[[su' so'] iu'] io']].
      unfold replica_entry, some_entry. cbn.
      by rewrite !list_lookup_insert_eq by done.
Qed.

Lemma interleave_inv c st schedule prs s tr prs' s' tr' :
  weather_coeff c <> None \/ weather_values c = [] ->
  batch_inv c st prs s ->
  interleave c schedule (prs, s, tr) = Ok (prs', s', tr') ->
  batch_inv c st prs' s'.
Proof.
  intros Hcalm. revert prs s tr.
  induction schedule as [|run schedule IH]; intros prs s tr Hinv H.
  - simpl in H. by injection H as <- <- <-.
  - cbn [interleave fst snd] in H.
    destruct (prs !! run) as [pr|] eqn:Hpr; [|by eapply IH].
    bind_inv H. destruct a as [[pr1 s1] calls]. cbn [fst snd] in H.
    eapply IH; [|exact H]. by eapply thread_step_inv.
Qed.

(** The state in which a batch ends when every replica is through. *)
Lemma batch_inv_finished c st prs1 prs2 s1 s2 :
  replicas_are (num_runs (params c)) st ->
  batch_inv c st prs1 s1 -> batch_inv c st prs2 s2 ->
  forallb finished prs1 = true -> forallb finished prs2 = true -> s1 = s2.
Proof.
  intros Hn (Ho1 & Hv1 & Hc1 & Hl1 & H1) (Ho2 & Hv2 & Hc2 & Hl2 & H2)
    Hfin1 Hfin2.
  assert (forall prs pr r e0,
    forallb finished prs = true -> prs !! r = Some pr ->
    progress_ok (length (unresolved_weeks st)) pr ->
    expected c st pr e0
    = weeks_entry c (weather st) (weather_value st)
                  (length (unresolved_weeks st)) e0) as Hexp.
  { intros prs pr r e0 Hfin Hpr [Hk Hph].
    rewrite forallb_forall in Hfin.
    assert (finished pr = true) as Hf
      by (eapply Hfin, list_elem_of_In, list_elem_of_lookup_2; exact Hpr).
    unfold finished in Hf. destruct (weeks_left pr) eqn:Hwl; [|done].
    unfold expected. rewrite (Hph eq_refl). simpl in Hk.
    by replace (week_in_chunk pr) with (length (unresolved_weeks st)) by lia. }
  assert (forall r, replica_entry s1 r = replica_entry s2 r) as Hentries.
  { intros r. destruct (prs1 !! r) as [pr1|] eqn:Hpr1.
    - destruct (lookup_lt_is_Some_2 prs2 r) as [pr2 Hpr2];
        [apply lookup_lt_Some in Hpr1; lia|].
      destruct (H1 r pr1 Hpr1) as (Hok1 & e1 & He1 & ->).
      destruct (H2 r pr2 Hpr2) as (Hok2 & e2 & He2 & ->).
      rewrite (Hexp prs1 pr1 r e1), (Hexp prs2 pr2 r e2) by done.
      rewrite He1 in He2. do 2 f_equal.
      destruct e1 as [[[[? ?] ?] ?] ?], e2 as [[[[? ?] ?] ?] ?].
      unfold some_entry in He2. by injection He2 as -> -> -> -> ->.
    - apply lookup_ge_None in Hpr1.
      unfold replicas_are in Hn.
      assert (replica_count s1 = replica_count st) as Hc1' by done.
      assert (replica_count s2 = replica_count st) as Hc2' by done.
      rewrite Hn in Hc1', Hc2'.
      unfold replica_count in Hc1', Hc2'.
      injection Hc1' as ? ? ? ? ?. injection Hc2' as ? ? ? ? ?.
      unfold replica_entry.
      rewrite !(lookup_ge_None_2 _ r) by lia. done. }
  assert (sporulations s1 = sporulations s2
          /\ sus_umca_rasts s1 = sus_umca_rasts s2
          /\ sus_oaks_rasts s1 = sus_oaks_rasts s2
          /\ inf_umca_rasts s1 = inf_umca_rasts s2
          /\ inf_oaks_rasts s1 = inf_oaks_rasts s2) as (? & ? & ? & ? & ?).
  { repeat split; apply list_eq; intros r; specialize (Hentries r);
      unfold replica_entry in Hentries; by injection Hentries. }
  apply SimState_eq; congruence.
Qed.

(** X20: unless the weather scalar is read from the per-week list, the
    schedule of the parallel batch does not matter: whatever the order in
    which the threads move, a batch in which every replica gets through
    ends in the state in which the sequential batch ends. *)
Theorem batch_schedule_independent (c : Setup) (st st' : SimState)
  (schedule : list nat) (calls : list Call) :
  weather_coeff c <> None \/ weather_values c = [] ->
  replicas_are (num_runs (params c)) st ->
  run_replicas_omp c schedule st = Ok (Some (st', calls)) ->
  run_replicas c st = Ok st'.
Proof.
  intros Hcalm Hn Homp.
  assert (exists st2, run_replicas c st = Ok st2) as [st2 Hseq].
  { pose proof (run_replicas_outcome c st Hn) as H.
    destruct (run_replicas c st) as [st2| |]; simpl in H; [by eexists|done|].
    destruct H as (? & ? & _). by destruct Hcalm. }
  rewrite Hseq. f_equal.
  destruct (one_thread_is_sequential c st st2 Hseq) as [calls2 Hone].
  set (start := replicate (num_runs (params c))
                  (mkProgress (unresolved_weeks st) 0 AtWeather)) in *.
  assert (batch_inv c st start st) as Hstart.
  { split; [done|]. split; [done|]. split; [done|].
    split; [apply length_replicate|].
    intros r pr [-> Hr]%lookup_replicate. split; [done|].
    unfold replicas_are, replica_count in Hn. injection Hn as ? ? ? ? ?.
    destruct (lookup_lt_is_Some_2 (sporulations st) r) as [sp Hsp]; [lia|].
    destruct (lookup_lt_is_Some_2 (sus_umca_rasts st) r) as [su Hsu]; [lia|].
    destruct (lookup_lt_is_Some_2 (sus_oaks_rasts st) r) as [so Hso]; [lia|].
    destruct (lookup_lt_is_Some_2 (inf_umca_rasts st) r) as [iu Hiu]; [lia|].
    destruct (lookup_lt_is_Some_2 (inf_oaks_rasts st) r) as [io Hio]; [lia|].
    exists (sp, su, so, iu, io).
    unfold replica_entry, expected, some_entry. cbn.
    by rewrite Hsp, Hsu, Hso, Hiu, Hio. }
  assert (forall sched s calls0,
    run_replicas_omp c sched st = Ok (Some (s, calls0)) ->
    exists prs, batch_inv c st prs s /\ forallb finished prs = true)
    as Hend.
  { intros sched s calls0 H. unfold run_replicas_omp in H. fold start in H.
    bind_inv H. destruct a as [[prs s0] tr0]. cbn [fst snd] in H.
    destruct (forallb finished prs) eqn:Hfin; [|done].
    injection H as <- <-. exists prs. split; [|done].
    by eapply interleave_inv. }
  destruct (Hend _ _ _ Homp) as (prs1 & Hinv1 & Hfin1).
  destruct (Hend _ _ _ Hone) as (prs2 & Hinv2 & Hfin2).
  symmetry. by eapply batch_inv_finished.
Qed.

End Schedules.

Lemma batch_schedule_independent_witness :
  run_replicas calm_setup calm_state = Ok calm_result.
Proof.
  apply (@batch_schedule_independent sample_world calm_setup calm_state
           calm_result overtaking_schedule calm_calls).
  - right. reflexivity.
  - reflexivity.
  - vm_compute. reflexivity.
Defined.

(** ** The maps written and the end of the loop *)

Section Maps.
Context {W : World}.

Lemma weeks_after_S n d :
  weeks_after n (increasedByWeek d) = weeks_after (Datatypes.S n) d.
Proof.
  unfold weeks_after. induction n as [|n IH]; [done|].
  simpl in *. by rewrite IH.
Qed.

Lemma series_maps_S c d n :
  series_maps c d (Datatypes.S n)
  = (if flush_date c d then series_names c d else [])
    ++ series_maps c (increasedByWeek d) n.
Proof.
  unfold series_maps. cbn [seq fmap list_fmap concat].
  f_equal. rewrite <- fmap_S_seq, <- list_fmap_compose. f_equal.
  apply list_fmap_ext. intros i k _. unfold maps_of_week. simpl.
  by rewrite weeks_after_S.
Qed.

(** The passes of a loop that leaves through the end date, and the maps
    they write. *)
Lemma weekly_loop_maps fuel c st st' e :
  weekly_loop fuel c st = Ok (Some (st', e)) ->
  if all_infected (S_oaks_rast st)
  then e = AllInfected /\ current_week st' = current_week st /\
       (grass_rasters st').*1 = (grass_rasters st).*1
  else e = EndReached /\
       exists n, current_week st' = (current_week st + n)%nat /\
         (fuel > n)%nat /\
         (grass_rasters st').*1
         = (grass_rasters st).*1
           ++ series_maps c (dd_start st) (Datatypes.S n).
Proof.
  revert st. induction fuel as [|fuel IH]; intros st H; [done|].
  simpl in H. bind_inv H. destruct a as [r x]. cbn [fst snd] in H.
  destruct (week_body_effect _ _ _ _ E) as (Hk & He & _ & Hg & _).
  unfold kept in Hk. injection Hk as Hd Hcw Hs _.
  unfold flush_due in Hg.
  destruct (all_infected (S_oaks_rast st)) eqn:Hall.
  - subst x. injection H as <- <-. rewrite app_nil_r in Hg. done.
  - cbn [negb andb] in Hg.
    destruct (Date_ge (dd_start st) (dd_end (params c))) eqn:Hge; subst x.
    + injection H as <- <-. split; [done|]. exists 0%nat.
      split; [lia|]. split; [lia|].
      rewrite Hg. f_equal. unfold series_maps, maps_of_week. simpl.
      by rewrite app_nil_r.
    + specialize (IH _ H). cbn in IH. rewrite Hs, Hall in IH.
      destruct IH as (-> & n & Hcw' & Hfuel & Hg').
      split; [done|]. exists (Datatypes.S n).
      split; [lia|]. split; [lia|].
      rewrite Hg', Hg, Hd, <- app_assoc. f_equal.
      by rewrite (series_maps_S c (dd_start st)).
Qed.

Lemma final_output_maps c opt st st' :
  final_output c opt st = Ok st' ->
  current_week st' = current_week st /\
  (grass_rasters st').*1
  = (grass_rasters st).*1
    ++ opt_output opt
       :: match opt_stddev opt with Some name => [name] | None => [] end.
Proof.
  unfold final_output. intros H. bind_inv H.
  destruct (opt_stddev opt); binds; cbn;
    rewrite ?fmap_app, <- ?app_assoc; done.
Qed.

(** X21: the maps a run that ends well has written, in order: unless all
    oaks are infected at the start, for every week from the start whose
    date is a year end or not before the end date, the map of the mean
    series and the map of the standard-deviation series, if asked for,
    named after the date; then the final mean map and, if asked for, the
    final standard-deviation map.  The week counter of the last state says
    how many weeks were stepped through. *)
Theorem maps_written (env : Env) (opt : SodOptions) (p : Params)
  (c : Setup) (st0 st : SimState) :
  read_options env opt = Ok p ->
  setup env opt p = Ok (c, st0) ->
  main env opt = Ok (Some st) ->
  (grass_rasters st).*1
  = (if all_infected (S_oaks_rast st0) then []
     else series_maps c (dd_begin p) (Datatypes.S (current_week st)))
    ++ opt_output opt
       :: match opt_stddev opt with Some name => [name] | None => [] end.
Proof.
  intros Hopt Hsetup H. unfold main in H.
  rewrite Hopt in H. cbn [bind] in H. rewrite Hsetup in H.
  cbn [bind fst snd] in H. bind_inv H.
  destruct a as [[s e]|]; [|done]. bind_inv H. injection H as <-.
  destruct (final_output_maps _ _ _ _ E0) as [Hcw ->]. f_equal.
  destruct (setup_start _ _ _ _ _ Hsetup) as (_ & Hcw0 & Hd0 & _).
  assert (grass_rasters st0 = []) as Hg0.
  { unfold setup in Hsetup. bind_inv Hsetup. by injection Hsetup as <- <-. }
  pose proof (weekly_loop_maps _ _ _ _ _ E) as Hloop.
  rewrite Hg0, Hcw0, Hd0 in Hloop.
  destruct (all_infected (S_oaks_rast st0)).
  - by destruct Hloop as (_ & _ & ->).
  - destruct Hloop as (_ & n & Hn & _ & ->). simpl in Hn.
    by rewrite Hcw, Hn.
Qed.

Lemma weekly_loop_more_fuel fuel k c st :
  weekly_loop fuel c st <> Ok None ->
  weekly_loop (fuel + k) c st = weekly_loop fuel c st.
Proof.
  revert st. induction fuel as [|fuel IH]; intros st H; [done|].
  simpl in *. destruct (week_body c st) as [[r [e|]]| |]; simpl in *;
    try done.
  by apply IH.
Qed.

(** X22: the weekly loop comes to an end: from the dates [main] makes of
    the two years, 54 passes for every year from the start year to the end
    year are enough for the loop to be left, by a [break] or by a stop of
    the program, and more passes change nothing. *)
Theorem weekly_loop_terminates (env : Env) (opt : SodOptions) (p : Params)
  (c : Setup) (st0 : SimState) :
  read_options env opt = Ok p ->
  setup env opt p = Ok (c, st0) ->
  weekly_loop (loop_bound p) c st0 <> Ok None /\
  (forall fuel, (loop_bound p <= fuel)%nat ->
     weekly_loop fuel c st0 = weekly_loop (loop_bound p) c st0) /\
  (forall st e, weekly_loop (loop_bound p) c st0 = Ok (Some (st, e)) ->
     (current_week st < loop_bound p)%nat).
Proof.
  intros Hopt Hsetup.
  destruct (read_options_dates _ _ _ Hopt) as (s & e & Hse & Hb & He).
  destruct (setup_start _ _ _ _ _ Hsetup) as (_ & Hcw & Hstart & Hp).
  assert (weekly_loop (loop_bound p) c st0 <> Ok None) as Hends.
  { apply weekly_loop_ends; rewrite ?Hstart, ?Hp, ?Hb, ?He.
    - unfold Date_valid, day_in_month. simpl. lia.
    - unfold Date_valid, day_in_month. simpl. lia.
    - unfold loop_bound. lia.
    - unfold loop_bound, Date_rank. rewrite Hb, He. simpl. lia. }
  split; [done|]. split.
  - intros fuel Hfuel.
    replace fuel with (loop_bound p + (fuel - loop_bound p))%nat by lia.
    by apply weekly_loop_more_fuel.
  - intros st x Hloop. pose proof (weekly_loop_maps _ _ _ _ _ Hloop) as H.
    destruct (all_infected (S_oaks_rast st0)).
    + destruct H as (_ & -> & _). rewrite Hcw. unfold loop_bound. lia.
    + destruct H as (_ & n & -> & Hn & _). lia.
Qed.

End Maps.

Lemma maps_written_witness :
  (grass_rasters series_final).*1
  = (if all_infected (S_oaks_rast sample_state) then []
     else series_maps series_setup (dd_begin sample_params)
            (Datatypes.S (current_week series_final)))
    ++ opt_output series_options
       :: match opt_stddev series_options with
          | Some name => [name]
          | None => []
          end.
Proof.
  apply (@maps_written sample_world sample_env series_options sample_params
           series_setup sample_state series_final).
  - vm_compute. reflexivity.
  - vm_compute. reflexivity.
  - vm_compute. reflexivity.
Defined.

Lemma weekly_loop_terminates_witness :
  weekly_loop (loop_bound sample_params) sample_setup sample_state <> Ok None /\
  (forall fuel, (loop_bound sample_params <= fuel)%nat ->
     weekly_loop fuel sample_setup sample_state
     = weekly_loop (loop_bound sample_params) sample_setup sample_state) /\
  (forall st e,
     weekly_loop (loop_bound sample_params) sample_setup sample_state
     = Ok (Some (st, e)) ->
     (current_week st < loop_bound sample_params)%nat).
Proof.
  apply (@weekly_loop_terminates sample_world sample_env sample_options
           sample_params sample_setup sample_state).
  - vm_compute. reflexivity.
  - vm_compute. reflexivity.
Defined.

(** ** The weather the replicas are given *)

Section Slices.
Context {W : World}.

(** What a call of [get_spatial_weather] that returns has stored. *)
Lemma get_spatial_weather_Ok mcf_nc ccf_nc buf offset w h step buf' :
  get_spatial_weather mcf_nc ccf_nc buf offset w h step = Ok buf' ->
  exists mcf ccf,
    get mcf_nc step 1%nat h w = Some mcf /\
    get ccf_nc step 1%nat h w = Some ccf /\
    length buf' = length buf /\
    forall x,
      buf' !! x
      = if decide (offset <= x < offset + h * w /\ x < length buf)%nat
        then match mcf !! (x - offset)%nat, ccf !! (x - offset)%nat with
             | Some m, Some c => Some (d_mul m c)
             | _, _ => buf !! x
             end
        else buf !! x.
Proof.
  unfold get_spatial_weather.
  destruct (set_cur mcf_nc step); [|done].
  destruct (set_cur ccf_nc step); [|done]. simpl.
  destruct (get mcf_nc step 1%nat h w) as [mcf|]; [|done].
  destruct (get ccf_nc step 1%nat h w) as [ccf|]; [|done].
  intros [= <-]. exists mcf, ccf. split; [done|]. split; [done|].
  rewrite (foldl_ext_seq _
    (fun b j =>
       foldl (fun b k =>
                match (match mcf !! (j * w + k)%nat, ccf !! (j * w + k)%nat with
                       | Some m, Some c => Some (d_mul m c)
                       | _, _ => None
                       end) with
                | Some v => <[(offset + (j * w + k))%nat := v]> b
                | None => b
                end) b (seq 0 w))); last first.
  { intros a x. apply foldl_ext_seq. intros a' y.
    by destruct (mcf !! (x * w + y)%nat), (ccf !! (x * w + y)%nat). }
  destruct (store_rows
    (fun n => match mcf !! n, ccf !! n with
              | Some m, Some c => Some (d_mul m c)
              | _, _ => None
              end) offset w h buf) as [Hlen Hx].
  cbv zeta in *. split; [done|]. intros x. rewrite Hx.
  case_decide; [|done].
  by destruct (mcf !! (x - offset)%nat), (ccf !! (x - offset)%nat).
Qed.

(** The loop of [fetch_weather], from the pending week number [k0] on. *)
Lemma fetch_loop_slices (mcf_nc ccf_nc : NcVar) (w h : nat) (weeks : list nat)
  (k0 : nat) (buf : list double) (r : list double * nat) :
  (forall week mcf, get mcf_nc week 1%nat h w = Some mcf ->
                    length mcf = (h * w)%nat) ->
  (forall week ccf, get ccf_nc week 1%nat h w = Some ccf ->
                    length ccf = (h * w)%nat) ->
  ((k0 + length weeks) * w * h <= length buf)%nat ->
  for_loop (fun (acc : list double * nat) week =>
              let* b := get_spatial_weather mcf_nc ccf_nc acc.1
                          (acc.2 * w * h) w h week in
              Ok (b, Datatypes.S acc.2))
           (buf, k0) weeks = Ok r ->
  length r.1 = length buf /\
  (forall x, (x < k0 * w * h)%nat -> r.1 !! x = buf !! x) /\
  forall j week, weeks !! j = Some week ->
    exists mcf ccf,
      get mcf_nc week 1%nat h w = Some mcf /\
      get ccf_nc week 1%nat h w = Some ccf /\
      take (w * h) (drop ((k0 + j) * w * h) r.1) = zip_with d_mul mcf ccf.
Proof.
  intros Hm Hc. revert k0 buf.
  induction weeks as [|week weeks IH]; intros k0 buf Hlen H.
  - simpl in H. injection H as <-. split; [done|]. split; [done|].
    intros j wk Hj. by rewrite lookup_nil in Hj.
  - simpl in H. bind_inv H. bind_inv E. injection E as <-.
    cbn [fst snd] in *.
    destruct (get_spatial_weather_Ok _ _ _ _ _ _ _ _ E0)
      as (mcf & ccf & Hgm & Hgc & Hl & Hx).
    pose proof (Hm _ _ Hgm) as Hlm. pose proof (Hc _ _ Hgc) as Hlc.
    simpl in Hlen.
    destruct (IH (Datatypes.S k0) a0) as (Hl' & Hbefore & Hslices);
      [rewrite Hl; simpl; lia | done |].
    split; [congruence|]. split.
    { intros x Hxlt. rewrite Hbefore by (simpl; lia).
      rewrite Hx. rewrite decide_False by lia. done. }
    intros [|j] wk Hj.
    + injection Hj as <-. exists mcf, ccf. split; [done|]. split; [done|].
      apply list_eq. intros i.
      destruct (decide (i < w * h)%nat) as [Hi|Hi].
      * rewrite lookup_take_lt, lookup_drop by done.
        rewrite Hbefore by (simpl; nia).
        rewrite Hx. rewrite decide_True by nia.
        replace ((k0 + 0) * w * h + i - k0 * w * h)%nat with i by lia.
        rewrite lookup_zip_with.
        destruct (lookup_lt_is_Some_2 mcf i) as [m ->]; [nia|].
        destruct (lookup_lt_is_Some_2 ccf i) as [c' ->]; [nia|].
        done.
      * rewrite lookup_take_ge by lia. symmetry.
        apply lookup_ge_None. rewrite length_zip_with. nia.
    + destruct (Hslices j wk Hj) as (mcf' & ccf' & ? & ? & Hs).
      exists mcf', ccf'. split; [done|]. split; [done|].
      by replace (k0 + Datatypes.S j)%nat with (Datatypes.S k0 + j)%nat by lia.
Qed.

(** X23: with a coefficient file whose records hold one value per cell,
    and a buffer with room for the pending weeks, the slice of the weather
    buffer that every replica is given for the [k]-th pending week holds,
    cell by cell, the product of the moisture and temperature records of
    that week. *)
Theorem replicas_get_weather_of_week (c : Setup) (st st' : SimState)
  (mcf_nc ccf_nc : NcVar) :
  weather_coeff c = Some (mcf_nc, ccf_nc) ->
  (forall week mcf, get mcf_nc week 1%nat (height c) (width c) = Some mcf ->
     length mcf = (height c * width c)%nat) ->
  (forall week ccf, get ccf_nc week 1%nat (height c) (width c) = Some ccf ->
     length ccf = (height c * width c)%nat) ->
  (length (unresolved_weeks st) * width c * height c
   <= length (weather st))%nat ->
  fetch_weather c st = Ok st' ->
  unresolved_weeks st' = unresolved_weeks st /\
  forall k week, unresolved_weeks st !! k = Some week ->
    exists mcf ccf,
      get mcf_nc week 1%nat (height c) (width c) = Some mcf /\
      get ccf_nc week 1%nat (height c) (width c) = Some ccf /\
      take (width c * height c)
           (drop (k * width c * height c) (weather st'))
      = zip_with d_mul mcf ccf.
Proof.
  intros Hnc Hm Hc Hlen H. unfold fetch_weather in H. rewrite Hnc in H.
  bind_inv H. injection H as <-. split; [done|].
  destruct (fetch_loop_slices _ _ _ _ _ 0 _ _ Hm Hc Hlen E)
    as (_ & _ & Hslices).
  exact Hslices.
Qed.

End Slices.

Lemma replicas_get_weather_of_week_witness :
  unresolved_weeks nc_fetched = unresolved_weeks nc_state /\
  forall k week, unresolved_weeks nc_state !! k = Some week ->
    exists mcf ccf,
      get sample_ncvar week 1%nat (height nc_setup) (width nc_setup)
      = Some mcf /\
      get sample_ncvar week 1%nat (height nc_setup) (width nc_setup)
      = Some ccf /\
      take (width nc_setup * height nc_setup)
           (drop (k * width nc_setup * height nc_setup) (weather nc_fetched))
      = zip_with (@d_mul sample_world) mcf ccf.
Proof.
  apply (@replicas_get_weather_of_week sample_world nc_setup nc_state
           nc_fetched sample_ncvar sample_ncvar).
  - reflexivity.
  - intros week mcf. simpl. destruct (week <? 2)%nat; [|done].
    intros [= <-]. reflexivity.
  - intros week ccf. simpl. destruct (week <? 2)%nat; [|done].
    intros [= <-]. reflexivity.
  - simpl. lia.
  - vm_compute. reflexivity.
Defined.
